(** * Census-tract geocoding pipeline: shallow embedding and properties

    The development follows the TypeScript sources:

    - [spatialIndex.ts]: [loadCensusTractShapefiles], [extractAllCoordinates],
      [extractBounds], [findTractForPoint];
    - [worker.ts]: [processAddresses];
    - [index.ts]: [openNewOutputFile], [writeResults], [processAddressFile]
      and the file loop of [main].

    JavaScript numbers are IEEE doubles.  The sources only ever compare
    coordinates, take [Math.min]/[Math.max] of them and test [isNaN]; none of
    these operations rounds, so a coordinate is modelled as NaN, an infinity
    or an exact rational.  Third-party packages (rbush, turf, the global
    [parseFloat]) are taken through an interface, [Externals]. *)

From Stdlib Require Import List String Ascii Bool Arith NArith ZArith QArith Lia Lqa.
From Stdlib Require Import Permutation.
From Stdlib Require DecimalN DecimalPos.
From Stdlib Require Import DecimalString.
Import ListNotations.

Set Warnings "-register-all".

Local Open Scope list_scope.
Local Open Scope string_scope.

(* ------------------------------------------------------------------ *)
(** ** JavaScript numbers *)

Module JS.

Inductive number : Type :=
| NaN
| NegInfinity
| Finite (q : Q)
| Infinity.

Definition isNaN (x : number) : bool :=
  match x with NaN => true | _ => false end.

Definition Qltb (a b : Q) : bool := negb (Qle_bool b a).

(** [x < y]; every comparison with NaN is false. *)
Definition lt (x y : number) : bool :=
  match x, y with
  | NaN, _ | _, NaN => false
  | Infinity, _ => false
  | _, NegInfinity => false
  | NegInfinity, _ => true
  | Finite _, Infinity => true
  | Finite a, Finite b => Qltb a b
  end.

(** [x > y]. *)
Definition gt (x y : number) : bool := lt y x.

(** [x <= y]. *)
Definition le (x y : number) : bool :=
  match x, y with
  | NaN, _ | _, NaN => false
  | _, _ => negb (lt y x)
  end.

(** [x >= y]. *)
Definition ge (x y : number) : bool := le y x.

(** [Math.min(x, y)]: NaN as soon as one argument is NaN. *)
Definition Math_min (x y : number) : number :=
  if isNaN x || isNaN y then NaN else if lt y x then y else x.

(** [Math.max(x, y)]. *)
Definition Math_max (x y : number) : number :=
  if isNaN x || isNaN y then NaN else if lt x y then y else x.

(** Truthiness of a string-or-null value ([if (s)]): null, undefined and the
    empty string are falsy. *)
Definition truthy (s : option string) : bool :=
  match s with
  | Some s => negb (s =? "")
  | None => false
  end.

Definition is_digit (c : ascii) : bool :=
  let n := nat_of_ascii c in (48 <=? n)%nat && (n <=? 57)%nat.

(** [String(n)] for a non-negative integer. *)
Definition String_of_N (n : N) : string :=
  NilZero.string_of_uint (N.to_uint n).

Fixpoint repeat_string (c : string) (n : nat) : string :=
  match n with
  | O => ""
  | S n => c ++ repeat_string c n
  end.

(** [s.padStart(width, c)] for a one-character pad. *)
Definition padStart (s : string) (width : nat) (c : string) : string :=
  repeat_string c (width - String.length s) ++ s.

End JS.

Import JS.

Declare Scope js_scope.
Delimit Scope js_scope with js.
Notation "x <? y" := (JS.lt x y) : js_scope.
Notation "x >? y" := (JS.gt x y) : js_scope.
Notation "x <=? y" := (JS.le x y) : js_scope.
Notation "x >=? y" := (JS.ge x y) : js_scope.

(** Decimal literals used by the sources. *)
Definition num (q : Q) : number := Finite q.

(* ------------------------------------------------------------------ *)
(** ** Data model ([spatialIndex.ts]) *)

(** [coordinates: any]: a position [[lon, lat]] or an array of nested
    coordinate arrays (ring, polygon, multi-polygon). *)
Inductive coords : Type :=
| Position (lon lat : number)
| Nested (cs : list coords).

Inductive GeometryType : Type := Polygon | MultiPolygon.

Record GeoJSONGeometry : Type := {
  type : GeometryType;
  coordinates : coords
}.

Record CensusTract : Type := {
  geoid : string;
  geometry : GeoJSONGeometry
}.

Record RBushItem : Type := {
  minX : number;
  minY : number;
  maxX : number;
  maxY : number;
  id : nat
}.

(** The argument of [index.search]. *)
Record SearchBox : Type := {
  q_minX : number;
  q_minY : number;
  q_maxX : number;
  q_maxY : number
}.

(** rbush's [intersects(query, item)]. *)
Definition intersects (q : SearchBox) (it : RBushItem) : bool :=
  (minX it <=? q_maxX q)%js && (minY it <=? q_maxY q)%js &&
  (maxX it >=? q_minX q)%js && (maxY it >=? q_minY q)%js.

(** [/^\d{11}$/.test(s)]. *)
Definition geoid_re_test (s : string) : bool :=
  (String.length s =? 11)%nat && forallb is_digit (list_ascii_of_string s).

(** [processCoordinates]: the pairs pushed while walking [c]. *)
Fixpoint processCoordinates (c : coords) : list (number * number) :=
  match c with
  | Position lon lat => [(lon, lat)]
  | Nested cs => flat_map processCoordinates cs
  end.

Definition extractAllCoordinates (g : GeoJSONGeometry) : list (number * number) :=
  match type g with
  | Polygon => processCoordinates (coordinates g)
  | MultiPolygon =>
      match coordinates g with
      | Nested polygons => flat_map processCoordinates polygons
      | Position _ _ => []
      end
  end.

Definition Bounds : Type := (number * number * number * number)%type.

Definition extend (b : Bounds) (c : number * number) : Bounds :=
  let '(minX, minY, maxX, maxY) := b in
  let '(lon, lat) := c in
  (Math_min minX lon, Math_min minY lat, Math_max maxX lon, Math_max maxY lat).

Definition extractBounds (g : GeoJSONGeometry) : Bounds :=
  match extractAllCoordinates g with
  | [] => (num 0, num 0, num 0, num 0)
  | ((lon0, lat0) :: _) as coords =>
      fold_left extend coords (lon0, lat0, lon0, lat0)
  end.

(* ------------------------------------------------------------------ *)
(** ** Third-party code

    [rbush] (bulk load and search of an R-tree), turf's [point] and
    [booleanPointInPolygon] and the global [parseFloat] are not part of the
    repository.  They enter through this interface.  A function that may
    throw returns [inl message].  The laws are the packages' contracts:
    [point] accepts every pair of numbers (it throws on NaN only); a search
    returns loaded items that intersect the query, and misses none of them
    when no bounding box holds a NaN (a NaN box poisons the box of its tree
    node, so nothing is promised then). *)

Definition box_is_numeric (it : RBushItem) : Prop :=
  isNaN (minX it) = false /\ isNaN (minY it) = false /\
  isNaN (maxX it) = false /\ isNaN (maxY it) = false.

Class Externals : Type := {
  parseFloat : string -> number;
  RBush : Type;
  rbush_load : list RBushItem -> string + RBush;
  rbush_search : RBush -> SearchBox -> list RBushItem;
  point : number * number -> string + number * number;
  booleanPointInPolygon : number * number -> GeoJSONGeometry -> string + bool;
  point_numeric :
    forall lon lat,
      isNaN lon = false -> isNaN lat = false -> point (lon, lat) = inr (lon, lat);
  rbush_search_sound :
    forall items t q it,
      rbush_load items = inr t -> In it (rbush_search t q) ->
      In it items /\ intersects q it = true;
  rbush_search_complete :
    forall items t q it,
      rbush_load items = inr t -> Forall box_is_numeric items ->
      In it items -> intersects q it = true -> In it (rbush_search t q)
}.

(** What the code prints with [console.log] and [console.warn]. *)
Inductive ConsoleEvent : Type :=
| Log (msg : string)
| Warn (msg : string).

(* ------------------------------------------------------------------ *)
(** ** The shapefile directory as the loader sees it *)

(** A record of a shapefile: its properties in key order, each value as
    [String(value)] prints it, and its geometry, a polygon or multi-polygon
    as the cast of the loader takes it to be. *)
Module Feature.
Record t : Type := {
  properties : list (string * string);
  geometry : GeoJSONGeometry
}.
End Feature.

(** One [await source.read()]: a feature, or an exception.  Past the last
    element of the list the source reports [done]. *)
Inductive ReadResult : Type :=
| ReadValue (f : Feature.t)
| ReadThrows (msg : string).

(** [await shapefile.open(shpPath)]. *)
Inductive Shapefile : Type :=
| OpenThrows (msg : string)
| Opened (reads : list ReadResult).

(** An entry of [DATA_DIR]; [shpFile] is the first [.shp] name found in it. *)
Record Dirent : Type := {
  name : string;
  isDirectory : bool;
  shpFile : option string;
  source : Shapefile
}.

(** [fs.readdirSync(DATA_DIR, ...)]. *)
Inductive DataDir : Type :=
| ReaddirThrows (msg : string)
| Entries (dirs : list Dirent).

Definition DATA_DIR : string := "data/census_tracts".

Definition GEOID_FIELDS : list string := ["GEOID"; "GEOID20"; "geoid"].

(** [Object.keys(props).find(k => [...].includes(k)) || null]. *)
Definition detectGeoidField (props : list (string * string)) : option string :=
  find (fun k => existsb (String.eqb k) GEOID_FIELDS) (map fst props).

(** [String(props[field])]; a missing property prints as "undefined". *)
Definition propertyString (props : list (string * string)) (field : string) : string :=
  match find (fun kv => fst kv =? field) props with
  | Some kv => snd kv
  | None => "undefined"
  end.

Record LoadState : Type := {
  ls_tracts : list CensusTract;
  ls_bbox : Bounds;
  ls_console : list ConsoleEvent
}.

Definition say (e : ConsoleEvent) (st : LoadState) : LoadState :=
  {| ls_tracts := ls_tracts st; ls_bbox := ls_bbox st;
     ls_console := (ls_console st ++ [e])%list |}.

(** The [while] loop over the features of one shapefile.  The result is the
    tract count when the loop ends (source done, or [break]) and the message
    when [source.read()] throws. *)
Fixpoint readFeatures (dirName : string) (reads : list ReadResult)
    (geoidField : option string) (tractCount : N) (st : LoadState)
  : LoadState * (string + N) :=
  match reads with
  | [] => (st, inr tractCount)
  | ReadThrows msg :: _ => (st, inl msg)
  | ReadValue f :: rest =>
      let detected :=
        match geoidField with
        | None => detectGeoidField (Feature.properties f)
        | Some k => Some k
        end in
      match detected with
      | None =>
          (say (Warn ("    ⚠ No GEOID field found in " ++ dirName)) st, inr tractCount)
      | Some field =>
          let geoid := propertyString (Feature.properties f) field in
          if negb (geoid_re_test geoid) then
            readFeatures dirName rest (Some field) tractCount
              (say (Warn ("    ⚠ Invalid GEOID format: " ++ geoid)) st)
          else
            let coords := extractAllCoordinates (Feature.geometry f) in
            readFeatures dirName rest (Some field) (tractCount + 1)
              {| ls_tracts := (ls_tracts st ++
                   [{| geoid := geoid; geometry := Feature.geometry f |}])%list;
                 ls_bbox := fold_left extend coords (ls_bbox st);
                 ls_console := ls_console st |}
      end
  end.

(** The body of [for (const dir of stateDir)]. *)
Definition loadState (st : LoadState) (dir : Dirent) : LoadState :=
  if negb (isDirectory dir) || negb (prefix "state_" (name dir)) then st
  else
    match shpFile dir with
    | None => st
    | Some file =>
        let shpPath := DATA_DIR ++ "/" ++ name dir ++ "/" ++ file in
        let st := say (Log ("  Loading " ++ name dir ++ "...")) st in
        match source dir with
        | OpenThrows msg =>
            say (Warn ("    ✗ Error loading " ++ shpPath ++ ": " ++ msg)) st
        | Opened reads =>
            match readFeatures (name dir) reads None 0 st with
            | (st', inr n) =>
                say (Log ("    ✓ Loaded " ++ String_of_N n ++ " tracts from " ++ name dir)) st'
            | (st', inl msg) =>
                say (Warn ("    ✗ Error loading " ++ shpPath ++ ": " ++ msg)) st'
            end
        end
    end.

(** The [for (let i = 0; i < tracts.length; i++)] loop, from index [i]. *)
Fixpoint buildItems (i : nat) (tracts : list CensusTract) : list RBushItem :=
  match tracts with
  | [] => []
  | t :: rest =>
      let '(tractMinX, tractMinY, tractMaxX, tractMaxY) := extractBounds (geometry t) in
      {| minX := tractMinX; minY := tractMinY; maxX := tractMaxX; maxY := tractMaxY;
         id := i |} :: buildItems (S i) rest
  end.

Definition initialLoadState : LoadState :=
  {| ls_tracts := [];
     ls_bbox := (num 180, num 90, num (-180), num (-90));
     ls_console := [Log "Loading census tract shapefiles..."] |}.

(** What [findTractForPoint] does besides returning: index searches,
    containment tests (by tract index) and warnings, in order. *)
Inductive MatchEvent : Type :=
| Searched (q : SearchBox)
| Tested (tractId : nat)
| Warned (msg : string).

(** How a call ends: [return a] or [throw new Error(msg)]. *)
Inductive Completion (A : Type) : Type :=
| Returned (a : A)
| Thrown (msg : string).

Arguments Returned {A} a.
Arguments Thrown {A} msg.

Section Pipeline.

Context {E : Externals}.

Record SpatialIndex : Type := {
  index : RBush;
  tracts : list CensusTract;
  items : list RBushItem;
  bbox : Bounds
}.

(** [loadCensusTractShapefiles]: the console output and either the message of
    the [Error] thrown or the index. *)
Definition loadCensusTractShapefiles (data : DataDir)
  : list ConsoleEvent * (string + SpatialIndex) :=
  match data with
  | ReaddirThrows msg =>
      (ls_console initialLoadState, inl ("Failed to load shapefiles: " ++ msg))
  | Entries dirs =>
      let st := fold_left loadState dirs initialLoadState in
      match ls_tracts st with
      | [] =>
          (ls_console st,
           inl "No census tracts loaded. Run: npm run download-shapefiles")
      | _ :: _ =>
          let st := say (Log ("✓ Total tracts loaded: " ++
                              String_of_N (N.of_nat (List.length (ls_tracts st))))) st in
          let st := say (Log "Building spatial index...") st in
          let items := buildItems 0 (ls_tracts st) in
          match rbush_load items with
          | inl msg => (ls_console st, inl msg)
          | inr index =>
              ((ls_console st ++ [Log "✓ Spatial index built"])%list,
               inr {| index := index; tracts := ls_tracts st; items := items;
                      bbox := ls_bbox st |})
          end
      end
  end.

(** The [for (const item of candidates)] loop.  [tracts[item.id]] out of
    range is [undefined]: reading its [geometry] throws inside the [try], and
    the [catch] block throws again on [tract.geoid]. *)
Fixpoint testCandidates (tracts : list CensusTract) (testPoint : number * number)
    (candidates : list RBushItem) : list MatchEvent * Completion (option string) :=
  match candidates with
  | [] => ([], Returned None)
  | item :: rest =>
      match nth_error tracts (id item) with
      | None => ([], Thrown "Cannot read properties of undefined (reading 'geoid')")
      | Some tract =>
          match booleanPointInPolygon testPoint (geometry tract) with
          | inr true => ([Tested (id item)], Returned (Some (geoid tract)))
          | inr false =>
              let (events, r) := testCandidates tracts testPoint rest in
              (Tested (id item) :: events, r)
          | inl msg =>
              let (events, r) := testCandidates tracts testPoint rest in
              (Tested (id item)
                 :: Warned ("  Warning: Invalid geometry for GEOID " ++ geoid tract
                            ++ ": " ++ msg)
                 :: events, r)
          end
      end
  end.

Definition findTractForPoint (lat lon : number) (spatialIndex : SpatialIndex)
  : list MatchEvent * Completion (option string) :=
  if (lat <? num (-90))%js || (lat >? num 90)%js ||
     (lon <? num (-180))%js || (lon >? num 180)%js then
    ([], Returned None)
  else
    let '(bbox0, bbox1, bbox2, bbox3) := bbox spatialIndex in
    if (lon <? bbox0)%js || (lon >? bbox2)%js ||
       (lat <? bbox1)%js || (lat >? bbox3)%js then
      ([], Returned None)
    else
      let q := {| q_minX := lon; q_minY := lat; q_maxX := lon; q_maxY := lat |} in
      let candidates := rbush_search (index spatialIndex) q in
      match point (lon, lat) with
      | inl msg => ([Searched q], Thrown msg)
      | inr testPoint =>
          let (events, r) := testCandidates (tracts spatialIndex) testPoint candidates in
          (Searched q :: events, r)
      end.

End Pipeline.

(* ------------------------------------------------------------------ *)
(** ** The worker ([worker.ts]) *)

Module Address.
Record t : Type := {
  address_id : string;
  latitude : number;
  longitude : number
}.
End Address.

(** [ProcessResult] in [worker.ts], [GeocodeResult] in [index.ts]: the same
    shape.  A missing [error] property is [None]. *)
Module GeocodeResult.
Record t : Type := {
  address_id : string;
  census_tract_geoid : option string;
  error : option string
}.
End GeocodeResult.

Definition ProcessResult : Type := GeocodeResult.t.

(** The [spatialIndex] part of the worker's input. *)
Record SpatialIndexData : Type := {
  data_items : list RBushItem;
  data_tracts : list CensusTract;
  data_bbox : Bounds
}.

Record WorkerInput : Type := {
  addresses : list Address.t;
  spatialIndex : SpatialIndexData
}.

Section Worker.

Context {E : Externals}.

(** The body of [for (const addr of addresses)], with its [try]/[catch]. *)
Definition processAddress (spatialIndex : SpatialIndex) (addr : Address.t)
  : ProcessResult :=
  let lat := Address.latitude addr in
  let lon := Address.longitude addr in
  if isNaN lat || isNaN lon then
    {| GeocodeResult.address_id := Address.address_id addr;
       GeocodeResult.census_tract_geoid := None;
       GeocodeResult.error := Some "invalid_coordinates" |}
  else
    match snd (findTractForPoint lat lon spatialIndex) with
    | Returned geoid =>
        {| GeocodeResult.address_id := Address.address_id addr;
           GeocodeResult.census_tract_geoid := geoid;
           GeocodeResult.error := None |}
    | Thrown msg =>
        {| GeocodeResult.address_id := Address.address_id addr;
           GeocodeResult.census_tract_geoid := None;
           GeocodeResult.error := Some msg |}
    end.

Definition processAddresses (input : WorkerInput) : list ProcessResult :=
  let indexData := spatialIndex input in
  match rbush_load (data_items indexData) with
  | inl msg =>
      map (fun addr =>
             {| GeocodeResult.address_id := Address.address_id addr;
                GeocodeResult.census_tract_geoid := None;
                GeocodeResult.error := Some ("index_error: " ++ msg) |})
          (addresses input)
  | inr index =>
      map (processAddress
             {| index := index; tracts := data_tracts indexData;
                items := data_items indexData; bbox := data_bbox indexData |})
          (addresses input)
  end.

End Worker.

(* ------------------------------------------------------------------ *)
(** ** The result sink ([index.ts]) *)

Definition OUTPUT_DIR : string := "output".
Definition CHUNK_SIZE : N := 10000.
Definition ROWS_PER_FILE : N := 500000.

Record Stats : Type := {
  totalProcessed : N;
  totalMatched : N;
  totalUnmatched : N;
  totalErrors : N
}.

(** A stream made by [createWriteStream]: what was written to it, the most
    recent write first, and whether [end()] was called. *)
Record WriteStream : Type := {
  ws_path : string;
  ws_chunks : list string;
  ws_ended : bool
}.

(** The writes of a stream in the order they were made. *)
Definition written (ws : WriteStream) : list string := rev (ws_chunks ws).

(** The module-level variables of [index.ts].  [openedStreams] holds every
    output stream ever created; [outputFile] refers to one of them by its
    position.  [logStream] and [unmatchedStream] keep their writes, the most
    recent first. *)
Record Globals : Type := {
  stats : Stats;
  logStream : list string;
  openedStreams : list WriteStream;
  outputFile : option nat;
  outputFilePath : option string;
  outputRowCount : N;
  currentOutputPart : N;
  unmatchedStream : list string
}.

(** The line feed of the template literals. *)
Definition newline : string := String "010"%char EmptyString.

Definition OUTPUT_HEADER : string := "address_id,census_tract_geoid" ++ newline.
Definition UNMATCHED_HEADER : string := "address_id,error_reason" ++ newline.

(** [log(message)], without the timestamp. *)
Definition log (message : string) (g : Globals) : Globals :=
  {| stats := stats g; logStream := message :: logStream g;
     openedStreams := openedStreams g; outputFile := outputFile g;
     outputFilePath := outputFilePath g; outputRowCount := outputRowCount g;
     currentOutputPart := currentOutputPart g;
     unmatchedStream := unmatchedStream g |}.

Definition getOutputFilePath (partNumber : N) : string :=
  OUTPUT_DIR ++ "/tracts_part_" ++ padStart (String_of_N partNumber) 3 "0" ++ ".csv".

(** [stream.end()] on the stream at position [h]. *)
Fixpoint endStream (h : nat) (l : list WriteStream) : list WriteStream :=
  match l, h with
  | [], _ => []
  | ws :: rest, O =>
      {| ws_path := ws_path ws; ws_chunks := ws_chunks ws; ws_ended := true |} :: rest
  | ws :: rest, S h => ws :: endStream h rest
  end.

(** [stream.write(chunk)] on the stream at position [h]. *)
Fixpoint writeStream (h : nat) (chunk : string) (l : list WriteStream)
  : list WriteStream :=
  match l, h with
  | [], _ => []
  | ws :: rest, O =>
      {| ws_path := ws_path ws; ws_chunks := chunk :: ws_chunks ws;
         ws_ended := ws_ended ws |} :: rest
  | ws :: rest, S h => ws :: writeStream h chunk rest
  end.

Definition openNewOutputFile (g : Globals) : Globals :=
  let closed :=
    match outputFile g with
    | Some h => endStream h (openedStreams g)
    | None => openedStreams g
    end in
  let path := getOutputFilePath (currentOutputPart g) in
  log ("✓ Opened output file: " ++ path)
    {| stats := stats g; logStream := logStream g;
       openedStreams :=
         (closed ++ [{| ws_path := path; ws_chunks := [OUTPUT_HEADER];
                        ws_ended := false |}])%list;
       outputFile := Some (List.length closed);
       outputFilePath := Some path;
       outputRowCount := 0;
       currentOutputPart := currentOutputPart g;
       unmatchedStream := unmatchedStream g |}.

(** [a || b] on strings. *)
Definition or_else (a : option string) (b : string) : string :=
  match a with
  | Some s => if s =? "" then b else s
  | None => b
  end.

(** [`${v}`] for a string-or-null value. *)
Definition show (a : option string) : string :=
  match a with Some s => s | None => "null" end.

(** [currentOutputPart++]. *)
Definition nextPart (g : Globals) : Globals :=
  {| stats := stats g; logStream := logStream g;
     openedStreams := openedStreams g; outputFile := outputFile g;
     outputFilePath := outputFilePath g; outputRowCount := outputRowCount g;
     currentOutputPart := currentOutputPart g + 1;
     unmatchedStream := unmatchedStream g |}.

(** [if (outputRowCount >= ROWS_PER_FILE) { currentOutputPart++;
    openNewOutputFile(); }]. *)
Definition rotate (g : Globals) : Globals :=
  if (ROWS_PER_FILE <=? outputRowCount g)%N then openNewOutputFile (nextPart g)
  else g.

(** [outputFile!.write(chunk)]; [writeResults] opens a file before its loop,
    so a stream is there when this runs. *)
Definition writeOutput (chunk : string) (g : Globals) : Globals :=
  {| stats := stats g; logStream := logStream g;
     openedStreams :=
       match outputFile g with
       | Some h => writeStream h chunk (openedStreams g)
       | None => openedStreams g
       end;
     outputFile := outputFile g; outputFilePath := outputFilePath g;
     outputRowCount := outputRowCount g;
     currentOutputPart := currentOutputPart g;
     unmatchedStream := unmatchedStream g |}.

(** [unmatchedStream.write(chunk)]. *)
Definition writeUnmatched (chunk : string) (g : Globals) : Globals :=
  {| stats := stats g; logStream := logStream g;
     openedStreams := openedStreams g;
     outputFile := outputFile g; outputFilePath := outputFilePath g;
     outputRowCount := outputRowCount g;
     currentOutputPart := currentOutputPart g;
     unmatchedStream := chunk :: unmatchedStream g |}.

Definition setStats (st : Stats) (g : Globals) : Globals :=
  {| stats := st; logStream := logStream g;
     openedStreams := openedStreams g;
     outputFile := outputFile g; outputFilePath := outputFilePath g;
     outputRowCount := outputRowCount g;
     currentOutputPart := currentOutputPart g;
     unmatchedStream := unmatchedStream g |}.

(** [`${result.address_id},${result.census_tract_geoid}\n`]. *)
Definition outputRow (result : GeocodeResult.t) : string :=
  GeocodeResult.address_id result ++ "," ++
  show (GeocodeResult.census_tract_geoid result) ++ newline.

(** [`${result.address_id},${result.error || 'no_match'}\n`]. *)
Definition unmatchedRow (result : GeocodeResult.t) : string :=
  GeocodeResult.address_id result ++ "," ++
  or_else (GeocodeResult.error result) "no_match" ++ newline.

(** The [if (result.census_tract_geoid) ... else ...] of [writeResults]. *)
Definition route (result : GeocodeResult.t) (g : Globals) : Globals :=
  let st := stats g in
  if truthy (GeocodeResult.census_tract_geoid result) then
    setStats {| totalProcessed := totalProcessed st;
                totalMatched := totalMatched st + 1;
                totalUnmatched := totalUnmatched st;
                totalErrors := totalErrors st |}
      (writeOutput (outputRow result) g)
  else
    let g :=
      setStats {| totalProcessed := totalProcessed st;
                  totalMatched := totalMatched st;
                  totalUnmatched := totalUnmatched st + 1;
                  totalErrors := totalErrors st |} g in
    if truthy (GeocodeResult.error result) then
      writeUnmatched (unmatchedRow result) g
    else g.

(** [outputRowCount++; stats.totalProcessed++]. *)
Definition countRow (g : Globals) : Globals :=
  let st := stats g in
  {| stats := {| totalProcessed := totalProcessed st + 1;
                 totalMatched := totalMatched st;
                 totalUnmatched := totalUnmatched st;
                 totalErrors := totalErrors st |};
     logStream := logStream g;
     openedStreams := openedStreams g;
     outputFile := outputFile g; outputFilePath := outputFilePath g;
     outputRowCount := outputRowCount g + 1;
     currentOutputPart := currentOutputPart g;
     unmatchedStream := unmatchedStream g |}.

(** The body of [for (const result of results)] in [writeResults]. *)
Definition writeResult (g : Globals) (result : GeocodeResult.t) : Globals :=
  countRow (route result (rotate g)).

Definition writeResults (g : Globals) (results : list GeocodeResult.t) : Globals :=
  let g := match outputFile g with None => openNewOutputFile g | Some _ => g end in
  fold_left writeResult results g.

(* ------------------------------------------------------------------ *)
(** ** The chunk dispatcher ([processAddressFile] and the loop of [main])

    A file is the list of records the CSV parser yields.  The ['readable']
    handler is an [async] function: at [await pool.run(...)] it is suspended
    and control goes back to the event loop, where the parser may yield
    further records to another call of the handler, emit ['end'], or where
    another suspended handler may go on.  [parser.pause()] does not hold any
    of this back for a stream read through ['readable'].  So the dispatcher
    is a transition system: a state holds the module-level variables, the
    local variables of the current [processAddressFile] call and the
    suspended handlers, and a step is what runs between two visits of the
    event loop.  Which step comes next is not decided by the program. *)

Module CsvRecord.
Record t : Type := {
  address_id : string;
  latitude : string;
  longitude : string
}.
End CsvRecord.

(** [pool.run(input)]: the worker's results, or the rejection message. *)
Definition Pool : Type := WorkerInput -> string + list GeocodeResult.t.

(** The local variables of one [processAddressFile] call. *)
Record FileRun : Type := {
  chunkBuffer : list Address.t;
  processedCount : N
}.

Definition initialGlobals : Globals :=
  {| stats := {| totalProcessed := 0; totalMatched := 0;
                 totalUnmatched := 0; totalErrors := 0 |};
     logStream := [];
     openedStreams := [];
     outputFile := None;
     outputFilePath := None;
     outputRowCount := 0;
     currentOutputPart := 1;
     unmatchedStream := [UNMATCHED_HEADER] |}.

(** Where a suspended handler waits. *)
Inductive Stage : Type :=
| AwaitingPool     (* at [await pool.run(...)] *)
| AwaitingWrite.   (* at [await writeResults(results)]: the results are written *)

(** A handler suspended at an [await]: the [processAddressFile] call whose
    local variables it closes over, whether it is the ['end'] handler, the
    chunk it handed to the pool, and where it waits. *)
Record Suspended : Type := {
  su_call : nat;
  su_final : bool;
  su_chunk : list Address.t;
  su_stage : Stage
}.

(** Where [main] and the current [processAddressFile] call stand. *)
Inductive Phase : Type :=
| Reading                 (* the parser has not emitted ['end'] *)
| Ending                  (* the ['end'] handler awaits its chunk *)
| Resolved (count : N)    (* [resolve(count)] was called; [main] has not resumed *)
| Exited.                 (* [process.exit] *)

(** The state of [main] from its loop over the address files on. *)
Record Main : Type := {
  globals : Globals;
  (** the address files from the current one on *)
  pendingFiles : list (string * list CsvRecord.t);
  (** the number of the current [processAddressFile] call *)
  callNumber : nat;
  (** the records the parser of the current file has not yielded *)
  unread : list CsvRecord.t;
  (** [chunkBuffer] and [processedCount] of the current call *)
  locals : FileRun;
  phase : Phase;
  suspended : list Suspended
}.

Definition newCall : FileRun := {| chunkBuffer := []; processedCount := 0 |}.

(** Whether [su] is the ['end'] handler of the call number [call]. *)
Definition isFinalOf (call : nat) (su : Suspended) : bool :=
  su_final su && (su_call su =? call)%nat.

Section Dispatcher.

Context {E : Externals}.
Variable pool : Pool.
Variable loadedIndex : SpatialIndex.

(** The object sent along with every chunk. *)
Definition indexData : SpatialIndexData :=
  {| data_items := items loadedIndex; data_tracts := tracts loadedIndex;
     data_bbox := bbox loadedIndex |}.

(** The argument of [pool.run]. *)
Definition workerInput (chunk : list Address.t) : WorkerInput :=
  {| addresses := chunk; spatialIndex := indexData |}.

(** The branch taken for a row whose coordinates fail validation:
    [stats.totalErrors++; unmatchedStream.write(...)]. *)
Definition recordInvalid (g : Globals) (record : CsvRecord.t) : Globals :=
  let st := stats g in
  writeUnmatched
    (CsvRecord.address_id record ++ ",invalid_coordinates" ++ newline)
    (setStats {| totalProcessed := totalProcessed st;
                 totalMatched := totalMatched st;
                 totalUnmatched := totalUnmatched st;
                 totalErrors := totalErrors st + 1 |} g).

(** The validation of the ['readable'] handler. *)
Definition invalidCoordinates (lat lon : number) : bool :=
  isNaN lat || isNaN lon || (lat <? num (-90))%js || (lat >? num 90)%js ||
  (lon <? num (-180))%js || (lon >? num 180)%js.

(** The body of [while ((record = parser.read()) !== null)] for one record,
    up to its [await]: the module-level and local variables afterwards, and
    the chunk handed to [pool.run] when the buffer has reached CHUNK_SIZE
    ([chunk = chunkBuffer; chunkBuffer = []]).  Nothing in it throws in this
    model, so the [catch] of the record (which counts one more error) is
    never entered. *)
Definition onRecord (g : Globals) (run : FileRun) (record : CsvRecord.t)
  : Globals * FileRun * option (list Address.t) :=
  let lat := parseFloat (CsvRecord.latitude record) in
  let lon := parseFloat (CsvRecord.longitude record) in
  if invalidCoordinates lat lon then (recordInvalid g record, run, None)
  else
    let buffer :=
      (chunkBuffer run ++
         [{| Address.address_id := CsvRecord.address_id record;
             Address.latitude := lat; Address.longitude := lon |}])%list in
    if (CHUNK_SIZE <=? N.of_nat (List.length buffer))%N then
      (g, {| chunkBuffer := []; processedCount := processedCount run |}, Some buffer)
    else
      (g, {| chunkBuffer := buffer; processedCount := processedCount run |}, None).

(** The handler that [onRecord] leaves suspended, if any. *)
Definition dispatchedBy (call : nat) (chunk : option (list Address.t))
  : list Suspended :=
  match chunk with
  | Some c => [{| su_call := call; su_final := false; su_chunk := c;
                  su_stage := AwaitingPool |}]
  | None => []
  end.

(** The text of the two [catch] blocks around [pool.run]. *)
Definition chunkError (final : bool) (err : string) : string :=
  "✗ Error processing " ++ (if final then "final chunk" else "chunk") ++ ": " ++ err.

(** [processedCount += chunk.length] in the call that [su] belongs to; the
    variable of an earlier call is no longer read by anything. *)
Definition counted (s : Main) (su : Suspended) : FileRun :=
  if (su_call su =? callNumber s)%nat then
    {| chunkBuffer := chunkBuffer (locals s);
       processedCount := processedCount (locals s) + N.of_nat (List.length (su_chunk su)) |}
  else locals s.

(** [resolve(processedCount)] when [su] is the ['end'] handler of the
    current call. *)
Definition resolvedBy (s : Main) (su : Suspended) (run : FileRun) : Phase :=
  if isFinalOf (callNumber s) su then Resolved (processedCount run) else phase s.

(** [main] after [await processAddressFile(...)]: the line of the log, and
    the next file or [process.exit(0)] (the lines that [main] logs outside
    its loop over the files, and its two [end()] calls right before the
    exit, are left out). *)
Definition resume (s : Main) (count : N) : Main :=
  match pendingFiles s with
  | [] => s
  | (name, _) :: rest =>
      let g := log ("  ✓ Processed " ++ String_of_N count ++ " addresses from " ++ name)
                   (globals s) in
      match rest with
      | [] =>
          {| globals := g; pendingFiles := []; callNumber := callNumber s;
             unread := []; locals := locals s; phase := Exited;
             suspended := suspended s |}
      | (next, records) :: _ =>
          {| globals := log ("Processing " ++ next ++ "...") g;
             pendingFiles := rest; callNumber := S (callNumber s);
             unread := records; locals := newCall; phase := Reading;
             suspended := suspended s |}
      end
  end.

(** What runs between two visits of the event loop. *)
Inductive step : Main -> Main -> Prop :=
| step_read (s : Main) (record : CsvRecord.t) (rest : list CsvRecord.t)
    (g : Globals) (run : FileRun) (chunk : option (list Address.t)) :
    (** a ['readable'] handler, new or resumed, reads the next record *)
    phase s = Reading -> unread s = record :: rest ->
    onRecord (globals s) (locals s) record = (g, run, chunk) ->
    step s {| globals := g; pendingFiles := pendingFiles s;
              callNumber := callNumber s; unread := rest; locals := run;
              phase := Reading;
              suspended := (suspended s ++ dispatchedBy (callNumber s) chunk)%list |}
| step_end_empty (s : Main) :
    (** ['end'] with an empty buffer: [resolve(processedCount)] *)
    phase s = Reading -> unread s = [] -> chunkBuffer (locals s) = [] ->
    step s {| globals := globals s; pendingFiles := pendingFiles s;
              callNumber := callNumber s; unread := []; locals := locals s;
              phase := Resolved (processedCount (locals s));
              suspended := suspended s |}
| step_end_chunk (s : Main) :
    (** ['end'] with a remaining buffer: it is handed to the pool *)
    phase s = Reading -> unread s = [] -> chunkBuffer (locals s) <> [] ->
    step s {| globals := globals s; pendingFiles := pendingFiles s;
              callNumber := callNumber s; unread := []; locals := locals s;
              phase := Ending;
              suspended :=
                (suspended s ++
                 [{| su_call := callNumber s; su_final := true;
                     su_chunk := chunkBuffer (locals s);
                     su_stage := AwaitingPool |}])%list |}
| step_fulfilled (s : Main) (before after : list Suspended) (su : Suspended)
    (results : list GeocodeResult.t) :
    (** [pool.run] fulfils: [writeResults(results)] runs, and the handler
        waits for its promise *)
    phase s <> Exited -> suspended s = (before ++ su :: after)%list ->
    su_stage su = AwaitingPool ->
    pool (workerInput (su_chunk su)) = inr results ->
    step s {| globals := writeResults (globals s) results;
              pendingFiles := pendingFiles s; callNumber := callNumber s;
              unread := unread s; locals := locals s; phase := phase s;
              suspended :=
                (before ++ {| su_call := su_call su; su_final := su_final su;
                              su_chunk := su_chunk su;
                              su_stage := AwaitingWrite |} :: after)%list |}
| step_rejected (s : Main) (before after : list Suspended) (su : Suspended)
    (err : string) :
    (** [pool.run] rejects: the [catch] block logs, and the handler goes on
        (the ['end'] handler resolves) *)
    phase s <> Exited -> suspended s = (before ++ su :: after)%list ->
    su_stage su = AwaitingPool ->
    pool (workerInput (su_chunk su)) = inl err ->
    step s {| globals := log (chunkError (su_final su) err) (globals s);
              pendingFiles := pendingFiles s; callNumber := callNumber s;
              unread := unread s; locals := locals s;
              phase := resolvedBy s su (locals s);
              suspended := (before ++ after)%list |}
| step_written (s : Main) (before after : list Suspended) (su : Suspended) :
    (** after [await writeResults(results)]: [processedCount += chunk.length],
        and the handler goes on (the ['end'] handler resolves) *)
    phase s <> Exited -> suspended s = (before ++ su :: after)%list ->
    su_stage su = AwaitingWrite ->
    step s {| globals := globals s; pendingFiles := pendingFiles s;
              callNumber := callNumber s; unread := unread s;
              locals := counted s su;
              phase := resolvedBy s su (counted s su);
              suspended := (before ++ after)%list |}
| step_resume (s : Main) (count : N) :
    (** [main] goes on after [await processAddressFile(...)] *)
    phase s = Resolved count -> step s (resume s count).

(** Any number of steps. *)
Inductive steps : Main -> Main -> Prop :=
| steps_refl (s : Main) : steps s s
| steps_step (s s' t : Main) : step s s' -> steps s' t -> steps s t.

(** [main] at its loop over the address files: without files it exits at
    once; otherwise the first output file is opened and the first
    [processAddressFile] call creates its parser. *)
Definition start (addressFiles : list (string * list CsvRecord.t)) : Main :=
  match addressFiles with
  | [] =>
      {| globals := initialGlobals; pendingFiles := []; callNumber := 0;
         unread := []; locals := newCall; phase := Exited; suspended := [] |}
  | (name, records) :: _ =>
      {| globals := log ("Processing " ++ name ++ "...")
                        (openNewOutputFile initialGlobals);
         pendingFiles := addressFiles; callNumber := 0; unread := records;
         locals := newCall; phase := Reading; suspended := [] |}
  end.

(** The states that a run of [main] over the address files passes through. *)
Definition runs (addressFiles : list (string * list CsvRecord.t)) (s : Main) : Prop :=
  steps (start addressFiles) s.

(** *** The run in which every chunk settles at once

    One of the runs: every call of [pool.run] settles, and the handler that
    awaited it goes on, before anything else happens.  It is the only run
    when no file holds CHUNK_SIZE valid rows. *)

(** [try { results = await pool.run(...); await writeResults(results);
    processedCount += chunk.length } catch (error) { log(...) }] without
    anything in between. *)
Definition chunkInTurn (final : bool) (chunk : list Address.t) (g : Globals)
    (processedCount : N) : Globals * N :=
  match pool (workerInput chunk) with
  | inr results =>
      (writeResults g results, (processedCount + N.of_nat (List.length chunk))%N)
  | inl err => (log (chunkError final err) g, processedCount)
  end.

Definition recordInTurn (st : Globals * FileRun) (record : CsvRecord.t)
  : Globals * FileRun :=
  match onRecord (fst st) (snd st) record with
  | (g, run, Some chunk) =>
      let (g', n) := chunkInTurn false chunk g (processedCount run) in
      (g', {| chunkBuffer := chunkBuffer run; processedCount := n |})
  | (g, run, None) => (g, run)
  end.

Definition endInTurn (st : Globals * FileRun) : Globals * N :=
  let (g, run) := st in
  match chunkBuffer run with
  | [] => (g, processedCount run)
  | _ :: _ => chunkInTurn true (chunkBuffer run) g (processedCount run)
  end.

(** One [processAddressFile] call: the globals afterwards and the count it
    resolves to. *)
Definition fileInTurn (records : list CsvRecord.t) (g : Globals) : Globals * N :=
  endInTurn (fold_left recordInTurn records (g, newCall)).

Definition filesInTurn (addressFiles : list (string * list CsvRecord.t))
    (g : Globals) : Globals :=
  fold_left
    (fun g file =>
       let (g', count) :=
         fileInTurn (snd file) (log ("Processing " ++ fst file ++ "...") g) in
       log ("  ✓ Processed " ++ String_of_N count ++ " addresses from " ++ fst file) g')
    addressFiles g.

(** The module-level variables at the exit of that run. *)
Definition runInTurn (addressFiles : list (string * list CsvRecord.t)) : Globals :=
  match addressFiles with
  | [] => initialGlobals
  | _ :: _ => filesInTurn addressFiles (openNewOutputFile initialGlobals)
  end.

End Dispatcher.

(** The pool when every worker call completes: it runs [processAddresses]. *)
Definition workerPool {E : Externals} : Pool :=
  fun input => inr (processAddresses input).

(* ------------------------------------------------------------------ *)
(** ** Order on numbers *)

Lemma Qltb_false_iff (a b : Q) : Qltb a b = false <-> (b <= a)%Q.
Proof.
  unfold Qltb. rewrite negb_false_iff. apply Qle_bool_iff.
Qed.

Lemma Qltb_true_iff (a b : Q) : Qltb a b = true <-> (a < b)%Q.
Proof.
  unfold Qltb. rewrite negb_true_iff. split.
  - intros H. apply Qnot_le_lt. intros Hle. apply Qle_bool_iff in Hle. congruence.
  - intros H. destruct (Qle_bool b a) eqn:Hb; [|reflexivity].
    apply Qle_bool_iff in Hb. exfalso. eapply Qlt_not_le; eassumption.
Qed.

Lemma le_numeric (a b : number) : JS.le a b = true -> isNaN a = false /\ isNaN b = false.
Proof. destruct a, b; cbn; intros H; try discriminate; auto. Qed.

Lemma le_refl (a : number) : isNaN a = false -> JS.le a a = true.
Proof.
  destruct a; cbn; try discriminate; auto.
  intros _. apply negb_true_iff, Qltb_false_iff, Qle_refl.
Qed.

Lemma le_trans (a b c : number) :
  JS.le a b = true -> JS.le b c = true -> JS.le a c = true.
Proof.
  destruct a, b, c; cbn; intros H1 H2; try discriminate; auto.
  apply negb_true_iff, Qltb_false_iff in H1, H2.
  apply negb_true_iff, Qltb_false_iff. eapply Qle_trans; eassumption.
Qed.

Lemma le_not_lt (a b : number) : JS.le a b = true -> JS.lt b a = false.
Proof.
  destruct a, b; cbn; intros H; try discriminate; auto.
  now apply negb_true_iff in H.
Qed.

Lemma le_not_gt (a b : number) : JS.le a b = true -> JS.gt a b = false.
Proof. apply le_not_lt. Qed.

Lemma lt_le_total (a b : number) :
  isNaN a = false -> isNaN b = false -> JS.lt b a = false -> JS.le a b = true.
Proof.
  destruct a, b; cbn; intros Ha Hb H; try discriminate; auto.
  now rewrite H.
Qed.

Lemma lt_le_weak (a b : number) : JS.lt a b = true -> JS.le a b = true.
Proof.
  destruct a, b; cbn; intros H; try discriminate; auto.
  apply Qltb_true_iff in H. apply negb_true_iff, Qltb_false_iff.
  now apply Qlt_le_weak.
Qed.

Lemma Math_min_numeric (a b : number) :
  isNaN a = false -> isNaN b = false -> isNaN (Math_min a b) = false.
Proof.
  intros Ha Hb. unfold Math_min. rewrite Ha, Hb. cbn [orb].
  now destruct (JS.lt b a).
Qed.

Lemma Math_max_numeric (a b : number) :
  isNaN a = false -> isNaN b = false -> isNaN (Math_max a b) = false.
Proof.
  intros Ha Hb. unfold Math_max. rewrite Ha, Hb. cbn [orb].
  now destruct (JS.lt a b).
Qed.

Lemma Math_min_le (a b : number) :
  isNaN a = false -> isNaN b = false ->
  JS.le (Math_min a b) a = true /\ JS.le (Math_min a b) b = true.
Proof.
  intros Ha Hb. unfold Math_min. rewrite Ha, Hb. cbn [orb].
  destruct (JS.lt b a) eqn:Hlt.
  - split; [now apply lt_le_weak | now apply le_refl].
  - split; [now apply le_refl | now apply lt_le_total].
Qed.

Lemma Math_max_ge (a b : number) :
  isNaN a = false -> isNaN b = false ->
  JS.le a (Math_max a b) = true /\ JS.le b (Math_max a b) = true.
Proof.
  intros Ha Hb. unfold Math_max. rewrite Ha, Hb. cbn [orb].
  destruct (JS.lt a b) eqn:Hlt.
  - split; [now apply lt_le_weak | now apply le_refl].
  - split; [now apply le_refl | now apply lt_le_total].
Qed.

(* ------------------------------------------------------------------ *)
(** ** Reference implementations of the third-party interface

    They make the model executable on concrete inputs: a linear scan in
    insertion order for the R-tree, the even-odd crossing test of turf over
    exact rationals, and a parser for plain decimal literals. *)

Module Reference.

Fixpoint digitsValue (cs : list ascii) (acc : N) : option N :=
  match cs with
  | [] => Some acc
  | c :: rest =>
      if is_digit c then digitsValue rest (acc * 10 + (N_of_ascii c - 48))%N
      else None
  end.

Fixpoint splitAtDot (cs : list ascii) : list ascii * option (list ascii) :=
  match cs with
  | [] => ([], None)
  | c :: rest =>
      if Ascii.eqb c "."%char then ([], Some rest)
      else let (a, b) := splitAtDot rest in (c :: a, b)
  end.

Definition pow10 (n : nat) : positive := Pos.pow 10 (Pos.of_nat n).

(** [sign? digits* (. digits* )?] with at least one digit; NaN otherwise. *)
Definition parseDecimal (s : string) : number :=
  let cs := list_ascii_of_string s in
  let '(negative, cs) :=
    match cs with
    | c :: rest =>
        if Ascii.eqb c "-"%char then (true, rest)
        else if Ascii.eqb c "+"%char then (false, rest)
        else (false, cs)
    | [] => (false, cs)
    end in
  let (ip, fp) := splitAtDot cs in
  let fp := match fp with Some f => f | None => [] end in
  match (List.length ip + List.length fp)%nat with
  | O => NaN
  | _ =>
      match digitsValue (ip ++ fp)%list 0 with
      | None => NaN
      | Some v =>
          let q :=
            match fp with
            | [] => inject_Z (Z.of_N v)
            | _ :: _ => Qmake (Z.of_N v) (pow10 (List.length fp))
            end in
          Finite (if negative then Qopp q else q)
      end
  end.

Fixpoint traverse {A B : Type} (f : A -> option B) (l : list A) : option (list B) :=
  match l with
  | [] => Some []
  | a :: rest =>
      match f a, traverse f rest with
      | Some b, Some bs => Some (b :: bs)
      | _, _ => None
      end
  end.

Definition positionOf (c : coords) : option (Q * Q) :=
  match c with
  | Position (Finite x) (Finite y) => Some (x, y)
  | _ => None
  end.

Definition ringOf (c : coords) : option (list (Q * Q)) :=
  match c with
  | Nested ps => traverse positionOf ps
  | Position _ _ => None
  end.

Definition polygonOf (c : coords) : option (list (list (Q * Q))) :=
  match c with
  | Nested rs => traverse ringOf rs
  | Position _ _ => None
  end.

Definition multiPolygonOf (c : coords) : option (list (list (list (Q * Q)))) :=
  match c with
  | Nested ps => traverse polygonOf ps
  | Position _ _ => None
  end.

(** The pairs (vertex i, vertex j) that turf's [inRing] visits, once a
    closing vertex equal to the first one is dropped. *)
Definition ringEdges (ring : list (Q * Q)) : list ((Q * Q) * (Q * Q)) :=
  match ring with
  | [] => []
  | p0 :: _ =>
      let pn := last ring p0 in
      let open :=
        if Qeq_bool (fst p0) (fst pn) && Qeq_bool (snd p0) (snd pn)
        then removelast ring else ring in
      match open with
      | [] => []
      | q0 :: _ => combine open (last open q0 :: removelast open)
      end
  end.

Fixpoint inRingLoop (px py : Q) (ignoreBoundary : bool)
    (edges : list ((Q * Q) * (Q * Q))) (isInside : bool) : bool :=
  match edges with
  | [] => isInside
  | ((xi, yi), (xj, yj)) :: rest =>
      let onBoundary :=
        Qeq_bool (py * (xi - xj) + yi * (xj - px) + yj * (px - xi)) 0 &&
        Qle_bool ((xi - px) * (xj - px)) 0 &&
        Qle_bool ((yi - py) * (yj - py)) 0 in
      if onBoundary then negb ignoreBoundary
      else
        let intersect :=
          negb (Bool.eqb (Qltb py yi) (Qltb py yj)) &&
          Qltb px ((xj - xi) * (py - yi) / (yj - yi) + xi) in
        inRingLoop px py ignoreBoundary rest
          (if intersect then negb isInside else isInside)
  end.

Definition inRing (px py : Q) (ring : list (Q * Q)) (ignoreBoundary : bool) : bool :=
  inRingLoop px py ignoreBoundary (ringEdges ring) false.

Definition inPolygon (px py : Q) (poly : list (list (Q * Q))) : bool :=
  match poly with
  | [] => false
  | outer :: holes =>
      inRing px py outer false &&
      negb (existsb (fun hole => inRing px py hole true) holes)
  end.

Definition pointInPolygon (pt : number * number) (g : GeoJSONGeometry)
  : string + bool :=
  match pt with
  | (Finite px, Finite py) =>
      match type g with
      | Polygon =>
          match polygonOf (coordinates g) with
          | Some poly => inr (inPolygon px py poly)
          | None => inl "invalid polygon coordinates"
          end
      | MultiPolygon =>
          match multiPolygonOf (coordinates g) with
          | Some polys => inr (existsb (inPolygon px py) polys)
          | None => inl "invalid polygon coordinates"
          end
      end
  | _ => inl "coordinates must contain numbers"
  end.

Definition makePoint (c : number * number) : string + number * number :=
  if isNaN (fst c) || isNaN (snd c) then inl "coordinates must contain numbers"
  else inr c.

Definition search (t : list RBushItem) (q : SearchBox) : list RBushItem :=
  filter (intersects q) t.

Lemma makePoint_numeric (lon lat : number) :
  isNaN lon = false -> isNaN lat = false -> makePoint (lon, lat) = inr (lon, lat).
Proof.
  intros Hlon Hlat. unfold makePoint. cbn [fst snd]. now rewrite Hlon, Hlat.
Qed.

Lemma search_sound (its t : list RBushItem) (q : SearchBox) (it : RBushItem) :
  @inr string _ its = inr t -> In it (search t q) ->
  In it its /\ intersects q it = true.
Proof.
  intros Heq Hin. injection Heq as <-. now apply filter_In in Hin.
Qed.

Lemma search_complete (its t : list RBushItem) (q : SearchBox) (it : RBushItem) :
  @inr string _ its = inr t -> Forall box_is_numeric its ->
  In it its -> intersects q it = true -> In it (search t q).
Proof.
  intros Heq _ Hin Hq. injection Heq as <-. apply filter_In. now split.
Qed.












End Reference.

#[export] Instance referenceExternals : Externals := {|
  parseFloat := Reference.parseDecimal;
  RBush := list RBushItem;
  rbush_load := fun its => inr its;
  rbush_search := Reference.search;
  point := Reference.makePoint;
  booleanPointInPolygon := Reference.pointInPolygon;
  point_numeric := Reference.makePoint_numeric;
  rbush_search_sound := Reference.search_sound;
  rbush_search_complete := Reference.search_complete
|}.


Arguments getOutputFilePath : simpl never.
Arguments String_of_N : simpl never.
Arguments padStart : simpl never.
Arguments OUTPUT_HEADER : simpl never.
Arguments UNMATCHED_HEADER : simpl never.
Arguments newline : simpl never.
Arguments ROWS_PER_FILE : simpl never.
Arguments CHUNK_SIZE : simpl never.

(* ------------------------------------------------------------------ *)
(** ** Notions used in the statements *)

(** The data rows of an output partition: every write but the header. *)
Definition dataRows (ws : WriteStream) : N :=
  N.of_nat (List.length (ws_chunks ws)) - 1.

(** The states of the module-level variables during a run of [main]: the
    first output file is open, and from there results are written, invalid
    rows are recorded and lines are logged. *)
Inductive reachable : Globals -> Prop :=
| reachable_start : reachable (openNewOutputFile initialGlobals)
| reachable_writeResults g results :
    reachable g -> reachable (writeResults g results)
| reachable_recordInvalid g record :
    reachable g -> reachable (recordInvalid g record)
| reachable_log g message :
    reachable g -> reachable (log message g).

(** Between [g] and [g'] no data row went to an output partition: a stream of
    [g'] holds what it held in [g], or it is new and holds the header only. *)
Definition no_row_written (g g' : Globals) : Prop :=
  forall k ws',
    nth_error (openedStreams g') k = Some ws' ->
    (exists ws, nth_error (openedStreams g) k = Some ws /\
                ws_chunks ws' = ws_chunks ws) \/
    ws_chunks ws' = [OUTPUT_HEADER].

(** What holds of the sink in every reachable state. *)
Record sink_inv (g : Globals) : Prop := {
  inv_current : outputFile g = Some (Nat.pred (List.length (openedStreams g)));
  inv_nonempty : openedStreams g <> [];
  inv_part : currentOutputPart g = N.of_nat (List.length (openedStreams g));
  inv_paths :
    forall k ws, nth_error (openedStreams g) k = Some ws ->
                 ws_path ws = getOutputFilePath (N.of_nat (S k));
  inv_ended :
    forall k ws, nth_error (openedStreams g) k = Some ws ->
                 ws_ended ws = negb (S k =? List.length (openedStreams g))%nat;
  inv_count :
    forall ws, nth_error (openedStreams g) (Nat.pred (List.length (openedStreams g))) = Some ws ->
               (dataRows ws <= outputRowCount g)%N;
  inv_cap :
    forall ws, In ws (openedStreams g) -> (dataRows ws <= ROWS_PER_FILE)%N;
  inv_stats :
    totalProcessed (stats g) = (totalMatched (stats g) + totalUnmatched (stats g))%N
}.

(** A sink whose first partition is the current one and holds [m] copies of
    [row] after its header. *)
Definition firstPartitionHolds (row : string) (m : nat) (g : Globals) : Prop :=
  outputFile g = Some 0%nat /\
  openedStreams g =
    [{| ws_path := getOutputFilePath 1;
        ws_chunks := (repeat row m ++ [OUTPUT_HEADER])%list;
        ws_ended := false |}] /\
  outputRowCount g = N.of_nat m /\
  currentOutputPart g = 1%N.

Arguments inv_current {g} _.
Arguments inv_nonempty {g} _ _.
Arguments inv_part {g} _.
Arguments inv_paths {g} _ {k ws} _.
Arguments inv_ended {g} _ {k ws} _.
Arguments inv_count {g} _ {ws} _.
Arguments inv_cap {g} _ {ws} _.
Arguments inv_stats {g} _.

(** The rows of a file that the dispatcher rejects before dispatch. *)
Definition invalidRecord {E : Externals} (record : CsvRecord.t) : bool :=
  invalidCoordinates (parseFloat (CsvRecord.latitude record))
                     (parseFloat (CsvRecord.longitude record)).

Definition countInvalid {E : Externals} (addressFiles : list (string * list CsvRecord.t)) : N :=
  N.of_nat (List.length (filter invalidRecord (flat_map snd addressFiles))).

(** Every coordinate of a geometry is a number. *)
Definition numericGeometry (g : GeoJSONGeometry) : Prop :=
  Forall (fun c => isNaN (fst c) = false /\ isNaN (snd c) = false)
         (extractAllCoordinates g).

(** Every loaded identifier passed the format test. *)
Definition validTracts (ts : list CensusTract) : Prop :=
  Forall (fun t => geoid_re_test (geoid t) = true) ts.

(** Two loader states with the same tracts and the same bounding box. *)
Definition sameLoad (a b : LoadState) : Prop :=
  ls_tracts a = ls_tracts b /\ ls_bbox a = ls_bbox b.

Definition numericPair (c : number * number) : Prop :=
  isNaN (fst c) = false /\ isNaN (snd c) = false.

Definition numericBounds (b : Bounds) : Prop :=
  let '(b0, b1, b2, b3) := b in
  isNaN b0 = false /\ isNaN b1 = false /\ isNaN b2 = false /\ isNaN b3 = false.

(** The box [b] contains the coordinate pair [c]. *)
Definition covers (b : Bounds) (c : number * number) : Prop :=
  let '(b0, b1, b2, b3) := b in
  JS.le b0 (fst c) = true /\ JS.le b1 (snd c) = true /\
  JS.le (fst c) b2 = true /\ JS.le (snd c) b3 = true.

(** The box [b'] contains the box [b]. *)
Definition widens (b b' : Bounds) : Prop :=
  let '(b0, b1, b2, b3) := b in
  let '(c0, c1, c2, c3) := b' in
  JS.le c0 b0 = true /\ JS.le c1 b1 = true /\
  JS.le b2 c2 = true /\ JS.le b3 c3 = true.

(** The point lies within the extent of the coordinate pairs [cs]. *)
Definition withinExtent (cs : list (number * number)) (lon lat : number) : Prop :=
  (exists c, In c cs /\ JS.le (fst c) lon = true) /\
  (exists c, In c cs /\ JS.le lon (fst c) = true) /\
  (exists c, In c cs /\ JS.le (snd c) lat = true) /\
  (exists c, In c cs /\ JS.le lat (snd c) = true).

Definition numericTracts (ts : list CensusTract) : Prop :=
  Forall (fun t => numericGeometry (geometry t)) ts.

(** The global bounding box and the loaded tracts agree. *)
Definition boxCoversTracts (st : LoadState) : Prop :=
  numericBounds (ls_bbox st) /\
  forall t c, In t (ls_tracts st) -> In c (extractAllCoordinates (geometry t)) ->
              covers (ls_bbox st) c.

(* ------------------------------------------------------------------ *)
(** ** Concrete inputs *)

Module Example.

Definition ring (l : list (Q * Q)) : coords :=
  Nested (map (fun p => Position (num (fst p)) (num (snd p))) l).

(** The unit square of the scenario. *)
Definition square : GeoJSONGeometry :=
  {| type := Polygon;
     coordinates := Nested [ring [(0, 0); (0, 1); (1, 1); (1, 0); (0, 0)]%Q] |}.

(** A polygon without rings. *)
Definition noRings : GeoJSONGeometry :=
  {| type := Polygon; coordinates := Nested [] |}.

Definition feature (geoid : string) (g : GeoJSONGeometry) : ReadResult :=
  ReadValue {| Feature.properties := [("STATEFP", "00"); ("GEOID", geoid)];
               Feature.geometry := g |}.


Definition stateDir (n : string) (reads : list ReadResult) : Dirent :=
  {| name := "state_" ++ n; isDirectory := true;
     shpFile := Some ("tl_2025_" ++ n ++ "_tract.shp"); source := Opened reads |}.

Definition squareIndex : SpatialIndex :=
  {| index := [{| minX := num 0; minY := num 0; maxX := num 1; maxY := num 1; id := 0 |}];
     tracts := [{| geoid := "00000000001"; geometry := square |}];
     items := [{| minX := num 0; minY := num 0; maxX := num 1; maxY := num 1; id := 0 |}];
     bbox := (num 0, num 0, num 1, num 1) |}.

Definition csv (i lat lon : string) : CsvRecord.t :=
  {| CsvRecord.address_id := i; CsvRecord.latitude := lat; CsvRecord.longitude := lon |}.

Definition matched (i : string) : GeocodeResult.t :=
  {| GeocodeResult.address_id := i;
     GeocodeResult.census_tract_geoid := Some "00000000001";
     GeocodeResult.error := None |}.

(** A plain no-match: no geoid and no [error] property. *)
Definition noMatch (i : string) : GeocodeResult.t :=
  {| GeocodeResult.address_id := i;
     GeocodeResult.census_tract_geoid := None;
     GeocodeResult.error := None |}.

(** A pool that rejects the chunks starting with address "1" and runs the
    worker on the others. *)
Definition flakyPool : Pool :=
  fun input =>
    match addresses input with
    | a :: _ =>
        if Address.address_id a =? "1" then inl "Error: worker terminated"
        else workerPool input
    | [] => workerPool input
    end.

Definition squareData : DataDir :=
  Entries [stateDir "00" [feature "00000000001" square]].


(** One source: a polygon without rings, then one with a malformed
    identifier, then the square. *)
Definition noRingsData : DataDir :=
  Entries [stateDir "00" [feature "00000000002" noRings; feature "123" square;
                          feature "00000000001" square]].






(** The sink after ROWS_PER_FILE matched results: part 1 is full. *)
Definition fullPartition : Globals :=
  writeResults (openNewOutputFile initialGlobals)
    (repeat (matched "7") (N.to_nat ROWS_PER_FILE)).

(** A file whose only row has an unparseable latitude. *)
Definition oneInvalidRow : list (string * list CsvRecord.t) :=
  [("addresses_part_001.csv", [csv "3" "abc" "0.5"])].

(** Two files of one chunk each, every row inside the square. *)
Definition twoChunks : list (string * list CsvRecord.t) :=
  [("addresses_part_001.csv", [csv "1" "0.5" "0.5"; csv "5" "0.25" "0.75"]);
   ("addresses_part_002.csv", [csv "2" "0.5" "0.5"])].

(** An address with numeric coordinates outside the valid ranges. *)
Definition farAway : Address.t :=
  {| Address.address_id := "9"; Address.latitude := num 91;
     Address.longitude := num 0 |}.

Definition farAwayInput : WorkerInput :=
  {| addresses := [farAway];
     spatialIndex := {| data_items := items squareIndex;
                        data_tracts := tracts squareIndex;
                        data_bbox := bbox squareIndex |} |}.

End Example.

(* ------------------------------------------------------------------ *)
(** ** Further notions *)

(** The features a tract of the loader can come from. *)
Definition fromFeature (t : CensusTract) (f : Feature.t) : Prop :=
  geometry t = Feature.geometry f /\
  exists field, In field GEOID_FIELDS /\
                geoid t = propertyString (Feature.properties f) field.

Definition fromDirectory (t : CensusTract) (dir : Dirent) : Prop :=
  isDirectory dir = true /\ prefix "state_" (name dir) = true /\
  shpFile dir <> None /\
  exists reads f, source dir = Opened reads /\ In (ReadValue f) reads /\
                  fromFeature t f.

(** The data rows of a partition: its writes after the header. *)
Definition partitionRows (ws : WriteStream) : list string := tl (written ws).

(** The data rows of all partitions, in the order of the part numbers. *)
Definition outputRows (g : Globals) : list string :=
  flat_map partitionRows (openedStreams g).

(** Every output stream was written to: its header is there. *)
Definition headed (l : list WriteStream) : Prop :=
  Forall (fun ws => ws_chunks ws <> []) l.

(** The results that [writeResults] sends to the output partitions and to the
    error channel. *)
Definition isMatched (r : GeocodeResult.t) : bool :=
  truthy (GeocodeResult.census_tract_geoid r).

Definition isErrored (r : GeocodeResult.t) : bool :=
  negb (truthy (GeocodeResult.census_tract_geoid r)) &&
  truthy (GeocodeResult.error r).

(** The number a string of digits stands for, leading zeros allowed. *)
Definition digitsToN (s : string) : option N :=
  option_map N.of_uint (NilEmpty.uint_of_string s).

(** The address that the dispatcher buffers for a row. *)
Definition toAddress {E : Externals} (record : CsvRecord.t) : Address.t :=
  {| Address.address_id := CsvRecord.address_id record;
     Address.latitude := parseFloat (CsvRecord.latitude record);
     Address.longitude := parseFloat (CsvRecord.longitude record) |}.

(** The addresses of the rows that pass the validation, in order. *)
Definition dispatched {E : Externals} (records : list CsvRecord.t) : list Address.t :=
  map toAddress (filter (fun r => negb (invalidRecord r)) records).

Definition validAddress (a : Address.t) : Prop :=
  invalidCoordinates (Address.latitude a) (Address.longitude a) = false.

(** The inputs that the dispatcher can send to the pool: the index data of
    the loaded index with between one and CHUNK_SIZE validated addresses. *)
Definition dispatchable {E : Externals} (loadedIndex : SpatialIndex)
    (input : WorkerInput) : Prop :=
  spatialIndex input = indexData loadedIndex /\
  addresses input <> [] /\
  (N.of_nat (List.length (addresses input)) <= CHUNK_SIZE)%N /\
  Forall validAddress (addresses input).

(** A pool whose every call completes with one result for each address. *)
Definition answersAll (pool : Pool) : Prop :=
  forall input, exists rs,
    pool input = inr rs /\ List.length rs = List.length (addresses input).


(** The buffer between two chunks: validated addresses, fewer than
    CHUNK_SIZE. *)
Definition bufferOk (fr : FileRun) : Prop :=
  (N.of_nat (List.length (chunkBuffer fr)) < CHUNK_SIZE)%N /\
  Forall validAddress (chunkBuffer fr).

(** The rows that the matched results of the worker give. *)
Definition matchedRows {E : Externals} (idx : SpatialIndex)
    (addrs : list Address.t) : list string :=
  map outputRow (filter isMatched (map (processAddress idx) addrs)).

(** How many elements of a list pass a test. *)
Definition countIf {A : Type} (p : A -> bool) (l : list A) : N :=
  N.of_nat (List.length (filter p l)).

(** *** The states of the dispatcher *)

(** The records that no parser has yielded yet: those of the current file and
    all records of the files after it. *)
Definition unreadAll (s : Main) : list CsvRecord.t :=
  (unread s ++ flat_map snd (tl (pendingFiles s)))%list.

(** The suspended ['end'] handlers of the current call. *)
Definition finals (s : Main) : list Suspended :=
  filter (isFinalOf (callNumber s)) (suspended s).

(** The shape of every state of a run: once ['end'] was emitted nothing is
    left to read; after the exit no file is pending; a suspended handler
    belongs to the current call or to an earlier one; and the ['end'] handler
    of the current call is suspended exactly while that call is ending. *)
Definition wellFormed (s : Main) : Prop :=
  (phase s <> Reading -> unread s = []) /\
  (phase s = Exited -> pendingFiles s = []) /\
  Forall (fun su => (su_call su <= callNumber s)%nat) (suspended s) /\
  List.length (finals s) = match phase s with Ending => 1%nat | _ => 0%nat end.

(** The rows of a list of records that the dispatcher rejects. *)
Definition invalidAmong {E : Externals} (records : list CsvRecord.t) : N :=
  N.of_nat (List.length (filter invalidRecord records)).

(** A file with fewer than CHUNK_SIZE rows that pass the validation: its
    only chunk is the one of the ['end'] handler. *)
Definition smallFile {E : Externals} (records : list CsvRecord.t) : Prop :=
  (N.of_nat (List.length (dispatched records)) < CHUNK_SIZE)%N.

(** The states of a run over small files: a handler is suspended only while
    the current call is ending, and it is the ['end'] handler. *)
Definition inTurnShape {E : Externals} (s : Main) : Prop :=
  match phase s with
  | Reading =>
      suspended s = [] /\
      (N.of_nat (List.length (chunkBuffer (locals s)) +
                 List.length (dispatched (unread s))) < CHUNK_SIZE)%N
  | Ending =>
      exists su, suspended s = [su] /\ isFinalOf (callNumber s) su = true
  | Resolved _ => suspended s = []
  | Exited => suspended s = []
  end /\
  Forall (fun file => smallFile (snd file)) (tl (pendingFiles s)).

(** A chunk that the dispatcher can hand to the pool. *)
Definition chunkOk (chunk : list Address.t) : Prop :=
  chunk <> [] /\ (N.of_nat (List.length chunk) <= CHUNK_SIZE)%N /\
  Forall validAddress chunk.

(** Whether a handler waits for the pool. *)
Definition awaitsPool (su : Suspended) : bool :=
  match su_stage su with AwaitingPool => true | AwaitingWrite => false end.

(** The addresses handed to the pool whose results are not written yet. *)
Definition awaited (s : Main) : list Address.t :=
  flat_map su_chunk (filter awaitsPool (suspended s)).

(** The addresses that wait in [chunkBuffer] for their chunk. *)
Definition buffered (s : Main) : list Address.t :=
  match phase s with
  | Reading => chunkBuffer (locals s)
  | _ => []
  end.



(** The buffer and the chunks of the suspended handlers. *)
Definition chunksOk (s : Main) : Prop :=
  bufferOk (locals s) /\ Forall (fun su => chunkOk (su_chunk su)) (suspended s).

(** The number of rows of a list of records that pass the validation. *)
Definition validRows {E : Externals} (records : list CsvRecord.t) : N :=
  N.of_nat (List.length (dispatched records)).

(** A pool whose calls, when they complete, give one result for each
    address. *)
Definition answersEach (pool : Pool) : Prop :=
  forall input rs,
    pool input = inr rs -> List.length rs = List.length (addresses input).

(** The validated rows that a state of a run accounts for: those counted as
    processed, those handed to the pool and not written yet, those in the
    buffer, and those not read yet. *)
Definition accounted {E : Externals} (s : Main) : N :=
  (totalProcessed (stats (globals s)) + N.of_nat (List.length (awaited s)) +
   N.of_nat (List.length (buffered s)) + validRows (unreadAll s))%N.








(** *** Rectangles *)


(* ------------------------------------------------------------------ *)
(** ** Discovery of the address files ([main] of [index.ts])

    [fs.readdirSync('.').filter(f => /^addresses_part_\d{3}\.csv$|^addresses_gaps\.csv$/.test(f)).sort()] *)

Definition GAPS_FILE : string := "addresses_gaps.csv".

(** The regular expression of the filter. *)
Definition isAddressFile (f : string) : bool :=
  (prefix "addresses_part_" f &&
   (String.length f =? 22)%nat &&
   forallb is_digit (list_ascii_of_string (substring 15 3 f)) &&
   (substring 18 4 f =? ".csv")) ||
  (f =? GAPS_FILE).

(** [Array.prototype.sort()] without comparator orders strings by their code
    units; the names that pass the filter are ASCII. *)
Fixpoint insertSorted (x : string) (l : list string) : list string :=
  match l with
  | [] => [x]
  | h :: t => if String.leb x h then x :: h :: t else h :: insertSorted x t
  end.

Definition sortStrings (l : list string) : list string :=
  fold_right insertSorted [] l.

Definition discoverAddressFiles (names : list string) : list string :=
  sortStrings (filter isAddressFile names).

(* ------------------------------------------------------------------ *)
(** ** The re-check script ([main] of the script for [check_these_again.csv]) *)

Module Recheck.

Record AddressRecord : Type := {
  id : string;
  lat : string;
  long : string
}.

(** The local variables of [main]: the writes to the output stream (the most
    recent first), the three counters, and the processed counts at which a
    progress line was printed (its other fields depend on the clock). *)
Record State : Type := {
  outputStream : list string;
  processed : N;
  matched : N;
  unmatched : N;
  progress : list N
}.

Definition PROGRESS_INTERVAL : N := 50000.

(** [x !== 0]. *)
Definition nonZero (x : number) : bool :=
  match x with
  | Finite q => negb (Qeq_bool q 0)
  | _ => true
  end.

(** [`${id},${tractGeoid}\n`]. *)
Definition row (record : AddressRecord) (tractGeoid : string) : string :=
  id record ++ "," ++ tractGeoid ++ newline.

Definition initial : State :=
  {| outputStream := ["id,census_tract_geoid" ++ newline];
     processed := 0; matched := 0; unmatched := 0; progress := [] |}.

Section Loop.

Context {E : Externals}.
Variable spatialIndex : SpatialIndex.

(** [tractGeoid] and the counters after the [if] of the loop body; the
    message when [findTractForPoint] throws (nothing catches it there). *)
Definition lookup (st : State) (record : AddressRecord) : string + (string * N * N) :=
  let lat := parseFloat (lat record) in
  let lon := parseFloat (long record) in
  if negb (isNaN lat) && negb (isNaN lon) && nonZero lat && nonZero lon then
    match snd (findTractForPoint lat lon spatialIndex) with
    | Returned tract =>
        if truthy tract then
          inr (match tract with Some s => s | None => "" end,
               (matched st + 1)%N, unmatched st)
        else inr ("", matched st, (unmatched st + 1)%N)
    | Thrown msg => inl msg
    end
  else inr ("", matched st, (unmatched st + 1)%N).

(** The body of [for await (const record of parser)]. *)
Definition step (st : State) (record : AddressRecord) : string + State :=
  match lookup st record with
  | inl msg => inl msg
  | inr (tractGeoid, m, u) =>
      let n := (processed st + 1)%N in
      inr {| outputStream :=
               row record tractGeoid :: outputStream st;
             processed := n; matched := m; unmatched := u;
             progress :=
               if (n mod PROGRESS_INTERVAL =? 0)%N then n :: progress st
               else progress st |}
  end.

Fixpoint loop (records : list AddressRecord) (st : State) : string + State :=
  match records with
  | [] => inr st
  | record :: rest =>
      match step st record with
      | inl msg => inl msg
      | inr st' => loop rest st'
      end
  end.

End Loop.

End Recheck.

Arguments Recheck.PROGRESS_INTERVAL : simpl never.

(* ------------------------------------------------------------------ *)
(** ** The single-threaded pipeline

    The same sink without chunks and workers: every record is looked up and
    written as it is parsed. *)

Module Simple.

Definition PROGRESS_INTERVAL : N := 50000.

(** A line of the log.  The progress line and the line that ends a file
    carry figures read off the clock; they are kept by what else they
    report. *)
Inductive LogEntry : Type :=
| Line (message : string)
| Progress (totalProcessed : N)
| FileDone (filename : string) (fileCount : N).

(** A parsed row: the columns [id], [latitude] and [longitude]. *)
Record Row : Type := {
  id : string;
  latitude : string;
  longitude : string
}.

(** The module-level variables. *)
Record Globals : Type := {
  stats : Stats;
  logStream : list LogEntry;
  openedStreams : list WriteStream;
  outputFile : option nat;
  outputRowCount : N;
  currentOutputPart : N;
  unmatchedStream : list string
}.

Definition OUTPUT_HEADER : string := "id,census_tract_geoid" ++ newline.
Definition UNMATCHED_HEADER : string := "address_id" ++ newline.

Definition initialGlobals : Globals :=
  {| stats := {| totalProcessed := 0; totalMatched := 0;
                 totalUnmatched := 0; totalErrors := 0 |};
     logStream := [];
     openedStreams := [];
     outputFile := None;
     outputRowCount := 0;
     currentOutputPart := 1;
     unmatchedStream := [UNMATCHED_HEADER] |}.

Definition log (entry : LogEntry) (g : Globals) : Globals :=
  {| stats := stats g; logStream := entry :: logStream g;
     openedStreams := openedStreams g; outputFile := outputFile g;
     outputRowCount := outputRowCount g;
     currentOutputPart := currentOutputPart g;
     unmatchedStream := unmatchedStream g |}.

Definition partFilename (partNumber : N) : string :=
  "tracts_part_" ++ padStart (String_of_N partNumber) 3 "0" ++ ".csv".

Definition openNewOutputFile (g : Globals) : Globals :=
  let closed :=
    match outputFile g with
    | Some h => endStream h (openedStreams g)
    | None => openedStreams g
    end in
  let filename := partFilename (currentOutputPart g) in
  {| stats := stats g;
     logStream := Line ("📄 Started new output file: " ++ filename) :: logStream g;
     openedStreams :=
       (closed ++ [{| ws_path := OUTPUT_DIR ++ "/" ++ filename;
                      ws_chunks := [OUTPUT_HEADER]; ws_ended := false |}])%list;
     outputFile := Some (List.length closed);
     outputRowCount := 0;
     currentOutputPart := currentOutputPart g + 1;
     unmatchedStream := unmatchedStream g |}.

(** [if (!outputFile || outputRowCount >= ROWS_PER_FILE) openNewOutputFile()]. *)
Definition ensureOpen (g : Globals) : Globals :=
  match outputFile g with
  | None => openNewOutputFile g
  | Some _ =>
      if (ROWS_PER_FILE <=? outputRowCount g)%N then openNewOutputFile g else g
  end.

(** [`${addressId},${geoid}\n`]. *)
Definition outputRow (addressId geoid : string) : string :=
  addressId ++ "," ++ geoid ++ newline.

(** [`${addressId}\n`]. *)
Definition unmatchedRow (addressId : string) : string := addressId ++ newline.

(** The [if (geoid) ... else ...] of [writeResult]. *)
Definition route (addressId : string) (geoid : option string) (g : Globals) : Globals :=
  let st := stats g in
  if truthy geoid then
    {| stats := {| totalProcessed := totalProcessed st;
                   totalMatched := totalMatched st + 1;
                   totalUnmatched := totalUnmatched st;
                   totalErrors := totalErrors st |};
       logStream := logStream g;
       openedStreams :=
         match outputFile g with
         | Some h => writeStream h (outputRow addressId (show geoid)) (openedStreams g)
         | None => openedStreams g
         end;
       outputFile := outputFile g; outputRowCount := outputRowCount g;
       currentOutputPart := currentOutputPart g;
       unmatchedStream := unmatchedStream g |}
  else
    {| stats := {| totalProcessed := totalProcessed st;
                   totalMatched := totalMatched st;
                   totalUnmatched := totalUnmatched st + 1;
                   totalErrors := totalErrors st |};
       logStream := logStream g;
       openedStreams := openedStreams g;
       outputFile := outputFile g; outputRowCount := outputRowCount g;
       currentOutputPart := currentOutputPart g;
       unmatchedStream := unmatchedRow addressId :: unmatchedStream g |}.

(** [outputRowCount++; stats.totalProcessed++] and the progress line. *)
Definition countRow (g : Globals) : Globals :=
  let st := stats g in
  let n := (totalProcessed st + 1)%N in
  {| stats := {| totalProcessed := n;
                 totalMatched := totalMatched st;
                 totalUnmatched := totalUnmatched st;
                 totalErrors := totalErrors st |};
     logStream :=
       if (n mod PROGRESS_INTERVAL =? 0)%N then Progress n :: logStream g
       else logStream g;
     openedStreams := openedStreams g;
     outputFile := outputFile g;
     outputRowCount := outputRowCount g + 1;
     currentOutputPart := currentOutputPart g;
     unmatchedStream := unmatchedStream g |}.

Definition writeResult (addressId : string) (geoid : option string) (g : Globals)
  : Globals :=
  countRow (route addressId geoid (ensureOpen g)).

(** [stats.totalErrors++]. *)
Definition countError (g : Globals) : Globals :=
  let st := stats g in
  {| stats := {| totalProcessed := totalProcessed st;
                 totalMatched := totalMatched st;
                 totalUnmatched := totalUnmatched st;
                 totalErrors := totalErrors st + 1 |};
     logStream := logStream g;
     openedStreams := openedStreams g;
     outputFile := outputFile g;
     outputRowCount := outputRowCount g;
     currentOutputPart := currentOutputPart g;
     unmatchedStream := unmatchedStream g |}.

Section Pipeline.

Context {E : Externals}.
Variable spatialIndex : SpatialIndex.

(** The ['data'] handler with its [try]/[catch]. *)
Definition onData (g : Globals) (record : Row) : Globals :=
  let addressId := id record in
  let lat := parseFloat (latitude record) in
  let lon := parseFloat (longitude record) in
  if isNaN lat || isNaN lon then countError (writeResult addressId None g)
  else
    match snd (findTractForPoint lat lon spatialIndex) with
    | Returned geoid => writeResult addressId geoid g
    | Thrown _ => countError g
    end.

(** [processAddressFile]: the globals afterwards and the count it resolves to. *)
Definition processAddressFile (filename : string) (records : list Row) (g : Globals)
  : Globals * N :=
  let g := log (Line ("📁 Processing: " ++ filename)) g in
  let startCount := totalProcessed (stats g) in
  let g := fold_left onData records g in
  let fileCount := (totalProcessed (stats g) - startCount)%N in
  (log (FileDone filename fileCount) g, fileCount).

(** The loop of [main] over the address files. *)
Definition processFiles (addressFiles : list (string * list Row)) (g : Globals)
  : Globals :=
  fold_left (fun g file => fst (processAddressFile (fst file) (snd file) g))
            addressFiles g.

Definition run (addressFiles : list (string * list Row)) : Globals :=
  processFiles addressFiles initialGlobals.

(** What a row is answered with: the identifier found, if any. *)
Definition answer (record : Row) : option string :=
  let lat := parseFloat (latitude record) in
  let lon := parseFloat (longitude record) in
  if isNaN lat || isNaN lon then None
  else
    match snd (findTractForPoint lat lon spatialIndex) with
    | Returned geoid => if truthy geoid then geoid else None
    | Thrown _ => None
    end.

(** Whether the lookup of a row throws. *)
Definition throws (record : Row) : bool :=
  let lat := parseFloat (latitude record) in
  let lon := parseFloat (longitude record) in
  if isNaN lat || isNaN lon then false
  else
    match snd (findTractForPoint lat lon spatialIndex) with
    | Returned _ => false
    | Thrown _ => true
    end.

Definition unparseable (record : Row) : bool :=
  isNaN (parseFloat (latitude record)) || isNaN (parseFloat (longitude record)).

(** The rows that a list of records puts into the partitions and into the
    file of unmatched addresses. *)
Definition matchedRows (records : list Row) : list string :=
  flat_map (fun r => match answer r with
                     | Some geoid => [outputRow (id r) geoid]
                     | None => []
                     end) records.

Definition unmatchedRows (records : list Row) : list string :=
  flat_map (fun r => match answer r with
                     | Some _ => []
                     | None => if throws r then [] else [unmatchedRow (id r)]
                     end) records.

End Pipeline.

(** The data rows of all partitions, in the order of the part numbers. *)
Definition outputRows (g : Globals) : list string :=
  flat_map partitionRows (openedStreams g).

(** What holds of the module-level variables throughout a run. *)
Record inv (g : Globals) : Prop := {
  inv_part : currentOutputPart g = (N.of_nat (List.length (openedStreams g)) + 1)%N;
  inv_current :
    outputFile g =
      match openedStreams g with
      | [] => None
      | _ :: _ => Some (Nat.pred (List.length (openedStreams g)))
      end;
  inv_headed : headed (openedStreams g);
  inv_paths :
    forall k ws, nth_error (openedStreams g) k = Some ws ->
                 ws_path ws = OUTPUT_DIR ++ "/" ++ partFilename (N.of_nat (S k));
  inv_cap : Forall (fun ws => (dataRows ws <= ROWS_PER_FILE)%N) (openedStreams g);
  inv_count :
    forall ws, nth_error (openedStreams g) (Nat.pred (List.length (openedStreams g))) = Some ws ->
               (dataRows ws <= outputRowCount g)%N;
  inv_stats :
    totalProcessed (stats g) = (totalMatched (stats g) + totalUnmatched (stats g))%N
}.

End Simple.

Arguments Simple.PROGRESS_INTERVAL : simpl never.
Arguments Simple.partFilename : simpl never.
Arguments Simple.OUTPUT_HEADER : simpl never.
Arguments Simple.UNMATCHED_HEADER : simpl never.

(* ------------------------------------------------------------------ *)
(** ** Further concrete inputs *)

Module Sample.
Import Example.

(** A square with a NaN longitude in its second vertex. *)
Definition nanSquare : GeoJSONGeometry :=
  {| type := Polygon;
     coordinates :=
       Nested [Nested [Position (num 0) (num 0); Position NaN (num 1);
                       Position (num 1) (num 1); Position (num 1) (num 0);
                       Position (num 0) (num 0)]] |}.

Definition nanData : DataDir :=
  Entries [stateDir "00" [feature "00000000004" nanSquare]].

(** The index a load returns, or the index of the unit square when it fails. *)
Definition loaded (data : DataDir) : SpatialIndex :=
  match snd (loadCensusTractShapefiles data) with
  | inr idx => idx
  | inl _ => squareIndex
  end.

(** A match, an unparseable latitude and a zero longitude. *)
Definition recheckRows : list Recheck.AddressRecord :=
  [{| Recheck.id := "1"; Recheck.lat := "0.5"; Recheck.long := "0.5" |};
   {| Recheck.id := "2"; Recheck.lat := "abc"; Recheck.long := "0.5" |};
   {| Recheck.id := "3"; Recheck.lat := "0.5"; Recheck.long := "0" |}].

End Sample.

(* ------------------------------------------------------------------ *)
(** * Properties *)

(* ------------------------------------------------------------------ *)
(** ** Part names *)

Lemma append_length (a b : string) :
  String.length (a ++ b) = (String.length a + String.length b)%nat.
Proof. induction a as [|x a IH]; cbn; [reflexivity | now rewrite IH]. Qed.

Lemma append_cancel_r (a b c : string) : a ++ c = b ++ c -> a = b.
Proof.
  revert b. induction a as [|x a IH]; intros [|y b] H; cbn in H.
  - reflexivity.
  - apply (f_equal String.length) in H. cbn in H.
    rewrite append_length in H. lia.
  - apply (f_equal String.length) in H. cbn in H.
    rewrite append_length in H. lia.
  - injection H as -> H. f_equal. now apply IH.
Qed.

Lemma digitsToN_zeros (k : nat) (s : string) :
  digitsToN (repeat_string "0" k ++ s) = digitsToN s.
Proof.
  induction k as [|k IH]; [reflexivity|].
  cbn [repeat_string append]. rewrite <- IH. unfold digitsToN.
  cbn [NilEmpty.uint_of_string].
  now destruct (NilEmpty.uint_of_string (repeat_string "0" k ++ s)).
Qed.

Lemma digitsToN_String_of_N (n : N) : digitsToN (String_of_N n) = Some n.
Proof.
  unfold digitsToN, String_of_N, NilZero.string_of_uint.
  destruct (N.to_uint n) eqn:Hn;
    try (rewrite <- Hn, NilEmpty.usu; cbn [option_map];
         now rewrite DecimalN.Unsigned.of_to).
  destruct n as [|p]; cbn in Hn; [discriminate|].
  pose proof (DecimalPos.Unsigned.to_uint_nonnil p). congruence.
Qed.

Lemma getOutputFilePath_inj (m n : N) :
  getOutputFilePath m = getOutputFilePath n -> m = n.
Proof.
  unfold getOutputFilePath, OUTPUT_DIR. intros H.
  cbn [append] in H.
  repeat match type of H with String _ _ = String _ _ => injection H as H end.
  apply append_cancel_r in H. unfold padStart in H.
  apply (f_equal digitsToN) in H.
  rewrite !digitsToN_zeros, !digitsToN_String_of_N in H.
  now injection H.
Qed.

Set Implicit Arguments.

(** ** Streams *)

Lemma endStream_length (h : nat) (l : list WriteStream) :
  List.length (endStream h l) = List.length l.
Proof.
  revert h. induction l as [|ws l IH]; intros [|h]; cbn; auto.
Qed.

Lemma writeStream_length (h : nat) (chunk : string) (l : list WriteStream) :
  List.length (writeStream h chunk l) = List.length l.
Proof.
  revert h. induction l as [|ws l IH]; intros [|h]; cbn; auto.
Qed.

Lemma endStream_nth_same (h : nat) (l : list WriteStream) (ws : WriteStream) :
  nth_error l h = Some ws ->
  nth_error (endStream h l) h =
    Some {| ws_path := ws_path ws; ws_chunks := ws_chunks ws; ws_ended := true |}.
Proof.
  revert h. induction l as [|w l IH]; intros [|h]; cbn; try discriminate; auto.
  now intros [= ->].
Qed.

Lemma endStream_nth_other (h k : nat) (l : list WriteStream) :
  k <> h -> nth_error (endStream h l) k = nth_error l k.
Proof.
  revert h k. induction l as [|w l IH]; intros [|h] [|k] Hk; cbn; auto.
  - contradiction.
Qed.

Lemma writeStream_nth_same (h : nat) (chunk : string) (l : list WriteStream)
    (ws : WriteStream) :
  nth_error l h = Some ws ->
  nth_error (writeStream h chunk l) h =
    Some {| ws_path := ws_path ws; ws_chunks := chunk :: ws_chunks ws;
            ws_ended := ws_ended ws |}.
Proof.
  revert h. induction l as [|w l IH]; intros [|h]; cbn; try discriminate; auto.
  now intros [= ->].
Qed.

Lemma writeStream_nth_other (h k : nat) (chunk : string) (l : list WriteStream) :
  k <> h -> nth_error (writeStream h chunk l) k = nth_error l k.
Proof.
  revert h k. induction l as [|w l IH]; intros [|h] [|k] Hk; cbn; auto.
  - contradiction.
Qed.

(** A stream of [endStream h l] holds what the stream of [l] at its place held. *)
Lemma endStream_chunks (h k : nat) (l : list WriteStream) (ws' : WriteStream) :
  nth_error (endStream h l) k = Some ws' ->
  exists ws, nth_error l k = Some ws /\ ws_chunks ws' = ws_chunks ws /\
             ws_path ws' = ws_path ws.
Proof.
  destruct (Nat.eq_dec k h) as [->|Hk].
  - destruct (nth_error l h) as [ws|] eqn:Hl.
    + erewrite endStream_nth_same by eassumption. intros [= <-]. now exists ws.
    + intros H. apply nth_error_None in Hl.
      assert (nth_error (endStream h l) h = None) as Hn
          by (apply nth_error_None; now rewrite endStream_length).
      congruence.
  - rewrite endStream_nth_other by assumption. intros H. now exists ws'.
Qed.

Lemma dataRows_write (ws : WriteStream) (chunk : string) :
  (dataRows {| ws_path := ws_path ws; ws_chunks := chunk :: ws_chunks ws;
               ws_ended := ws_ended ws |} <= dataRows ws + 1)%N.
Proof.
  unfold dataRows. cbn [ws_chunks List.length]. lia.
Qed.

(* ------------------------------------------------------------------ *)
(** ** The sink invariant *)

Lemma sink_inv_start : sink_inv (openNewOutputFile initialGlobals).
Proof.
  constructor; cbn.
  - reflexivity.
  - discriminate.
  - reflexivity.
  - intros [|[|k]] ws; cbn; try discriminate. now intros [= <-].
  - intros [|[|k]] ws; cbn; try discriminate. now intros [= <-].
  - intros ws [= <-]. now vm_compute.
  - intros ws [<-|[]]. now vm_compute.
  - reflexivity.
Qed.

Lemma sink_inv_log (message : string) (g : Globals) :
  sink_inv g -> sink_inv (log message g).
Proof. intros []; constructor; assumption. Qed.

Lemma sink_inv_setStats (st : Stats) (g : Globals) :
  totalProcessed st = (totalMatched st + totalUnmatched st)%N ->
  sink_inv g -> sink_inv (setStats st g).
Proof. intros Hst []; constructor; assumption. Qed.

Lemma sink_inv_writeUnmatched (chunk : string) (g : Globals) :
  sink_inv g -> sink_inv (writeUnmatched chunk g).
Proof. intros []; constructor; assumption. Qed.

Lemma sink_inv_recordInvalid (g : Globals) (record : CsvRecord.t) :
  sink_inv g -> sink_inv (recordInvalid g record).
Proof.
  intros H. unfold recordInvalid.
  apply sink_inv_writeUnmatched, sink_inv_setStats; [cbn; apply H | exact H].
Qed.

Ltac sink_fields :=
  cbn [stats logStream openedStreams outputFile outputFilePath outputRowCount
       currentOutputPart unmatchedStream totalProcessed totalMatched
       totalUnmatched totalErrors setStats writeOutput writeUnmatched countRow
       nextPart log openNewOutputFile] in *.

Lemma last_stream_index (l : list WriteStream) :
  l <> [] -> S (Nat.pred (List.length l)) = List.length l.
Proof. destruct l; [congruence | reflexivity]. Qed.

(** Opening the next part keeps the invariant and starts an empty partition. *)
Lemma sink_inv_open_next (g : Globals) :
  sink_inv g ->
  sink_inv (openNewOutputFile (nextPart g)) /\
  outputRowCount (openNewOutputFile (nextPart g)) = 0%N.
Proof.
  intros [Hcur Hne Hpart Hpaths Hended Hcount Hcap Hstats].
  split; [|reflexivity].
  pose proof (last_stream_index Hne) as Hlast.
  constructor; sink_fields; try rewrite Hcur.
  - rewrite length_app, endStream_length. cbn. f_equal. lia.
  - intros Happ. apply app_eq_nil in Happ. destruct Happ; discriminate.
  - rewrite length_app, endStream_length, Hpart. cbn [List.length]. lia.
  - intros k ws Hk.
    destruct (Nat.lt_ge_cases k (List.length (openedStreams g))) as [Hlt|Hge].
    + rewrite nth_error_app1 in Hk by (now rewrite endStream_length).
      apply endStream_chunks in Hk. destruct Hk as (ws0 & Hk & _ & ->). eauto.
    + rewrite nth_error_app2 in Hk by (now rewrite endStream_length).
      rewrite endStream_length in Hk.
      destruct (k - List.length (openedStreams g))%nat as [|[|n]] eqn:Hd;
        cbn in Hk; try discriminate.
      injection Hk as <-. cbn [ws_path]. rewrite Hpart. f_equal. lia.
  - intros k ws Hk. rewrite length_app, endStream_length. cbn [List.length].
    destruct (Nat.lt_ge_cases k (List.length (openedStreams g))) as [Hlt|Hge].
    + rewrite nth_error_app1 in Hk by (now rewrite endStream_length).
      replace (S k =? List.length (openedStreams g) + 1)%nat with false
        by (symmetry; apply Nat.eqb_neq; lia).
      destruct (Nat.eq_dec k (Nat.pred (List.length (openedStreams g)))) as [->|Hk'].
      * destruct (nth_error (openedStreams g) (Nat.pred (List.length (openedStreams g))))
          as [ws0|] eqn:H0.
        -- erewrite endStream_nth_same in Hk by eassumption. now injection Hk as <-.
        -- apply nth_error_None in H0. lia.
      * rewrite endStream_nth_other in Hk by assumption.
        rewrite (Hended _ _ Hk).
        replace (S k =? List.length (openedStreams g))%nat with false
          by (symmetry; apply Nat.eqb_neq; lia).
        reflexivity.
    + rewrite nth_error_app2 in Hk by (now rewrite endStream_length).
      rewrite endStream_length in Hk.
      destruct (k - List.length (openedStreams g))%nat as [|[|n]] eqn:Hd;
        cbn in Hk; try discriminate.
      injection Hk as <-. cbn [ws_ended].
      replace (S k =? List.length (openedStreams g) + 1)%nat with true
        by (symmetry; apply Nat.eqb_eq; lia).
      reflexivity.
  - intros ws. rewrite length_app, endStream_length. cbn [List.length].
    replace (Nat.pred (List.length (openedStreams g) + 1))
      with (List.length (openedStreams g)) by lia.
    rewrite nth_error_app2 by (now rewrite endStream_length).
    rewrite endStream_length, Nat.sub_diag. cbn. intros [= <-]. now vm_compute.
  - intros ws Hin. apply in_app_or in Hin. destruct Hin as [Hin|[<-|[]]].
    + apply In_nth_error in Hin. destruct Hin as (k & Hk).
      apply endStream_chunks in Hk. destruct Hk as (ws0 & Hk & Hch & _).
      apply nth_error_In in Hk. apply Hcap in Hk.
      unfold dataRows in *. now rewrite Hch.
    + now vm_compute.
  - exact Hstats.
Qed.

(** After the rotation check the invariant holds and the partition has room. *)
Lemma sink_inv_rotate (g : Globals) :
  sink_inv g ->
  sink_inv (rotate g) /\ (outputRowCount (rotate g) < ROWS_PER_FILE)%N.
Proof.
  intros Hinv. unfold rotate.
  destruct (ROWS_PER_FILE <=? outputRowCount g)%N eqn:Hfull.
  - destruct (sink_inv_open_next Hinv) as [Hinv' Hzero]. split; [exact Hinv'|].
    rewrite Hzero. now vm_compute.
  - split; [exact Hinv|]. now apply N.leb_gt.
Qed.

Lemma sink_inv_writeResult (g : Globals) (result : GeocodeResult.t) :
  sink_inv g -> sink_inv (writeResult g result).
Proof.
  intros Hinv. destruct (sink_inv_rotate Hinv) as [Hrot Hroom].
  unfold writeResult. set (g1 := rotate g) in *. clearbody g1. clear Hinv g.
  destruct Hrot as [Hcur Hne Hpart Hpaths Hended Hcount Hcap Hstats].
  pose proof (last_stream_index Hne) as Hlast.
  unfold route.
  destruct (truthy (GeocodeResult.census_tract_geoid result)).
  - set (chunk := outputRow result). clearbody chunk.
    constructor; sink_fields; try rewrite Hcur.
    + now rewrite writeStream_length.
    + intros Hnil. apply (f_equal (@List.length _)) in Hnil.
      rewrite writeStream_length in Hnil. destruct (openedStreams g1); [congruence|discriminate].
    + now rewrite writeStream_length.
    + intros k ws Hk.
      destruct (Nat.eq_dec k (Nat.pred (List.length (openedStreams g1)))) as [->|Hk'].
      * destruct (nth_error (openedStreams g1) (Nat.pred (List.length (openedStreams g1))))
          as [ws0|] eqn:H0; [|apply nth_error_None in H0; lia].
        erewrite writeStream_nth_same in Hk by eassumption. injection Hk as <-.
        cbn [ws_path]. eauto.
      * rewrite writeStream_nth_other in Hk by assumption. eauto.
    + intros k ws Hk. rewrite writeStream_length.
      destruct (Nat.eq_dec k (Nat.pred (List.length (openedStreams g1)))) as [->|Hk'].
      * destruct (nth_error (openedStreams g1) (Nat.pred (List.length (openedStreams g1))))
          as [ws0|] eqn:H0; [|apply nth_error_None in H0; lia].
        erewrite writeStream_nth_same in Hk by eassumption. injection Hk as <-.
        cbn [ws_ended]. eauto.
      * rewrite writeStream_nth_other in Hk by assumption. eauto.
    + intros ws. rewrite writeStream_length. intros Hk.
      destruct (nth_error (openedStreams g1) (Nat.pred (List.length (openedStreams g1))))
        as [ws0|] eqn:H0; [|apply nth_error_None in H0; lia].
      erewrite writeStream_nth_same in Hk by eassumption. injection Hk as <-.
      pose proof (dataRows_write ws0 chunk). pose proof (Hcount _ eq_refl). lia.
    + intros ws Hin. apply In_nth_error in Hin. destruct Hin as (k & Hk).
      destruct (Nat.eq_dec k (Nat.pred (List.length (openedStreams g1)))) as [->|Hk'].
      * destruct (nth_error (openedStreams g1) (Nat.pred (List.length (openedStreams g1))))
          as [ws0|] eqn:H0; [|apply nth_error_None in H0; lia].
        erewrite writeStream_nth_same in Hk by eassumption. injection Hk as <-.
        pose proof (dataRows_write ws0 chunk). pose proof (Hcount _ eq_refl). lia.
      * rewrite writeStream_nth_other in Hk by assumption.
        apply nth_error_In in Hk. auto.
    + lia.
  - assert (sink_inv (countRow
              (setStats {| totalProcessed := totalProcessed (stats g1);
                           totalMatched := totalMatched (stats g1);
                           totalUnmatched := totalUnmatched (stats g1) + 1;
                           totalErrors := totalErrors (stats g1) |} g1))) as Hun.
    { constructor; sink_fields; try assumption.
      - intros ws Hk. pose proof (Hcount _ Hk). lia.
      - lia. }
    destruct (truthy (GeocodeResult.error result)); [|exact Hun].
    destruct Hun; constructor; assumption.
Qed.

Lemma sink_inv_fold (results : list GeocodeResult.t) (g : Globals) :
  sink_inv g -> sink_inv (fold_left writeResult results g).
Proof.
  revert g. induction results as [|r rs IH]; intros g Hinv; cbn [fold_left].
  - exact Hinv.
  - apply IH, sink_inv_writeResult, Hinv.
Qed.

Lemma writeResults_open (g : Globals) (results : list GeocodeResult.t) :
  sink_inv g -> writeResults g results = fold_left writeResult results g.
Proof.
  intros Hinv. unfold writeResults. destruct Hinv as [-> _ _ _ _ _ _ _]. reflexivity.
Qed.

Lemma sink_inv_writeResults (g : Globals) (results : list GeocodeResult.t) :
  sink_inv g -> sink_inv (writeResults g results).
Proof.
  intros Hinv. rewrite writeResults_open by assumption. now apply sink_inv_fold.
Qed.

Lemma reachable_sink_inv (g : Globals) : reachable g -> sink_inv g.
Proof.
  induction 1.
  - apply sink_inv_start.
  - now apply sink_inv_writeResults.
  - now apply sink_inv_recordInvalid.
  - now apply sink_inv_log.
Qed.

(* ------------------------------------------------------------------ *)
(** ** Closed partitions stay as they are *)

Lemma closed_stream_is_not_current (g : Globals) (k : nat) (ws : WriteStream) :
  sink_inv g -> nth_error (openedStreams g) k = Some ws -> ws_ended ws = true ->
  k <> Nat.pred (List.length (openedStreams g)).
Proof.
  intros Hinv Hk Hend ->.
  pose proof (last_stream_index (inv_nonempty Hinv)) as Hlast.
  rewrite (inv_ended Hinv Hk), Hlast, Nat.eqb_refl in Hend. discriminate.
Qed.

Lemma writeResult_keeps_closed (g : Globals) (result : GeocodeResult.t)
    (k : nat) (ws : WriteStream) :
  sink_inv g -> nth_error (openedStreams g) k = Some ws -> ws_ended ws = true ->
  nth_error (openedStreams (writeResult g result)) k = Some ws.
Proof.
  intros Hinv Hk Hend.
  pose proof (closed_stream_is_not_current Hinv Hk Hend) as Hneq.
  assert (k < List.length (openedStreams g))%nat as Hlt
      by (apply nth_error_Some; congruence).
  assert (nth_error (openedStreams (rotate g)) k = Some ws /\
          exists h, outputFile (rotate g) = Some h /\ k <> h) as (Hk1 & h & Hcur & Hkh).
  { unfold rotate. destruct (ROWS_PER_FILE <=? outputRowCount g)%N.
    - sink_fields. rewrite (inv_current Hinv). split.
      + rewrite nth_error_app1 by (now rewrite endStream_length).
        now rewrite endStream_nth_other.
      + eexists. split; [reflexivity|]. rewrite endStream_length. lia.
    - split; [assumption|]. eexists. split; [apply (inv_current Hinv)|assumption]. }
  unfold writeResult, route.
  destruct (truthy (GeocodeResult.census_tract_geoid result)).
  - sink_fields. rewrite Hcur. now rewrite writeStream_nth_other.
  - destruct (truthy (GeocodeResult.error result)); sink_fields; exact Hk1.
Qed.

Lemma fold_writeResult_keeps_closed (results : list GeocodeResult.t) (g : Globals)
    (k : nat) (ws : WriteStream) :
  sink_inv g -> nth_error (openedStreams g) k = Some ws -> ws_ended ws = true ->
  nth_error (openedStreams (fold_left writeResult results g)) k = Some ws.
Proof.
  revert g. induction results as [|r rs IH]; intros g Hinv Hk Hend; cbn [fold_left].
  - exact Hk.
  - apply IH; [now apply sink_inv_writeResult | now apply writeResult_keeps_closed | exact Hend].
Qed.

Lemma writeStream_last (l : list WriteStream) (ws : WriteStream) (chunk : string) :
  writeStream (List.length l) chunk (l ++ [ws])%list =
  (l ++ [{| ws_path := ws_path ws; ws_chunks := chunk :: ws_chunks ws;
            ws_ended := ws_ended ws |}])%list.
Proof. induction l as [|w l IH]; cbn; [reflexivity | now rewrite IH]. Qed.

(** Writing one result to a full partition: the streams afterwards. *)
Lemma writeResult_full_partition (g : Globals) (result : GeocodeResult.t) :
  sink_inv g -> (ROWS_PER_FILE <= outputRowCount g)%N ->
  let h := Nat.pred (List.length (openedStreams g)) in
  let path := getOutputFilePath (currentOutputPart g + 1) in
  openedStreams (writeResult g result) =
    (endStream h (openedStreams g) ++
      [{| ws_path := path;
          ws_chunks :=
            if truthy (GeocodeResult.census_tract_geoid result)
            then [outputRow result; OUTPUT_HEADER]
            else [OUTPUT_HEADER];
          ws_ended := false |}])%list /\
  outputFile (writeResult g result) = Some (S h) /\
  currentOutputPart (writeResult g result) = (currentOutputPart g + 1)%N.
Proof.
  intros Hinv Hfull h path.
  pose proof (last_stream_index (inv_nonempty Hinv)) as Hlast. fold h in Hlast.
  unfold writeResult, rotate. apply N.leb_le in Hfull. rewrite Hfull.
  unfold route.
  destruct (truthy (GeocodeResult.census_tract_geoid result)).
  - sink_fields. rewrite (inv_current Hinv). fold h. rewrite endStream_length, Hlast.
    split; [|split; reflexivity].
    rewrite <- (endStream_length h (openedStreams g)). apply writeStream_last.
  - destruct (truthy (GeocodeResult.error result)); sink_fields;
      rewrite (inv_current Hinv); fold h;
      rewrite endStream_length, Hlast; repeat split; reflexivity.
Qed.

(** Matched results fill the first partition row by row. *)
Lemma fill_first_partition (result : GeocodeResult.t) (n : nat) :
  truthy (GeocodeResult.census_tract_geoid result) = true ->
  forall (m : nat) (g : Globals),
    firstPartitionHolds (outputRow result) m g ->
    (N.of_nat (m + n) <= ROWS_PER_FILE)%N ->
    firstPartitionHolds (outputRow result) (m + n)
      (fold_left writeResult (repeat result n) g).
Proof.
  intros Hgeoid. induction n as [|n IH]; intros m g Hg Hle; cbn [repeat fold_left].
  - now rewrite Nat.add_0_r.
  - replace (m + S n)%nat with (S m + n)%nat in * by lia.
    apply IH; [|assumption].
    destruct Hg as (Hfile & Hstreams & Hcount & Hpart).
    unfold writeResult, rotate.
    replace (ROWS_PER_FILE <=? outputRowCount g)%N with false
      by (symmetry; apply N.leb_gt; lia).
    unfold route. rewrite Hgeoid. unfold firstPartitionHolds. sink_fields.
    rewrite Hfile, Hstreams, Hcount.
    cbn [writeStream ws_path ws_chunks ws_ended repeat app].
    repeat split; [lia | assumption].
Qed.

Lemma fullPartition_holds :
  firstPartitionHolds (outputRow (Example.matched "7")) (N.to_nat ROWS_PER_FILE)
    Example.fullPartition.
Proof.
  unfold Example.fullPartition.
  assert (N.of_nat (N.to_nat ROWS_PER_FILE) = ROWS_PER_FILE) as Hn by apply N2Nat.id.
  generalize dependent (N.to_nat ROWS_PER_FILE). intros n Hn.
  assert (firstPartitionHolds (outputRow (Example.matched "7")) 0
            (openNewOutputFile initialGlobals)) as Hstart by (repeat split).
  pose proof (@fill_first_partition (Example.matched "7") n eq_refl 0%nat _ Hstart) as H.
  rewrite Nat.add_0_l in H. apply H. rewrite Hn. apply N.le_refl.
Qed.

(* ------------------------------------------------------------------ *)
(** ** Results that leave no row *)

Lemma no_row_written_refl (g : Globals) : no_row_written g g.
Proof. intros k ws Hk. left. now exists ws. Qed.

Lemma no_row_written_trans (g1 g2 g3 : Globals) :
  no_row_written g1 g2 -> no_row_written g2 g3 -> no_row_written g1 g3.
Proof.
  intros H12 H23 k ws3 Hk. destruct (H23 _ _ Hk) as [(ws2 & Hk2 & Heq)|Hnew].
  - destruct (H12 _ _ Hk2) as [(ws1 & Hk1 & Heq1)|Hnew].
    + left. exists ws1. split; [assumption | congruence].
    + right. congruence.
  - now right.
Qed.

Lemma no_row_written_open (g : Globals) : no_row_written g (openNewOutputFile g).
Proof.
  intros k ws Hk. sink_fields.
  set (closed := match outputFile g with
                 | Some h => endStream h (openedStreams g)
                 | None => openedStreams g
                 end) in *.
  destruct (Nat.lt_ge_cases k (List.length closed)) as [Hlt|Hge].
  - rewrite nth_error_app1 in Hk by assumption. left. subst closed.
    destruct (outputFile g).
    + apply endStream_chunks in Hk. destruct Hk as (ws0 & Hk & Hch & _). eauto.
    + eauto.
  - rewrite nth_error_app2 in Hk by assumption. right.
    destruct (k - List.length closed)%nat as [|[|n]]; cbn in Hk; try discriminate.
    now injection Hk as <-.
Qed.

Lemma no_row_written_rotate (g : Globals) : no_row_written g (rotate g).
Proof.
  unfold rotate. destruct (ROWS_PER_FILE <=? outputRowCount g)%N.
  - apply (no_row_written_open (nextPart g)).
  - apply no_row_written_refl.
Qed.

(** A result without geoid and without error reason: what [writeResult] does. *)
Lemma writeResult_silent (g : Globals) (result : GeocodeResult.t) :
  truthy (GeocodeResult.census_tract_geoid result) = false ->
  truthy (GeocodeResult.error result) = false ->
  let g' := writeResult g result in
  totalUnmatched (stats g') = (totalUnmatched (stats g) + 1)%N /\
  totalMatched (stats g') = totalMatched (stats g) /\
  totalProcessed (stats g') = (totalProcessed (stats g) + 1)%N /\
  totalErrors (stats g') = totalErrors (stats g) /\
  unmatchedStream g' = unmatchedStream g /\
  no_row_written g g'.
Proof.
  intros Hgeoid Herror. unfold writeResult, route. rewrite Hgeoid, Herror.
  sink_fields.
  assert (stats (rotate g) = stats g /\ unmatchedStream (rotate g) = unmatchedStream g)
    as [Hst Hun].
  { unfold rotate. destruct (ROWS_PER_FILE <=? outputRowCount g)%N; split; reflexivity. }
  rewrite Hst, Hun. repeat split.
  exact (no_row_written_rotate g).
Qed.

Lemma writeResults_silent (g : Globals) (result : GeocodeResult.t) :
  truthy (GeocodeResult.census_tract_geoid result) = false ->
  truthy (GeocodeResult.error result) = false ->
  let g' := writeResults g [result] in
  totalUnmatched (stats g') = (totalUnmatched (stats g) + 1)%N /\
  totalMatched (stats g') = totalMatched (stats g) /\
  totalProcessed (stats g') = (totalProcessed (stats g) + 1)%N /\
  totalErrors (stats g') = totalErrors (stats g) /\
  unmatchedStream g' = unmatchedStream g /\
  no_row_written g g'.
Proof.
  intros Hgeoid Herror. unfold writeResults. cbn [fold_left].
  set (g0 := match outputFile g with None => openNewOutputFile g | Some _ => g end).
  assert (stats g0 = stats g /\ unmatchedStream g0 = unmatchedStream g /\
          no_row_written g g0) as (Hst & Hun & Hrows).
  { subst g0. destruct (outputFile g).
    - repeat split. apply no_row_written_refl.
    - repeat split. apply no_row_written_open. }
  destruct (writeResult_silent g0 result Hgeoid Herror) as (H1 & H2 & H3 & H4 & H5 & H6).
  rewrite Hst in *. rewrite Hun in *. repeat split; try assumption.
  eapply no_row_written_trans; eassumption.
Qed.

(** C7: in every state of a run, every output partition holds at most
    ROWS_PER_FILE data rows; when the current partition holds ROWS_PER_FILE
    rows, the next result closes it and opens a new stream, which becomes the
    current one: its part number is the next one, its name is the name of
    that part number, while the closed partition has the name of the part
    number before, and no partition opened so far has that name; a closed
    partition is never written again; and the name of part [n] is
    [output/tracts_part_] followed by the decimal digits of [n], padded with
    zeros to three digits, and [.csv]. *)
Theorem partitions_capped_and_rotated (g : Globals) :
  reachable g ->
  (forall ws, In ws (openedStreams g) -> (dataRows ws <= ROWS_PER_FILE)%N) /\
  (forall h cur result,
     outputFile g = Some h -> nth_error (openedStreams g) h = Some cur ->
     dataRows cur = ROWS_PER_FILE ->
     let g' := writeResults g [result] in
     nth_error (openedStreams g') h =
       Some {| ws_path := ws_path cur; ws_chunks := ws_chunks cur; ws_ended := true |} /\
     outputFile g' = Some (S h) /\
     currentOutputPart g' = (currentOutputPart g + 1)%N /\
     nth_error (openedStreams g') (S h) =
       Some {| ws_path := getOutputFilePath (currentOutputPart g + 1);
               ws_chunks :=
                 if truthy (GeocodeResult.census_tract_geoid result)
                 then [outputRow result; OUTPUT_HEADER] else [OUTPUT_HEADER];
               ws_ended := false |} /\
     ws_path cur = getOutputFilePath (currentOutputPart g) /\
     (forall k ws, nth_error (openedStreams g) k = Some ws ->
                   ws_path ws <> getOutputFilePath (currentOutputPart g + 1))) /\
  (forall k ws results,
     nth_error (openedStreams g) k = Some ws -> ws_ended ws = true ->
     nth_error (openedStreams (writeResults g results)) k = Some ws) /\
  (forall n,
     getOutputFilePath n =
       "output/tracts_part_" ++ padStart (String_of_N n) 3 "0" ++ ".csv" /\
     digitsToN (padStart (String_of_N n) 3 "0") = Some n).
Proof.
  intros Hreach. pose proof (reachable_sink_inv Hreach) as Hinv.
  split; [|split; [|split]].
  - intros ws. apply (inv_cap Hinv).
  - intros h cur result Hh Hcur Hrows g'. subst g'.
    rewrite (inv_current Hinv) in Hh. injection Hh as <-.
    pose proof (inv_count Hinv Hcur) as Hcount. rewrite Hrows in Hcount.
    rewrite writeResults_open by assumption. cbn [fold_left].
    destruct (writeResult_full_partition result Hinv Hcount) as (Hs & Hf & Hp).
    pose proof (last_stream_index (inv_nonempty Hinv)) as Hlast.
    rewrite Hs, Hf, Hp. repeat split.
    + rewrite nth_error_app1 by (rewrite endStream_length; lia).
      now apply endStream_nth_same.
    + rewrite nth_error_app2 by (rewrite endStream_length; lia).
      rewrite endStream_length, Hlast, Nat.sub_diag. reflexivity.
    + rewrite (inv_paths Hinv Hcur), (inv_part Hinv), Hlast. reflexivity.
    + intros k ws Hk Hpath. rewrite (inv_paths Hinv Hk) in Hpath.
      apply getOutputFilePath_inj in Hpath. rewrite (inv_part Hinv) in Hpath.
      assert (k < List.length (openedStreams g))%nat
        by (apply nth_error_Some; congruence).
      lia.
  - intros k ws results Hk Hend. rewrite writeResults_open by assumption.
    now apply fold_writeResult_keeps_closed.
  - intros n. split; [reflexivity|]. unfold padStart.
    now rewrite digitsToN_zeros, digitsToN_String_of_N.
Qed.

(** C7, witness: the state after ROWS_PER_FILE matched results is reachable
    and its partition, [output/tracts_part_001.csv], is full; the next result
    closes it and goes to [output/tracts_part_002.csv]. *)
Lemma partitions_capped_and_rotated_witness :
  let g' := writeResults Example.fullPartition [Example.matched "8"] in
  outputFile g' = Some 1%nat /\
  currentOutputPart g' = 2%N /\
  option_map (fun ws => (ws_path ws, ws_ended ws)) (nth_error (openedStreams g') 0) =
    Some ("output/tracts_part_001.csv", true) /\
  nth_error (openedStreams g') 1 =
    Some {| ws_path := "output/tracts_part_002.csv";
            ws_chunks := ["8,00000000001" ++ newline; OUTPUT_HEADER];
            ws_ended := false |}.
Proof.
  cbv zeta.
  destruct fullPartition_holds as (Hfile & Hstreams & Hcount & Hpart).
  destruct (@partitions_capped_and_rotated Example.fullPartition
              (reachable_writeResults _ _ reachable_start)) as (_ & Hrot & _).
  assert (nth_error (openedStreams Example.fullPartition) 0 =
          Some {| ws_path := getOutputFilePath 1;
                  ws_chunks :=
                    (repeat (outputRow (Example.matched "7")) (N.to_nat ROWS_PER_FILE)
                       ++ [OUTPUT_HEADER])%list;
                  ws_ended := false |}) as Hnth
      by (rewrite Hstreams; reflexivity).
  destruct (Hrot 0%nat _ (Example.matched "8") Hfile Hnth)
    as (Hclosed & Hfile' & Hpart' & Hnew & _).
  - unfold dataRows. cbn [ws_chunks].
    rewrite length_app, repeat_length, Nat.add_comm. cbn [List.length Nat.add].
    rewrite Nat2N.inj_succ, N2Nat.id. lia.
  - split; [exact Hfile'|]. split; [rewrite Hpart', Hpart; reflexivity|].
    split; [rewrite Hclosed; reflexivity|].
    rewrite Hnew, Hpart. reflexivity.
Defined.

(** C2 (the code at the failing input): a result with neither geoid nor error
    reason is counted as unmatched, and no row is written for it: the
    unmatched/error channel and every output partition stay as they were. *)
Theorem plain_no_match_is_written_nowhere (g : Globals) (i : string) :
  let g' := writeResults g [Example.noMatch i] in
  totalUnmatched (stats g') = (totalUnmatched (stats g) + 1)%N /\
  unmatchedStream g' = unmatchedStream g /\
  no_row_written g g'.
Proof.
  destruct (@writeResults_silent g (Example.noMatch i) eq_refl eq_refl)
    as (Hun & _ & _ & _ & Hstream & Hrows).
  cbn zeta. auto.
Qed.

(** C8 (as amended): for every latitude below -90 or above 90, or longitude
    below -180 or above 180, [findTractForPoint] returns null without
    throwing, and without any index search or containment test.  A NaN
    coordinate passes that check, as every comparison with NaN is false:
    with a NaN latitude and a longitude that is neither out of range nor
    outside the global bounding box (a NaN longitude for one), and likewise
    with the coordinates exchanged, the index is searched. *)
Theorem out_of_range_point_is_rejected {E : Externals} (lat lon : number)
    (spatialIndex : SpatialIndex) :
  ((lat <? num (-90))%js = true \/ (lat >? num 90)%js = true \/
   (lon <? num (-180))%js = true \/ (lon >? num 180)%js = true ->
   findTractForPoint lat lon spatialIndex = ([], Returned None)) /\
  (let '(bbox0, _, bbox2, _) := bbox spatialIndex in
   (lon <? num (-180))%js = false -> (lon >? num 180)%js = false ->
   (lon <? bbox0)%js = false -> (lon >? bbox2)%js = false ->
   exists events r,
     findTractForPoint NaN lon spatialIndex =
       (Searched {| q_minX := lon; q_minY := NaN; q_maxX := lon; q_maxY := NaN |}
          :: events, r)) /\
  (let '(_, bbox1, _, bbox3) := bbox spatialIndex in
   (lat <? num (-90))%js = false -> (lat >? num 90)%js = false ->
   (lat <? bbox1)%js = false -> (lat >? bbox3)%js = false ->
   exists events r,
     findTractForPoint lat NaN spatialIndex =
       (Searched {| q_minX := NaN; q_minY := lat; q_maxX := NaN; q_maxY := lat |}
          :: events, r)).
Proof.
  split; [|split].
  - intros Hout. unfold findTractForPoint.
    destruct Hout as [-> | [-> | [-> | ->]]];
      repeat rewrite orb_true_r; reflexivity.
  - unfold findTractForPoint.
    destruct (bbox spatialIndex) as [[[b0 b1] b2] b3].
    intros -> -> -> ->.
    change (NaN <? num (-90))%js with false. change (NaN >? num 90)%js with false.
    replace (NaN <? b1)%js with false by (now destruct b1).
    replace (NaN >? b3)%js with false by (now destruct b3).
    cbn [orb].
    destruct (point (lon, NaN)) as [msg|testPoint]; [now eexists _, _|].
    destruct (testCandidates _ _ _) as [events r]. now eexists _, _.
  - unfold findTractForPoint.
    destruct (bbox spatialIndex) as [[[b0 b1] b2] b3].
    intros -> -> -> ->.
    change (NaN <? num (-180))%js with false. change (NaN >? num 180)%js with false.
    replace (NaN <? b0)%js with false by (now destruct b0).
    replace (NaN >? b2)%js with false by (now destruct b2).
    cbn [orb].
    destruct (point (NaN, lat)) as [msg|testPoint]; [now eexists _, _|].
    destruct (testCandidates _ _ _) as [events r]. now eexists _, _.
Qed.

(** C8, witness: latitude 91. *)
Lemma out_of_range_point_is_rejected_witness :
  findTractForPoint (num 91) (num 0.5) Example.squareIndex = ([], Returned None).
Proof.
  apply (@out_of_range_point_is_rejected referenceExternals (num 91) (num 0.5)).
  right. left. reflexivity.
Defined.

(** C8, counterexample: a latitude that is NaN is not within [-90, 90], and
    with the longitude 0.5 the index of the unit square is searched and
    [point] throws. *)
Lemma nan_latitude_is_searched :
  ((num (-90) <=? NaN)%js && (NaN <=? num 90)%js = false) /\
  findTractForPoint NaN (num 0.5) Example.squareIndex =
    ([Searched {| q_minX := num 0.5; q_minY := NaN; q_maxX := num 0.5; q_maxY := NaN |}],
     Thrown "coordinates must contain numbers").
Proof. split; reflexivity. Qed.

(** C10: for every address whose coordinates are numbers (not NaN) outside
    [-90, 90] x [-180, 180], a worker whose index was rebuilt returns a result
    with a null geoid and no error reason; the sink counts such a result as
    unmatched and processed, and writes it to neither an output partition nor
    the unmatched/error channel. *)
Theorem out_of_range_address_is_counted_but_not_written {E : Externals}
    (input : WorkerInput) (rebuilt : RBush) (k : nat) (addr : Address.t) (g : Globals) :
  rbush_load (data_items (spatialIndex input)) = inr rebuilt ->
  nth_error (addresses input) k = Some addr ->
  isNaN (Address.latitude addr) = false ->
  isNaN (Address.longitude addr) = false ->
  ((Address.latitude addr <? num (-90))%js = true \/
   (Address.latitude addr >? num 90)%js = true \/
   (Address.longitude addr <? num (-180))%js = true \/
   (Address.longitude addr >? num 180)%js = true) ->
  let result := {| GeocodeResult.address_id := Address.address_id addr;
                   GeocodeResult.census_tract_geoid := None;
                   GeocodeResult.error := None |} in
  let g' := writeResults g [result] in
  nth_error (processAddresses input) k = Some result /\
  totalUnmatched (stats g') = (totalUnmatched (stats g) + 1)%N /\
  totalProcessed (stats g') = (totalProcessed (stats g) + 1)%N /\
  totalMatched (stats g') = totalMatched (stats g) /\
  totalErrors (stats g') = totalErrors (stats g) /\
  unmatchedStream g' = unmatchedStream g /\
  no_row_written g g'.
Proof.
  intros Hload Hk Hlat Hlon Hout result g'. split.
  - unfold processAddresses. rewrite Hload.
    rewrite nth_error_map, Hk. cbn [option_map]. f_equal.
    unfold processAddress. rewrite Hlat, Hlon. cbn [orb].
    unfold findTractForPoint.
    replace ((Address.latitude addr <? num (-90))%js ||
             (Address.latitude addr >? num 90)%js ||
             (Address.longitude addr <? num (-180))%js ||
             (Address.longitude addr >? num 180)%js) with true.
    + reflexivity.
    + destruct Hout as [-> | [-> | [-> | ->]]];
        repeat rewrite orb_true_r; reflexivity.
  - destruct (@writeResults_silent g result eq_refl eq_refl)
      as (H1 & H2 & H3 & H4 & H5 & H6).
    repeat split; assumption.
Qed.

(** C10, witness: latitude 91 against the index of the unit square. *)
Lemma out_of_range_address_is_counted_but_not_written_witness :
  let result := {| GeocodeResult.address_id := "9";
                   GeocodeResult.census_tract_geoid := None;
                   GeocodeResult.error := None |} in
  let g := openNewOutputFile initialGlobals in
  nth_error (processAddresses Example.farAwayInput) 0 = Some result /\
  totalUnmatched (stats (writeResults g [result])) = 1%N /\
  unmatchedStream (writeResults g [result]) = [UNMATCHED_HEADER].
Proof.
  destruct (@out_of_range_address_is_counted_but_not_written referenceExternals
              Example.farAwayInput (items Example.squareIndex) 0 Example.farAway
              (openNewOutputFile initialGlobals) eq_refl eq_refl eq_refl eq_refl
              (or_intror (or_introl eq_refl)))
    as (Hres & Hun & _ & _ & _ & Hstream & _).
  cbn zeta. repeat split; assumption.
Defined.

(* ------------------------------------------------------------------ *)
(** ** The loader *)

(** The features of a source only add tracts, each with a valid identifier. *)
Lemma readFeatures_tracts (dirName : string) (reads : list ReadResult) :
  forall (geoidField : option string) (n : N) (st : LoadState),
  exists added,
    ls_tracts (fst (readFeatures dirName reads geoidField n st)) =
      (ls_tracts st ++ added)%list /\
    validTracts added.
Proof.
  induction reads as [|[f|msg] rest IH]; intros geoidField n st; cbn [readFeatures].
  - exists []. split; [now rewrite app_nil_r | constructor].
  - destruct (match geoidField with
              | Some k => Some k
              | None => detectGeoidField (Feature.properties f)
              end) as [field|].
    + destruct (geoid_re_test (propertyString (Feature.properties f) field)) eqn:Hre;
        cbn [negb].
      * match goal with
        | |- context [readFeatures _ _ ?fd ?m ?s] => destruct (IH fd m s) as (added & -> & Hv)
        end.
        cbn [ls_tracts]. rewrite <- app_assoc. eexists. split; [reflexivity|].
        constructor; [exact Hre | exact Hv].
      * match goal with
        | |- context [readFeatures _ _ ?fd ?m ?s] => destruct (IH fd m s) as (added & -> & Hv)
        end.
        exists added. now split.
    + exists []. split; [now rewrite app_nil_r | constructor].
  - exists []. split; [now rewrite app_nil_r | constructor].
Qed.

Lemma loadState_tracts (st : LoadState) (dir : Dirent) :
  exists added,
    ls_tracts (loadState st dir) = (ls_tracts st ++ added)%list /\ validTracts added.
Proof.
  unfold loadState.
  destruct (negb (isDirectory dir) || negb (prefix "state_" (name dir)));
    [exists []; split; [now rewrite app_nil_r | constructor]|].
  destruct (shpFile dir) as [file|];
    [|exists []; split; [now rewrite app_nil_r | constructor]].
  destruct (source dir) as [msg|reads].
  - exists []. split; [now rewrite app_nil_r | constructor].
  - match goal with
    | |- context [readFeatures ?d ?r ?fd ?m ?s] =>
        destruct (readFeatures_tracts d r fd m s) as (added & Heq & Hv);
        destruct (readFeatures d r fd m s) as [st' [msg|n]]
    end; cbn [fst] in Heq; exists added; split; assumption.
Qed.

Lemma fold_loadState_tracts (dirs : list Dirent) (st : LoadState) :
  exists added,
    ls_tracts (fold_left loadState dirs st) = (ls_tracts st ++ added)%list /\
    validTracts added.
Proof.
  revert st. induction dirs as [|d dirs IH]; intros st; cbn [fold_left].
  - exists []. split; [now rewrite app_nil_r | constructor].
  - destruct (IH (loadState st d)) as (added2 & -> & Hv2).
    destruct (loadState_tracts st d) as (added1 & -> & Hv1).
    exists (added1 ++ added2)%list. split; [now rewrite app_assoc | now apply Forall_app].
Qed.

Section LoaderFacts.

Context {E : Externals}.

(** What a successful load returns. *)
Lemma load_returns (data : DataDir) (console : list ConsoleEvent) (idx : SpatialIndex) :
  loadCensusTractShapefiles data = (console, inr idx) ->
  exists dirs,
    data = Entries dirs /\
    tracts idx = ls_tracts (fold_left loadState dirs initialLoadState) /\
    bbox idx = ls_bbox (fold_left loadState dirs initialLoadState) /\
    items idx = buildItems 0 (tracts idx) /\
    rbush_load (items idx) = inr (index idx).
Proof.
  unfold loadCensusTractShapefiles. destruct data as [msg|dirs]; [discriminate|].
  destruct (ls_tracts (fold_left loadState dirs initialLoadState)) as [|t ts] eqn:Hts;
    [discriminate|].
  cbn [say ls_tracts ls_bbox ls_console]. rewrite Hts.
  destruct (rbush_load (buildItems 0 (t :: ts))) as [msg|ix] eqn:Hload; [discriminate|].
  intros [= _ <-]. exists dirs. cbn [tracts bbox items index]. auto.
Qed.

Lemma load_validTracts (data : DataDir) (console : list ConsoleEvent) (idx : SpatialIndex) :
  loadCensusTractShapefiles data = (console, inr idx) -> validTracts (tracts idx).
Proof.
  intros Hload. destruct (load_returns data Hload) as (dirs & _ & -> & _).
  destruct (fold_loadState_tracts dirs initialLoadState) as (added & -> & Hv).
  exact Hv.
Qed.

End LoaderFacts.

Section MatcherFacts.

Context {E : Externals}.

(** A returned identifier is the [geoid] of a loaded tract whose containment
    test passed. *)
Lemma testCandidates_returns (ts : list CensusTract) (pt : number * number)
    (candidates : list RBushItem) :
  forall events g,
    testCandidates ts pt candidates = (events, Returned (Some g)) ->
    exists item t,
      In item candidates /\ nth_error ts (id item) = Some t /\ geoid t = g /\
      booleanPointInPolygon pt (geometry t) = inr true.
Proof.
  induction candidates as [|item rest IH]; intros events g; cbn [testCandidates].
  - discriminate.
  - destruct (nth_error ts (id item)) as [t|] eqn:Ht; [|discriminate].
    destruct (booleanPointInPolygon pt (geometry t)) as [msg|[|]] eqn:Hpip.
    + destruct (testCandidates ts pt rest) as [ev r]. intros [= _ ->].
      destruct (IH _ _ eq_refl) as (item' & t' & Hin & H). exists item', t'.
      split; [now right | exact H].
    + intros [= _ <-]. exists item, t. repeat split; auto. now left.
    + destruct (testCandidates ts pt rest) as [ev r]. intros [= _ ->].
      destruct (IH _ _ eq_refl) as (item' & t' & Hin & H). exists item', t'.
      split; [now right | exact H].
Qed.

Lemma findTractForPoint_returns (lat lon : number) (spatialIndex : SpatialIndex) :
  forall events g,
    findTractForPoint lat lon spatialIndex = (events, Returned (Some g)) ->
    exists t, In t (tracts spatialIndex) /\ geoid t = g.
Proof.
  intros events g. unfold findTractForPoint.
  destruct (_ || _ || _ || _); [discriminate|].
  destruct (bbox spatialIndex) as [[[b0 b1] b2] b3].
  destruct (_ || _ || _ || _); [discriminate|].
  destruct (point (lon, lat)) as [msg|pt]; [discriminate|].
  destruct (testCandidates _ _ _) as [ev r] eqn:Htest. intros [= _ ->].
  destruct (testCandidates_returns _ _ _ Htest) as (item & t & _ & Ht & Hg & _).
  exists t. split; [eapply nth_error_In; eassumption | exact Hg].
Qed.

Lemma geoid_re_test_spec (s : string) :
  geoid_re_test s = true ->
  String.length s = 11%nat /\
  forall c, In c (list_ascii_of_string s) -> (48 <= nat_of_ascii c <= 57)%nat.
Proof.
  unfold geoid_re_test. intros H. apply andb_prop in H. destruct H as [Hlen Hdig].
  split; [now apply Nat.eqb_eq|].
  intros c Hc. rewrite forallb_forall in Hdig. specialize (Hdig c Hc).
  unfold is_digit in Hdig. apply andb_prop in Hdig. destruct Hdig as [H1 H2].
  apply Nat.leb_le in H1, H2. lia.
Qed.

End MatcherFacts.

(** C9: every identifier that [findTractForPoint] returns against an index
    built by the loader consists of exactly 11 ASCII digits; so does every
    geoid in the results of a worker that was sent this index. *)
Theorem returned_identifier_has_eleven_digits {E : Externals} (data : DataDir)
    (console : list ConsoleEvent) (idx : SpatialIndex) :
  loadCensusTractShapefiles data = (console, inr idx) ->
  (forall lat lon events g,
     findTractForPoint lat lon idx = (events, Returned (Some g)) ->
     geoid_re_test g = true /\ String.length g = 11%nat /\
     forall c, In c (list_ascii_of_string g) -> (48 <= nat_of_ascii c <= 57)%nat) /\
  (forall chunk result g,
     In result (processAddresses {| addresses := chunk; spatialIndex := indexData idx |}) ->
     GeocodeResult.census_tract_geoid result = Some g ->
     geoid_re_test g = true).
Proof.
  intros Hload. pose proof (load_validTracts data Hload) as Hvalid.
  unfold validTracts in Hvalid. rewrite Forall_forall in Hvalid.
  split.
  - intros lat lon events g Hfind.
    destruct (findTractForPoint_returns _ _ _ Hfind) as (t & Hin & <-).
    split; [auto | apply geoid_re_test_spec; auto].
  - intros chunk result g Hin Hg. unfold processAddresses in Hin.
    cbn [spatialIndex addresses indexData data_items data_tracts data_bbox] in Hin.
    destruct (rbush_load (items idx)) as [msg|rebuilt].
    + apply in_map_iff in Hin. destruct Hin as (addr & <- & _). discriminate.
    + apply in_map_iff in Hin. destruct Hin as (addr & <- & _).
      unfold processAddress in Hg.
      destruct (isNaN _ || isNaN _); [discriminate|].
      match type of Hg with
      | context [findTractForPoint ?a ?b ?i] =>
          destruct (findTractForPoint a b i) as [ev [r|msg]] eqn:Hfind
      end; cbn [snd GeocodeResult.census_tract_geoid] in Hg; [|discriminate].
      subst r.
      destruct (findTractForPoint_returns _ _ _ Hfind) as (t & Ht & <-).
      cbn [tracts] in Ht. auto.
Qed.

(** C9, witness: the unit square, queried at its centre. *)
Lemma returned_identifier_has_eleven_digits_witness :
  geoid_re_test "00000000001" = true /\ String.length "00000000001" = 11%nat.
Proof.
  assert (loadCensusTractShapefiles Example.squareData =
          (fst (loadCensusTractShapefiles Example.squareData),
           inr Example.squareIndex)) as Hload by reflexivity.
  assert (findTractForPoint (num 0.5) (num 0.5) Example.squareIndex =
          (fst (findTractForPoint (num 0.5) (num 0.5) Example.squareIndex),
           Returned (Some "00000000001"))) as Hfind by reflexivity.
  destruct (returned_identifier_has_eleven_digits _ Hload) as [Hall _].
  destruct (Hall _ _ _ _ Hfind) as (H1 & H2 & _).
  split; assumption.
Defined.

(* ------------------------------------------------------------------ *)
(** ** What the console does not influence *)





Section LoadOutcome.

Context {E : Externals}.


End LoadOutcome.




(* ------------------------------------------------------------------ *)
(** ** Polygons without coordinates *)

Lemma buildItems_nth (ts : list CensusTract) :
  forall i k t,
    nth_error ts k = Some t ->
    nth_error (buildItems i ts) k =
      Some (let '(tractMinX, tractMinY, tractMaxX, tractMaxY) :=
              extractBounds (geometry t) in
            {| minX := tractMinX; minY := tractMinY; maxX := tractMaxX;
               maxY := tractMaxY; id := i + k |}).
Proof.
  induction ts as [|t0 ts IH]; intros i [|k] t; cbn [nth_error buildItems];
    try discriminate.
  - intros [= ->]. destruct (extractBounds (geometry t)) as [[[a b] c] d].
    cbn [nth_error]. now rewrite Nat.add_0_r.
  - intros Hk. destruct (extractBounds (geometry t0)) as [[[a b] c] d].
    cbn [nth_error]. rewrite (IH (S i) k t Hk). now rewrite Nat.add_succ_r.
Qed.

(** C5 (as amended): a record with a valid identifier whose geometry yields no
    coordinate pairs is kept.  It is appended to the loaded tracts, it leaves
    the global bounding box as it was, and in a loaded index it has an item of
    its own, with the bounding box [0, 0, 0, 0]. *)
Theorem polygon_without_coordinates_is_kept {E : Externals}
    (dirName : string) (f : Feature.t) (rest : list ReadResult) (field : string)
    (n : N) (st : LoadState) :
  geoid_re_test (propertyString (Feature.properties f) field) = true ->
  extractAllCoordinates (Feature.geometry f) = [] ->
  readFeatures dirName (ReadValue f :: rest) (Some field) n st =
    readFeatures dirName rest (Some field) (n + 1)
      {| ls_tracts :=
           (ls_tracts st ++
              [{| geoid := propertyString (Feature.properties f) field;
                  geometry := Feature.geometry f |}])%list;
         ls_bbox := ls_bbox st;
         ls_console := ls_console st |} /\
  In {| geoid := propertyString (Feature.properties f) field;
        geometry := Feature.geometry f |}
     (ls_tracts (fst (readFeatures dirName (ReadValue f :: rest) (Some field) n st))) /\
  (forall data console idx i,
     loadCensusTractShapefiles data = (console, inr idx) ->
     nth_error (tracts idx) i =
       Some {| geoid := propertyString (Feature.properties f) field;
               geometry := Feature.geometry f |} ->
     nth_error (items idx) i =
       Some {| minX := num 0; minY := num 0; maxX := num 0; maxY := num 0; id := i |}).
Proof.
  intros Hre Hcoords.
  assert (readFeatures dirName (ReadValue f :: rest) (Some field) n st =
          readFeatures dirName rest (Some field) (n + 1)
            {| ls_tracts :=
                 (ls_tracts st ++
                    [{| geoid := propertyString (Feature.properties f) field;
                        geometry := Feature.geometry f |}])%list;
               ls_bbox := ls_bbox st;
               ls_console := ls_console st |}) as Hstep.
  { cbn [readFeatures]. rewrite Hre, Hcoords. reflexivity. }
  split; [exact Hstep | split].
  - rewrite Hstep.
    match goal with
    | |- context [readFeatures ?d ?r ?fd ?m ?s] =>
        destruct (readFeatures_tracts d r fd m s) as (added & -> & _)
    end.
    cbn [ls_tracts]. apply in_or_app. left. apply in_or_app. right. now left.
  - intros data console idx i Hload Hi.
    destruct (load_returns data Hload) as (_ & _ & _ & _ & Hitems & _).
    rewrite Hitems. rewrite (buildItems_nth _ 0 _ Hi).
    cbn [geometry]. unfold extractBounds. rewrite Hcoords. reflexivity.
Qed.

(** C5, witness: the polygon without rings of [noRingsData]. *)
Lemma polygon_without_coordinates_is_kept_witness :
  In {| geoid := "00000000002"; geometry := Example.noRings |}
     (ls_tracts
        (fst (readFeatures "state_00"
                [Example.feature "00000000002" Example.noRings;
                 Example.feature "123" Example.square] (Some "GEOID") 0
                initialLoadState))).
Proof.
  destruct (@polygon_without_coordinates_is_kept referenceExternals "state_00"
              {| Feature.properties := [("STATEFP", "00"); ("GEOID", "00000000002")];
                 Feature.geometry := Example.noRings |}
              [Example.feature "123" Example.square] "GEOID" 0%N initialLoadState
              eq_refl eq_refl) as (_ & Hin & _).
  exact Hin.
Defined.

(** C5, counterexample: a polygon without rings and with a valid identifier is
    loaded (first of two tracts) and the index holds a bounding box for it. *)
Lemma polygon_without_rings_is_loaded :
  extractAllCoordinates Example.noRings = [] /\
  match snd (loadCensusTractShapefiles Example.noRingsData) with
  | inr idx =>
      map geoid (tracts idx) = ["00000000002"; "00000000001"] /\
      nth_error (items idx) 0 =
        Some {| minX := num 0; minY := num 0; maxX := num 0; maxY := num 0; id := 0 |}
  | inl _ => False
  end.
Proof. vm_compute. repeat split; reflexivity. Qed.

Unset Implicit Arguments.

(* ------------------------------------------------------------------ *)
(** ** Bounding boxes *)

Lemma widens_refl (b : Bounds) : numericBounds b -> widens b b.
Proof.
  destruct b as [[[b0 b1] b2] b3]. intros (H0 & H1 & H2 & H3).
  repeat split; now apply le_refl.
Qed.

Lemma widens_trans (a b c : Bounds) : widens a b -> widens b c -> widens a c.
Proof.
  destruct a as [[[a0 a1] a2] a3], b as [[[b0 b1] b2] b3], c as [[[c0 c1] c2] c3].
  intros (H0 & H1 & H2 & H3) (K0 & K1 & K2 & K3).
  repeat split; eapply le_trans; eassumption.
Qed.

Lemma widens_covers (b b' : Bounds) (c : number * number) :
  widens b b' -> covers b c -> covers b' c.
Proof.
  destruct b as [[[b0 b1] b2] b3], b' as [[[c0 c1] c2] c3].
  intros (H0 & H1 & H2 & H3) (K0 & K1 & K2 & K3).
  repeat split; eapply le_trans; eassumption.
Qed.

Lemma extend_facts (b : Bounds) (c : number * number) :
  numericBounds b -> numericPair c ->
  numericBounds (extend b c) /\ widens b (extend b c) /\ covers (extend b c) c.
Proof.
  destruct b as [[[b0 b1] b2] b3], c as [x y].
  intros (H0 & H1 & H2 & H3) [Hx Hy]. cbn [fst snd] in *. cbn [extend].
  destruct (Math_min_le _ _ H0 Hx), (Math_min_le _ _ H1 Hy),
           (Math_max_ge _ _ H2 Hx), (Math_max_ge _ _ H3 Hy).
  repeat split; cbn [fst snd];
    auto using Math_min_numeric, Math_max_numeric.
Qed.

Lemma fold_extend_facts (cs : list (number * number)) :
  forall b,
    numericBounds b -> Forall numericPair cs ->
    numericBounds (fold_left extend cs b) /\
    widens b (fold_left extend cs b) /\
    forall c, In c cs -> covers (fold_left extend cs b) c.
Proof.
  induction cs as [|c cs IH]; intros b Hb Hcs; cbn [fold_left].
  - repeat split; [assumption | now apply widens_refl | intros c []].
  - inversion Hcs as [|? ? Hc Hcs']; subst.
    destruct (extend_facts _ _ Hb Hc) as (Hn & Hw & Hcov).
    destruct (IH _ Hn Hcs') as (Hn' & Hw' & Hcov').
    repeat split; [assumption | eapply widens_trans; eassumption |].
    intros c' [<-|Hin]; [eapply widens_covers; eassumption | now apply Hcov'].
Qed.

(** [extractBounds] of a geometry with numeric coordinates. *)
Lemma extractBounds_facts (g : GeoJSONGeometry) :
  numericGeometry g ->
  numericBounds (extractBounds g) /\
  forall c, In c (extractAllCoordinates g) -> covers (extractBounds g) c.
Proof.
  unfold numericGeometry, extractBounds. intros Hnum.
  destruct (extractAllCoordinates g) as [|[lon0 lat0] cs] eqn:Hcs.
  - split; [now repeat split | intros c []].
  - assert (numericBounds (lon0, lat0, lon0, lat0)) as Hb.
    { inversion Hnum as [|? ? [H1 H2] _]; subst. cbn in *. auto. }
    destruct (fold_extend_facts _ _ Hb Hnum) as (Hn & _ & Hcov).
    split; [exact Hn | exact Hcov].
Qed.

(* ------------------------------------------------------------------ *)
(** ** The loaded index *)

Lemma readFeatures_box (dirName : string) (reads : list ReadResult) :
  forall geoidField n st,
    boxCoversTracts st ->
    numericTracts (ls_tracts (fst (readFeatures dirName reads geoidField n st))) ->
    boxCoversTracts (fst (readFeatures dirName reads geoidField n st)).
Proof.
  induction reads as [|[f|msg] rest IH]; intros geoidField n st Hst Hnum;
    cbn [readFeatures] in *; try exact Hst.
  destruct (match geoidField with
            | Some k => Some k
            | None => detectGeoidField (Feature.properties f)
            end) as [field|]; [|exact Hst].
  destruct (negb (geoid_re_test (propertyString (Feature.properties f) field))).
  - apply IH; [exact Hst | exact Hnum].
  - apply IH; [|exact Hnum].
    match type of Hnum with
    | context [readFeatures ?d ?r ?fd ?m ?s] =>
        destruct (readFeatures_tracts d r fd m s) as (added & Heq & _)
    end.
    rewrite Heq in Hnum. cbn [ls_tracts] in Hnum.
    apply Forall_app in Hnum. destruct Hnum as [Hnum _].
    apply Forall_app in Hnum. destruct Hnum as [_ Hf].
    inversion Hf as [|? ? Hfnum _]; subst. cbn [geometry] in Hfnum.
    destruct Hst as [Hb Hcov].
    destruct (fold_extend_facts _ _ Hb Hfnum) as (Hb' & Hw & Hcov').
    split; cbn [ls_bbox ls_tracts]; [exact Hb'|].
    intros t c Ht Hc. apply in_app_or in Ht. destruct Ht as [Ht|[<-|[]]].
    + eapply widens_covers; [exact Hw | eapply Hcov; eassumption].
    + apply Hcov'. exact Hc.
Qed.

Lemma numericTracts_prefix (a b : list CensusTract) :
  numericTracts (a ++ b) -> numericTracts a.
Proof. intros H. apply Forall_app in H. tauto. Qed.

Lemma loadState_box (st : LoadState) (dir : Dirent) :
  boxCoversTracts st -> numericTracts (ls_tracts (loadState st dir)) ->
  boxCoversTracts (loadState st dir).
Proof.
  unfold loadState.
  destruct (negb (isDirectory dir) || negb (prefix "state_" (name dir))); [auto|].
  destruct (shpFile dir) as [file|]; [|auto].
  destruct (source dir) as [msg|reads]; [auto|].
  intros Hst.
  match goal with
  | |- context [readFeatures ?d ?r ?fd ?m ?s] =>
      pose proof (readFeatures_box d r fd m s Hst) as Hbox;
      destruct (readFeatures d r fd m s) as [st' [msg|k]]
  end; cbn [fst] in Hbox; intros Hnum; apply Hbox; exact Hnum.
Qed.

Lemma fold_loadState_box (dirs : list Dirent) :
  forall st,
    boxCoversTracts st -> numericTracts (ls_tracts (fold_left loadState dirs st)) ->
    boxCoversTracts (fold_left loadState dirs st).
Proof.
  induction dirs as [|d dirs IH]; intros st Hst Hnum; cbn [fold_left] in *.
  - exact Hst.
  - apply IH; [|exact Hnum]. apply loadState_box; [exact Hst|].
    destruct (fold_loadState_tracts dirs (loadState st d)) as (added & Heq & _).
    rewrite Heq in Hnum. eapply numericTracts_prefix. exact Hnum.
Qed.

Lemma initial_box : boxCoversTracts initialLoadState.
Proof. split; [now repeat split | intros t c []]. Qed.

Lemma buildItems_In (ts : list CensusTract) :
  forall i it,
    In it (buildItems i ts) ->
    exists k t,
      nth_error ts k = Some t /\ id it = (i + k)%nat /\
      (minX it, minY it, maxX it, maxY it) = extractBounds (geometry t).
Proof.
  induction ts as [|t ts IH]; intros i it; cbn [buildItems]; [intros []|].
  destruct (extractBounds (geometry t)) as [[[a b] c] d] eqn:Hb.
  intros [<-|Hin].
  - exists 0%nat, t. cbn. rewrite Nat.add_0_r. auto.
  - destruct (IH _ _ Hin) as (k & t' & Hk & Hid & Hbox).
    exists (S k), t'. cbn [nth_error]. rewrite Nat.add_succ_r. auto.
Qed.


(* ------------------------------------------------------------------ *)
(** ** The containment test on rectangles *)




(* ------------------------------------------------------------------ *)
(** ** The first candidate *)

Section FirstCandidate.

Context {E : Externals}.


End FirstCandidate.




(* ------------------------------------------------------------------ *)
(** ** The dispatcher *)

Lemma totalErrors_writeResult (g : Globals) (result : GeocodeResult.t) :
  totalErrors (stats (writeResult g result)) = totalErrors (stats g).
Proof.
  unfold writeResult, route, rotate.
  destruct (ROWS_PER_FILE <=? outputRowCount g)%N;
    destruct (truthy (GeocodeResult.census_tract_geoid result));
    destruct (truthy (GeocodeResult.error result)); reflexivity.
Qed.

Lemma totalErrors_writeResults (results : list GeocodeResult.t) (g : Globals) :
  totalErrors (stats (writeResults g results)) = totalErrors (stats g).
Proof.
  unfold writeResults.
  set (g0 := match outputFile g with None => openNewOutputFile g | Some _ => g end).
  assert (totalErrors (stats g0) = totalErrors (stats g)) as <-
      by (subst g0; now destruct (outputFile g)).
  clearbody g0. revert g0.
  induction results as [|r rs IH]; intros g0; cbn [fold_left]; [reflexivity|].
  now rewrite IH, totalErrors_writeResult.
Qed.

Section DispatcherFacts.

Context {E : Externals}.
Variable pool : Pool.
Variable loadedIndex : SpatialIndex.

Lemma steps_trans (s t u : Main) :
  steps pool loadedIndex s t -> steps pool loadedIndex t u ->
  steps pool loadedIndex s u.
Proof.
  induction 1 as [s|s s' t Hstep Hsteps IH]; intros Htu; [exact Htu|].
  eapply steps_step; [exact Hstep | now apply IH].
Qed.

Lemma steps_one (s t : Main) : step pool loadedIndex s t -> steps pool loadedIndex s t.
Proof. intros H. eapply steps_step; [exact H | apply steps_refl]. Qed.

(** What every step keeps, every state of a run has. *)
Lemma steps_invariant (P : Main -> Prop) :
  (forall s s', P s -> step pool loadedIndex s s' -> P s') ->
  forall s t, steps pool loadedIndex s t -> P s -> P t.
Proof.
  intros Hkeep s t Hsteps. induction Hsteps as [s|s s' t Hstep Hsteps IH]; [auto|].
  intros Hs. apply IH. eapply Hkeep; eassumption.
Qed.

(** After [process.exit] nothing runs. *)
Lemma exited_is_final (s s' : Main) :
  phase s = Exited -> step pool loadedIndex s s' -> False.
Proof. intros Hexit Hstep. destruct Hstep; congruence. Qed.

Lemma onRecord_cases (g : Globals) (run : FileRun) (record : CsvRecord.t) :
  (invalidRecord record = true /\
   onRecord g run record = (recordInvalid g record, run, None)) \/
  (invalidRecord record = false /\
   exists run' chunk,
     onRecord g run record = (g, run', chunk) /\
     processedCount run' = processedCount run /\
     (chunkBuffer run' ++ match chunk with Some c => c | None => [] end =
      chunkBuffer run ++ [toAddress record])%list /\
     match chunk with
     | Some c =>
         chunkBuffer run' = [] /\
         (CHUNK_SIZE <= N.of_nat (List.length c))%N
     | None => (N.of_nat (List.length (chunkBuffer run')) < CHUNK_SIZE)%N
     end).
Proof.
  unfold onRecord, invalidRecord.
  destruct (invalidCoordinates _ _); [left; now split|].
  right. split; [reflexivity|]. fold (toAddress record).
  destruct (CHUNK_SIZE <=? _)%N eqn:Hfull.
  - eexists _, (Some _). split; [reflexivity|]. cbn [chunkBuffer processedCount app].
    split; [reflexivity|]. split; [reflexivity|]. split; [reflexivity|].
    now apply N.leb_le.
  - eexists _, None. split; [reflexivity|]. cbn [chunkBuffer processedCount].
    split; [reflexivity|]. split; [now rewrite app_nil_r|]. now apply N.leb_gt.
Qed.

(** *** The shape of the states *)

Lemma resolvedBy_cases (s : Main) (su : Suspended) (run : FileRun) :
  (isFinalOf (callNumber s) su = true /\
   resolvedBy s su run = Resolved (processedCount run)) \/
  (isFinalOf (callNumber s) su = false /\ resolvedBy s su run = phase s).
Proof. unfold resolvedBy, isFinalOf. destruct (_ && _); auto. Qed.

Lemma count_filter_middle {A : Type} (f : A -> bool) (a b : list A) (x : A) :
  List.length (filter f (a ++ x :: b)) =
  (List.length (filter f (a ++ b)) + if f x then 1 else 0)%nat.
Proof.
  rewrite !filter_app, !length_app. cbn [filter].
  destruct (f x); cbn [List.length]; lia.
Qed.

Lemma filter_none {A : Type} (f : A -> bool) (l : list A) :
  (forall x, In x l -> f x = false) -> filter f l = [].
Proof.
  induction l as [|a l IH]; intros H; cbn [filter]; [reflexivity|].
  rewrite (H a (or_introl eq_refl)). apply IH. intros x Hx. apply H. now right.
Qed.

Lemma wellFormed_start (addressFiles : list (string * list CsvRecord.t)) :
  wellFormed (start addressFiles).
Proof.
  destruct addressFiles as [|[name records] rest]; repeat split; cbn;
    try congruence; constructor.
Qed.

Lemma wellFormed_step (s s' : Main) :
  wellFormed s -> step pool loadedIndex s s' -> wellFormed s'.
Proof.
  intros (Hunread & Hexit & Hcalls & Hfinal) Hstep. unfold wellFormed, finals in *.
  destruct Hstep as [s record rest g run chunk Hph Hun Hrec
                    |s Hph Hun Hbuf
                    |s Hph Hun Hbuf
                    |s before after su results Hph Hsu Hst Hpool
                    |s before after su err Hph Hsu Hst Hpool
                    |s before after su Hph Hsu Hst
                    |s count Hph];
    cbn [phase unread pendingFiles callNumber suspended].
  - rewrite Hph in *. split; [congruence|]. split; [congruence|]. split.
    + apply Forall_app. split; [assumption|].
      destruct chunk; cbn; repeat constructor.
    + rewrite filter_app, length_app, Hfinal.
      destruct chunk; reflexivity.
  - rewrite Hph in *. split; [auto|]. split; [congruence|]. now split.
  - rewrite Hph in *. split; [auto|]. split; [congruence|]. split.
    + apply Forall_app. split; [assumption|]. repeat constructor.
    + rewrite filter_app, length_app, Hfinal. unfold isFinalOf. cbn.
      now rewrite Nat.eqb_refl.
  - rewrite Hsu in *. split; [assumption|]. split; [assumption|]. split.
    + apply Forall_app in Hcalls. destruct Hcalls as [Hb Ha].
      inversion Ha; subst. apply Forall_app. split; [assumption|].
      constructor; assumption.
    + rewrite count_filter_middle in *. exact Hfinal.
  - rewrite Hsu in *. rewrite count_filter_middle in Hfinal.
    apply Forall_app in Hcalls. destruct Hcalls as [Hb Ha]. inversion Ha; subst.
    assert (Forall (fun su0 => (su_call su0 <= callNumber s)%nat) (before ++ after)%list)
      as Hcalls' by (apply Forall_app; now split).
    destruct (resolvedBy_cases s su (locals s)) as [[Hf ->]|[Hf ->]];
      rewrite Hf in Hfinal.
    + destruct (phase s) eqn:Hp; try (exfalso; lia).
      split; [intros _; apply Hunread; congruence|]. split; [congruence|].
      split; [assumption | lia].
    + split; [assumption|]. split; [assumption|]. split; [assumption|].
      now rewrite Nat.add_0_r in Hfinal.
  - rewrite Hsu in *. rewrite count_filter_middle in Hfinal.
    apply Forall_app in Hcalls. destruct Hcalls as [Hb Ha]. inversion Ha; subst.
    assert (Forall (fun su0 => (su_call su0 <= callNumber s)%nat) (before ++ after)%list)
      as Hcalls' by (apply Forall_app; now split).
    destruct (resolvedBy_cases s su (counted s su)) as [[Hf ->]|[Hf ->]];
      rewrite Hf in Hfinal.
    + destruct (phase s) eqn:Hp; try (exfalso; lia).
      split; [intros _; apply Hunread; congruence|]. split; [congruence|].
      split; [assumption | lia].
    + split; [assumption|]. split; [assumption|]. split; [assumption|].
      now rewrite Nat.add_0_r in Hfinal.
  - rewrite Hph in *. unfold resume.
    destruct (pendingFiles s) as [|[name recs] [|[next records] rest]] eqn:Hfiles;
      cbn [phase unread pendingFiles callNumber suspended].
    + rewrite Hph, Hfiles. repeat split; try congruence; assumption.
    + repeat split; try congruence; assumption.
    + split; [congruence|]. split; [congruence|]. split.
      * eapply Forall_impl; [|exact Hcalls]. cbn. intros su Hle. lia.
      * rewrite filter_none; [reflexivity|].
        intros su Hin. rewrite Forall_forall in Hcalls.
        specialize (Hcalls su Hin). unfold isFinalOf.
        replace (su_call su =? S (callNumber s))%nat with false
          by (symmetry; apply Nat.eqb_neq; lia).
        now rewrite andb_false_r.
Qed.

Lemma runs_wellFormed (addressFiles : list (string * list CsvRecord.t)) (s : Main) :
  runs pool loadedIndex addressFiles s -> wellFormed s.
Proof.
  intros Hruns. apply (steps_invariant wellFormed wellFormed_step _ _ Hruns).
  apply wellFormed_start.
Qed.

(** *** The sink during a run *)

Lemma step_reachable (s s' : Main) :
  reachable (globals s) -> step pool loadedIndex s s' -> reachable (globals s').
Proof.
  intros Hreach Hstep.
  destruct Hstep as [s record rest g run chunk Hph Hun Hrec
                    |s Hph Hun Hbuf
                    |s Hph Hun Hbuf
                    |s before after su results Hph Hsu Hst Hpool
                    |s before after su err Hph Hsu Hst Hpool
                    |s before after su Hph Hsu Hst
                    |s count Hph]; cbn [globals]; try assumption.
  - destruct (onRecord_cases (globals s) (locals s) record)
      as [[_ Heq]|[_ (run' & chunk' & Heq & _)]]; rewrite Heq in Hrec;
      injection Hrec as <- _ _; [now constructor | assumption].
  - now constructor.
  - now constructor.
  - unfold resume. destruct (pendingFiles s) as [|[name recs] [|[next records] rest]];
      cbn [globals]; [assumption| |]; repeat constructor; assumption.
Qed.

Lemma runs_reachable (addressFiles : list (string * list CsvRecord.t)) (s : Main) :
  addressFiles <> [] -> runs pool loadedIndex addressFiles s -> reachable (globals s).
Proof.
  intros Hne Hruns.
  apply (steps_invariant (fun s => reachable (globals s)) step_reachable _ _ Hruns).
  destruct addressFiles as [|[name records] rest]; [congruence|].
  cbn. repeat constructor.
Qed.

(** *** Rows rejected before dispatch *)

Lemma step_errors (s s' : Main) :
  wellFormed s -> step pool loadedIndex s s' ->
  (totalErrors (stats (globals s')) + invalidAmong (unreadAll s') =
   totalErrors (stats (globals s)) + invalidAmong (unreadAll s))%N.
Proof.
  intros (Hunread & Hexit & _) Hstep. unfold unreadAll, invalidAmong.
  destruct Hstep as [s record rest g run chunk Hph Hun Hrec
                    |s Hph Hun Hbuf
                    |s Hph Hun Hbuf
                    |s before after su results Hph Hsu Hst Hpool
                    |s before after su err Hph Hsu Hst Hpool
                    |s before after su Hph Hsu Hst
                    |s count Hph];
    cbn [globals unread pendingFiles]; try rewrite Hun; try reflexivity.
  - cbn [app filter].
    destruct (onRecord_cases (globals s) (locals s) record)
      as [[Hinv Heq]|[Hinv (run' & chunk' & Heq & _)]]; rewrite Heq in Hrec;
      injection Hrec as <- _ _; rewrite Hinv; cbn [List.length]; [cbn; lia | lia].
  - now rewrite totalErrors_writeResults.
  - pose proof (Hunread ltac:(congruence)) as Hu. unfold resume.
    destruct (pendingFiles s) as [|[name recs] [|[next records] rest]] eqn:Hfiles;
      cbn [globals unread pendingFiles]; rewrite ?Hu, ?Hfiles;
      cbn [tl flat_map app snd stats log]; rewrite ?app_nil_r; reflexivity.
Qed.

Lemma runs_errors (addressFiles : list (string * list CsvRecord.t)) (s : Main) :
  runs pool loadedIndex addressFiles s ->
  (totalErrors (stats (globals s)) + invalidAmong (unreadAll s))%N =
  countInvalid addressFiles.
Proof.
  intros Hruns.
  pose proof (steps_invariant
                (fun s => wellFormed s /\
                          (totalErrors (stats (globals s)) + invalidAmong (unreadAll s))%N =
                          countInvalid addressFiles)) as Hinv.
  apply Hinv with (s := start addressFiles) (t := s);
    [| exact Hruns |].
  - intros s1 s2 [Hwf Heq] Hstep. split; [eapply wellFormed_step; eassumption|].
    now rewrite (step_errors _ _ Hwf Hstep).
  - split; [apply wellFormed_start|].
    destruct addressFiles as [|[name records] rest]; reflexivity.
Qed.

End DispatcherFacts.

(** *** The run in which every chunk settles at once is a run *)

Section InTurn.

Context {E : Externals}.
Variable pool : Pool.
Variable loadedIndex : SpatialIndex.

(** A handler that is the only suspended one settles and goes on. *)
Lemma settle_in_turn (s : Main) (su : Suspended) :
  phase s <> Exited -> suspended s = [su] -> su_stage su = AwaitingPool ->
  su_call su = callNumber s ->
  exists t,
    steps pool loadedIndex s t /\
    pendingFiles t = pendingFiles s /\ callNumber t = callNumber s /\
    unread t = unread s /\ suspended t = [] /\
    (globals t, processedCount (locals t)) =
      chunkInTurn pool loadedIndex (su_final su) (su_chunk su) (globals s)
        (processedCount (locals s)) /\
    chunkBuffer (locals t) = chunkBuffer (locals s) /\
    phase t = if su_final su then Resolved (processedCount (locals t)) else phase s.
Proof.
  intros Hph Hsu Hst Hcall. unfold chunkInTurn.
  destruct (pool (workerInput loadedIndex (su_chunk su))) as [err|results] eqn:Hpool.
  - eexists. split.
    + apply steps_one. eapply (step_rejected pool loadedIndex s [] [] su);
        eassumption.
    + cbn [globals pendingFiles callNumber unread locals phase suspended app].
      unfold resolvedBy, isFinalOf. rewrite Hcall, Nat.eqb_refl, andb_true_r.
      repeat split.
  - eexists. split.
    + eapply steps_step.
      * eapply (step_fulfilled pool loadedIndex s [] [] su); eassumption.
      * apply steps_one.
        eapply (step_written pool loadedIndex _ [] []);
          cbn [phase suspended su_stage app]; [assumption | reflexivity | reflexivity].
    + cbn [globals pendingFiles callNumber unread locals phase suspended app].
      unfold resolvedBy, isFinalOf, counted.
      cbn [su_call su_final su_chunk callNumber locals phase].
      rewrite Hcall, Nat.eqb_refl, andb_true_r.
      cbn [chunkBuffer processedCount]. repeat split.
Qed.

Lemma read_in_turn (records : list CsvRecord.t) :
  forall (s : Main) (rest : list CsvRecord.t),
    phase s = Reading -> suspended s = [] -> unread s = (records ++ rest)%list ->
    exists t,
      steps pool loadedIndex s t /\
      pendingFiles t = pendingFiles s /\ callNumber t = callNumber s /\
      unread t = rest /\ suspended t = [] /\ phase t = Reading /\
      (globals t, locals t) =
        fold_left (recordInTurn pool loadedIndex) records (globals s, locals s).
Proof.
  induction records as [|r rs IH]; intros s rest Hph Hsu Hun; cbn [fold_left].
  - exists s. repeat split; try assumption. apply steps_refl.
  - cbn [app] in Hun.
    destruct (onRecord (globals s) (locals s) r) as [[g run] chunk] eqn:Hrec.
    pose proof (step_read pool loadedIndex s r (rs ++ rest) g run chunk Hph Hun Hrec)
      as Hstep.
    rewrite Hsu in Hstep. cbn [app] in Hstep.
    unfold recordInTurn at 2. cbn [fst snd]. rewrite Hrec.
    destruct chunk as [c|]; cbn [dispatchedBy] in Hstep.
    + match type of Hstep with
      | step _ _ _ ?s1 =>
          destruct (settle_in_turn s1
                      {| su_call := callNumber s; su_final := false; su_chunk := c;
                         su_stage := AwaitingPool |})
            as (t1 & Hsteps1 & Hf1 & Hc1 & Hu1 & Hs1 & Hg1 & Hb1 & Hp1);
          [cbn; congruence | reflexivity | reflexivity | reflexivity |]
      end.
      cbn [globals pendingFiles callNumber unread locals phase su_final su_chunk]
        in Hf1, Hc1, Hu1, Hg1, Hb1, Hp1.
      destruct (IH t1 rest Hp1 Hs1 Hu1) as (t & Hsteps & Hf & Hc & Hu & Hs & Hp & Hg).
      exists t. split.
      * eapply steps_step; [exact Hstep|]. eapply steps_trans; eassumption.
      * split; [congruence|]. split; [congruence|]. split; [assumption|].
        split; [assumption|]. split; [assumption|]. rewrite Hg. f_equal.
        destruct (chunkInTurn pool loadedIndex false c g (processedCount run))
          as [g' n].
        injection Hg1 as Hg1 Hn1. destruct (locals t1) as [buf cnt].
        cbn [chunkBuffer processedCount] in *. now subst.
    + match type of Hstep with
      | step _ _ _ ?s1 =>
          destruct (IH s1 rest eq_refl eq_refl eq_refl)
            as (t & Hsteps & Hf & Hc & Hu & Hs & Hp & Hg)
      end.
      cbn [globals pendingFiles callNumber locals] in Hf, Hc, Hg.
      exists t. split; [eapply steps_step; eassumption|]. repeat split; assumption.
Qed.

Lemma file_in_turn (records : list CsvRecord.t) (s : Main) :
  phase s = Reading -> suspended s = [] -> locals s = newCall ->
  unread s = records ->
  exists t count,
    steps pool loadedIndex s t /\
    pendingFiles t = pendingFiles s /\ callNumber t = callNumber s /\
    unread t = [] /\ suspended t = [] /\ phase t = Resolved count /\
    (globals t, count) = fileInTurn pool loadedIndex records (globals s).
Proof.
  intros Hph Hsu Hloc Hun.
  destruct (read_in_turn records s [] Hph Hsu) as (t1 & Hsteps1 & Hf1 & Hc1 & Hu1 & Hs1 & Hp1 & Hg1);
    [now rewrite app_nil_r|].
  unfold fileInTurn. rewrite <- Hloc, <- Hg1. unfold endInTurn.
  destruct (chunkBuffer (locals t1)) as [|a l] eqn:Hbuf.
  - eexists _, _. split.
    + eapply steps_trans; [exact Hsteps1|]. apply steps_one.
      apply (step_end_empty pool loadedIndex t1 Hp1 Hu1 Hbuf).
    + cbn [globals pendingFiles callNumber unread locals phase suspended].
      repeat split; assumption.
  - assert (chunkBuffer (locals t1) <> []) as Hne by (rewrite Hbuf; discriminate).
    pose proof (step_end_chunk pool loadedIndex t1 Hp1 Hu1 Hne) as Hstep.
    rewrite Hs1 in Hstep. cbn [app] in Hstep.
    match type of Hstep with
    | step _ _ _ ?s2 =>
        destruct (settle_in_turn s2
                    {| su_call := callNumber t1; su_final := true;
                       su_chunk := chunkBuffer (locals t1);
                       su_stage := AwaitingPool |})
          as (t2 & Hsteps2 & Hf2 & Hc2 & Hu2 & Hs2 & Hg2 & Hb2 & Hp2);
        [cbn; congruence | reflexivity | reflexivity | reflexivity |]
    end.
    cbn [globals pendingFiles callNumber unread locals phase su_final su_chunk]
      in Hf2, Hc2, Hu2, Hg2, Hb2, Hp2.
    exists t2, (processedCount (locals t2)). split.
    + eapply steps_trans; [exact Hsteps1|]. eapply steps_step; eassumption.
    + rewrite <- Hbuf. repeat split; congruence.
Qed.

Lemma files_in_turn (rest : list (string * list CsvRecord.t)) :
  forall (name : string) (records : list CsvRecord.t) (s : Main) (g0 : Globals),
    pendingFiles s = (name, records) :: rest ->
    phase s = Reading -> suspended s = [] -> locals s = newCall ->
    unread s = records ->
    globals s = log ("Processing " ++ name ++ "...") g0 ->
    exists t,
      steps pool loadedIndex s t /\ phase t = Exited /\ suspended t = [] /\
      globals t = filesInTurn pool loadedIndex ((name, records) :: rest) g0.
Proof.
  induction rest as [|[next records'] rest IH];
    intros name records s g0 Hfiles Hph Hsu Hloc Hun Hg.
  - destruct (file_in_turn records s Hph Hsu Hloc Hun)
      as (t1 & count & Hsteps1 & Hf1 & Hc1 & Hu1 & Hs1 & Hp1 & Hg1).
    exists (resume t1 count). split.
    + eapply steps_trans; [exact Hsteps1|]. apply steps_one. now constructor.
    + unfold resume. rewrite Hf1, Hfiles.
      cbn [phase suspended globals]. split; [reflexivity|]. split; [assumption|].
      unfold filesInTurn. cbn [fold_left fst snd]. rewrite <- Hg, <- Hg1. reflexivity.
  - destruct (file_in_turn records s Hph Hsu Hloc Hun)
      as (t1 & count & Hsteps1 & Hf1 & Hc1 & Hu1 & Hs1 & Hp1 & Hg1).
    pose proof (step_resume pool loadedIndex t1 count Hp1) as Hstep.
    destruct (IH next records' (resume t1 count)
                (log ("  ✓ Processed " ++ String_of_N count ++ " addresses from " ++ name)
                     (globals t1)))
      as (t & Hsteps & Hp & Hs & Hgt);
      try (unfold resume; rewrite Hf1, Hfiles; cbn; congruence).
    exists t. split.
    + eapply steps_trans; [exact Hsteps1|]. eapply steps_step; eassumption.
    + split; [assumption|]. split; [assumption|]. rewrite Hgt.
      unfold filesInTurn. cbn [fold_left fst snd]. rewrite <- Hg, <- Hg1. reflexivity.
Qed.

(** The run in which every chunk settles at once reaches the exit. *)
Lemma runInTurn_exits (addressFiles : list (string * list CsvRecord.t)) :
  exists s,
    runs pool loadedIndex addressFiles s /\ phase s = Exited /\
    globals s = runInTurn pool loadedIndex addressFiles.
Proof.
  destruct addressFiles as [|[name records] rest].
  - exists (start []). repeat split. apply steps_refl.
  - destruct (files_in_turn rest name records (start ((name, records) :: rest))
                (openNewOutputFile initialGlobals))
      as (t & Hsteps & Hp & _ & Hg); try reflexivity.
    exists t. repeat split; assumption.
Qed.

(** *** Small files leave no choice *)

(** In a state of the shape [inTurnShape] the only handler that can be
    suspended is the ['end'] handler of the current call. *)
Lemma inTurnShape_suspended (s : Main) (before after : list Suspended)
    (su : Suspended) :
  inTurnShape s -> suspended s = (before ++ su :: after)%list ->
  phase s = Ending /\ before = [] /\ after = [] /\
  isFinalOf (callNumber s) su = true.
Proof.
  intros [Hshape _] Hsu.
  destruct (phase s).
  - destruct Hshape as [Hnone _]. rewrite Hnone in Hsu.
    now destruct (app_cons_not_nil _ _ _ Hsu).
  - destruct Hshape as (su0 & Hone & Hfin). rewrite Hone in Hsu.
    destruct before as [|b [|b' before]]; try discriminate Hsu.
    injection Hsu as <- <-. auto.
  - rewrite Hshape in Hsu. now destruct (app_cons_not_nil _ _ _ Hsu).
  - rewrite Hshape in Hsu. now destruct (app_cons_not_nil _ _ _ Hsu).
Qed.

(** The step that a state of the shape [inTurnShape] can take. *)
Lemma inTurnShape_step (s s' : Main) :
  wellFormed s -> inTurnShape s -> step pool loadedIndex s s' -> inTurnShape s'.
Proof.
  intros Hwf [Hshape Hsmall] Hstep. unfold inTurnShape in *.
  destruct Hstep as [s record rest g run chunk Hph Hun Hrec
                    |s Hph Hun Hbuf
                    |s Hph Hun Hbuf
                    |s before after su results Hph Hsu Hst Hpool
                    |s before after su err Hph Hsu Hst Hpool
                    |s before after su Hph Hsu Hst
                    |s count Hph];
    cbn [phase unread pendingFiles callNumber suspended locals].
  - rewrite Hph in Hshape. destruct Hshape as [Hnone Hlen]. rewrite Hun in Hlen.
    split; [|assumption]. rewrite Hnone. cbn [app].
    destruct (onRecord_cases (globals s) (locals s) record)
      as [[Hinv Heq]|[Hinv (run' & chunk' & Heq & Hcount & Happ & Hchunk)]];
      rewrite Heq in Hrec; injection Hrec as <- <- <-.
    + unfold dispatched in *. cbn [filter] in Hlen. rewrite Hinv in Hlen.
      cbn [negb] in Hlen. now split.
    + unfold dispatched in *. cbn [filter] in Hlen. rewrite Hinv in Hlen.
      cbn [negb map List.length] in Hlen.
      apply (f_equal (@List.length _)) in Happ. rewrite !length_app in Happ.
      cbn [List.length] in Happ.
      destruct chunk' as [c|].
      * exfalso. destruct Hchunk as [Hnil Hfull]. rewrite Hnil in Happ.
        cbn [List.length] in Happ. lia.
      * cbn [List.length] in Happ. split; [reflexivity|]. lia.
  - rewrite Hph in Hshape. destruct Hshape as [Hnone _]. now split.
  - rewrite Hph in Hshape. destruct Hshape as [Hnone _]. split; [|assumption].
    rewrite Hnone. cbn [app]. eexists. split; [reflexivity|].
    unfold isFinalOf. cbn. now rewrite Nat.eqb_refl.
  - destruct (inTurnShape_suspended s before after su (conj Hshape Hsmall) Hsu)
      as (Hp & -> & -> & Hfin).
    split; [|assumption]. rewrite Hp. cbn [app]. eexists. split; [reflexivity|].
    exact Hfin.
  - destruct (inTurnShape_suspended s before after su (conj Hshape Hsmall) Hsu)
      as (Hp & -> & -> & Hfin).
    split; [|assumption]. unfold resolvedBy. rewrite Hfin. reflexivity.
  - destruct (inTurnShape_suspended s before after su (conj Hshape Hsmall) Hsu)
      as (Hp & -> & -> & Hfin).
    split; [|assumption]. unfold resolvedBy. rewrite Hfin. reflexivity.
  - rewrite Hph in Hshape. unfold resume.
    destruct (pendingFiles s) as [|[name recs] [|[next records] rest]] eqn:Hfiles;
      cbn [phase unread pendingFiles callNumber suspended locals tl] in *.
    + rewrite Hph, Hfiles. now split.
    + now split.
    + inversion Hsmall as [|? ? Hnext Hrest]; subst. cbn [snd] in Hnext.
      split; [|assumption]. split; [assumption|]. exact Hnext.
Qed.

Lemma inTurnShape_start (addressFiles : list (string * list CsvRecord.t)) :
  Forall (fun file => smallFile (snd file)) addressFiles ->
  inTurnShape (start addressFiles).
Proof.
  intros Hsmall. destruct addressFiles as [|[name records] rest]; unfold inTurnShape.
  - cbn. split; [reflexivity | constructor].
  - inversion Hsmall; subst. cbn. split; [split; [reflexivity | assumption] | assumption].
Qed.

(** In a state of that shape the next step is determined. *)
Lemma inTurnShape_deterministic (s s1 s2 : Main) :
  inTurnShape s -> step pool loadedIndex s s1 -> step pool loadedIndex s s2 -> s1 = s2.
Proof.
  intros Hshape H1 H2.
  assert (forall before after su,
             suspended s = (before ++ su :: after)%list -> phase s = Ending)
    as Hending
    by (intros before after su Hsu;
        now destruct (inTurnShape_suspended s before after su Hshape Hsu)).
  destruct H1 as [s record rest g run chunk Hph Hun Hrec
                 |s Hph Hun Hbuf
                 |s Hph Hun Hbuf
                 |s before after su results Hph Hsu Hst Hpool
                 |s before after su err Hph Hsu Hst Hpool
                 |s before after su Hph Hsu Hst
                 |s count Hph];
    inversion H2 as [? record' rest' g' run' chunk' Hph' Hun' Hrec'
                    |? Hph' Hun' Hbuf'
                    |? Hph' Hun' Hbuf'
                    |? before' after' su' results' Hph' Hsu' Hst' Hpool'
                    |? before' after' su' err' Hph' Hsu' Hst' Hpool'
                    |? before' after' su' Hph' Hsu' Hst'
                    |? count' Hph']; subst;
    try congruence;
    try (match goal with
         | H : suspended _ = (_ ++ _ :: _)%list |- _ =>
             pose proof (Hending _ _ _ H); congruence
         end).
  all: try (rewrite Hun in Hun'; injection Hun' as <- <-;
            rewrite Hrec in Hrec'; injection Hrec' as <- <- <-; reflexivity).
  all: destruct (inTurnShape_suspended s before after su Hshape Hsu)
         as (Hp & -> & -> & Hfin);
       destruct (inTurnShape_suspended s before' after' su' Hshape Hsu')
         as (_ & -> & -> & _);
       rewrite Hsu in Hsu'; injection Hsu' as <-; congruence.
Qed.

(** Two runs over small files that reach the exit end in the same state. *)
Lemma small_files_one_exit (s t1 t2 : Main) :
  wellFormed s -> inTurnShape s ->
  steps pool loadedIndex s t1 -> phase t1 = Exited ->
  steps pool loadedIndex s t2 -> phase t2 = Exited -> t1 = t2.
Proof.
  intros Hwf Hshape H1. revert t2 Hwf Hshape.
  induction H1 as [s|s s' t1 Hstep Hsteps IH]; intros t2 Hwf Hshape Hexit1 H2 Hexit2.
  - destruct H2 as [|s s' t2 Hstep _]; [reflexivity|].
    destruct (exited_is_final pool loadedIndex _ _ Hexit1 Hstep).
  - destruct H2 as [s|s s'' t2 Hstep' Hsteps'].
    + destruct (exited_is_final pool loadedIndex _ _ Hexit2 Hstep).
    + rewrite <- (inTurnShape_deterministic _ _ _ Hshape Hstep Hstep') in Hsteps'.
      apply IH; try assumption.
      * eapply wellFormed_step; eassumption.
      * eapply inTurnShape_step; eassumption.
Qed.

(** When no file holds CHUNK_SIZE valid rows, every run that reaches the exit
    ends as the run in which every chunk settles at once. *)
Lemma small_files_run_in_turn (addressFiles : list (string * list CsvRecord.t))
    (s : Main) :
  Forall (fun file => smallFile (snd file)) addressFiles ->
  runs pool loadedIndex addressFiles s -> phase s = Exited ->
  globals s = runInTurn pool loadedIndex addressFiles.
Proof.
  intros Hsmall Hruns Hexit.
  destruct (runInTurn_exits addressFiles) as (t & Hruns' & Hexit' & <-).
  f_equal. eapply small_files_one_exit; try eassumption.
  - apply wellFormed_start.
  - now apply inTurnShape_start.
Qed.

End InTurn.

(** *** Validated rows *)

Lemma writeResult_processed (g : Globals) (r : GeocodeResult.t) :
  totalProcessed (stats (writeResult g r)) = (totalProcessed (stats g) + 1)%N.
Proof.
  unfold writeResult, route, rotate.
  destruct (ROWS_PER_FILE <=? outputRowCount g)%N;
    destruct (truthy (GeocodeResult.census_tract_geoid r));
    destruct (truthy (GeocodeResult.error r)); reflexivity.
Qed.

Lemma writeResults_processed (rs : list GeocodeResult.t) (g : Globals) :
  totalProcessed (stats (writeResults g rs)) =
    (totalProcessed (stats g) + N.of_nat (List.length rs))%N.
Proof.
  unfold writeResults.
  set (g0 := match outputFile g with None => openNewOutputFile g | Some _ => g end).
  assert (totalProcessed (stats g0) = totalProcessed (stats g)) as <-
      by (subst g0; now destruct (outputFile g)).
  clearbody g0. revert g0.
  induction rs as [|r rs IH]; intros g0; cbn [fold_left List.length]; [lia|].
  rewrite IH, writeResult_processed. lia.
Qed.

(** The chunks of the handlers that pass a test, around one handler. *)
Lemma chunks_middle (p : Suspended -> bool) (before after : list Suspended)
    (su : Suspended) :
  flat_map su_chunk (filter p (before ++ su :: after)) =
  (flat_map su_chunk (filter p before) ++ (if p su then su_chunk su else []) ++
   flat_map su_chunk (filter p after))%list.
Proof.
  rewrite filter_app, flat_map_app. cbn [filter].
  destruct (p su); reflexivity.
Qed.

Lemma chunks_app (p : Suspended -> bool) (a b : list Suspended) :
  flat_map su_chunk (filter p (a ++ b)) =
  (flat_map su_chunk (filter p a) ++ flat_map su_chunk (filter p b))%list.
Proof. now rewrite filter_app, flat_map_app. Qed.

Lemma dispatched_cons {E : Externals} (record : CsvRecord.t)
    (records : list CsvRecord.t) :
  dispatched (record :: records) =
  if invalidRecord record then dispatched records
  else toAddress record :: dispatched records.
Proof. unfold dispatched. cbn [filter]. now destruct (invalidRecord record). Qed.

Lemma dispatched_app {E : Externals} (a b : list CsvRecord.t) :
  dispatched (a ++ b) = (dispatched a ++ dispatched b)%list.
Proof. unfold dispatched. now rewrite filter_app, map_app. Qed.


(** The ['end'] handler of the current call is suspended only while the call
    is ending. *)
Lemma final_only_while_ending (s : Main) (before after : list Suspended)
    (su : Suspended) :
  wellFormed s -> suspended s = (before ++ su :: after)%list ->
  isFinalOf (callNumber s) su = true -> phase s = Ending.
Proof.
  intros (_ & _ & _ & Hfinal) Hsu Hf. unfold finals in Hfinal.
  rewrite Hsu, count_filter_middle, Hf in Hfinal.
  destruct (phase s); try reflexivity; exfalso; lia.
Qed.

Lemma answersAll_answersEach (pool : Pool) : answersAll pool -> answersEach pool.
Proof.
  intros Hall input rs Hrs. destruct (Hall input) as (rs' & Hrs' & Hlen). congruence.
Qed.

Section Accounting.

Context {E : Externals}.
Variables (pool : Pool) (loadedIndex : SpatialIndex).
Hypothesis Heach : answersEach pool.

(** A step loses validated rows only when a call of the pool is rejected:
    then the rows of that chunk are accounted for no longer. *)
Lemma step_accounted (s s' : Main) :
  wellFormed s -> step pool loadedIndex s s' ->
  accounted s' = accounted s \/
  exists chunk err,
    pool (workerInput loadedIndex chunk) = inl err /\
    (accounted s' + N.of_nat (List.length chunk))%N = accounted s.
Proof.
  intros Hwf Hstep. pose proof Hwf as (Hunread & _).
  unfold accounted, awaited, buffered, unreadAll, validRows.
  destruct Hstep as [s record rest g run chunk Hph Hun Hrec
                    |s Hph Hun Hbuf
                    |s Hph Hun Hbuf
                    |s before after su results Hph Hsu Hst Hrun
                    |s before after su err Hph Hsu Hst Hrun
                    |s before after su Hph Hsu Hst
                    |s count Hph];
    cbn [globals unread pendingFiles suspended phase locals].
  - left. rewrite Hph, Hun. cbn [app]. rewrite dispatched_cons, chunks_app, length_app.
    destruct (onRecord_cases (globals s) (locals s) record)
      as [[Hinv Heq]|[Hinv (run' & chunk' & Heq & _ & Happ & Hchunk)]];
      rewrite Heq in Hrec; injection Hrec as <- <- <-; rewrite Hinv.
    + cbn [dispatchedBy filter flat_map List.length]. cbn. lia.
    + apply (f_equal (@List.length _)) in Happ. rewrite !length_app in Happ.
      cbn [List.length] in Happ.
      destruct chunk' as [c|]; cbn [dispatchedBy filter flat_map awaitsPool su_stage
                                      su_chunk List.length] in *.
      * rewrite app_nil_r. lia.
      * lia.
  - left. rewrite Hph, Hbuf, Hun. reflexivity.
  - left. rewrite Hph, Hun, chunks_app, length_app.
    cbn [filter flat_map awaitsPool su_stage su_chunk]. rewrite app_nil_r.
    cbn [List.length]. lia.
  - left.
    assert (awaitsPool su = true) as Hawaits by (unfold awaitsPool; now rewrite Hst).
    rewrite Hsu, !chunks_middle, !length_app, Hawaits.
    change (awaitsPool {| su_call := su_call su; su_final := su_final su;
                          su_chunk := su_chunk su; su_stage := AwaitingWrite |})
      with false.
    cbn [su_chunk List.length].
    rewrite writeResults_processed, (Heach _ _ Hrun). cbn [addresses workerInput]. lia.
  - right. exists (su_chunk su), err. split; [exact Hrun|].
    assert (awaitsPool su = true) as Hawaits by (unfold awaitsPool; now rewrite Hst).
    rewrite Hsu, chunks_middle, chunks_app, !length_app, Hawaits. cbn [stats log].
    destruct (resolvedBy_cases s su (locals s)) as [[Hf ->]|[Hf ->]]; [|lia].
    rewrite (final_only_while_ending s before after su Hwf Hsu Hf). lia.
  - left.
    assert (awaitsPool su = false) as Hawaits by (unfold awaitsPool; now rewrite Hst).
    rewrite Hsu, chunks_middle, chunks_app, !length_app, Hawaits. cbn [List.length].
    destruct (resolvedBy_cases s su (counted s su)) as [[Hf ->]|[Hf ->]];
      [|unfold counted; destruct (_ =? _)%nat; cbn [chunkBuffer]; lia].
    rewrite (final_only_while_ending s before after su Hwf Hsu Hf). lia.
  - left. pose proof (Hunread ltac:(congruence)) as Hu. rewrite Hph, Hu. unfold resume.
    destruct (pendingFiles s) as [|[name recs] [|[next records] rest]] eqn:Hfiles;
      cbn [globals unread pendingFiles suspended phase locals]; rewrite ?Hph, ?Hu, ?Hfiles;
      cbn [tl flat_map app snd stats log newCall chunkBuffer List.length];
      rewrite ?app_nil_r; reflexivity.
Qed.

Lemma accounted_start (addressFiles : list (string * list CsvRecord.t)) :
  accounted (start addressFiles) = validRows (flat_map snd addressFiles).
Proof. destruct addressFiles as [|[name records] rest]; reflexivity. Qed.

(** The rows counted as processed are validated rows. *)
Lemma runs_accounted_le (addressFiles : list (string * list CsvRecord.t)) (s : Main) :
  runs pool loadedIndex addressFiles s ->
  (accounted s <= validRows (flat_map snd addressFiles))%N.
Proof.
  intros Hruns.
  apply (steps_invariant pool loadedIndex
           (fun s => wellFormed s /\
                     (accounted s <= validRows (flat_map snd addressFiles))%N))
    with (s := start addressFiles) (t := s); [|exact Hruns|].
  - intros s1 s2 [Hwf Hle] Hstep.
    split; [eapply wellFormed_step; eassumption|].
    destruct (step_accounted s1 s2 Hwf Hstep) as [->|(chunk & err & _ & Heq)]; lia.
  - split; [apply wellFormed_start|]. rewrite accounted_start. lia.
Qed.


End Accounting.

(** C1 (as amended): in every state of every run, whatever the order in which
    the chunks settle, total processed = total matched + total unmatched; the
    rows rejected as invalid_coordinates before dispatch are counted in total
    errored only: total errored is the number of such rows among the records
    read so far, and at the exit the number of such rows in all files; and
    when the pool gives one result for each address, total processed is at
    most the number of rows that passed the validation. *)
Theorem counters_add_up {E : Externals} (pool : Pool) (loadedIndex : SpatialIndex)
    (addressFiles : list (string * list CsvRecord.t)) (s : Main) :
  runs pool loadedIndex addressFiles s ->
  let st := stats (globals s) in
  totalProcessed st = (totalMatched st + totalUnmatched st)%N /\
  (totalErrors st + invalidAmong (unreadAll s))%N = countInvalid addressFiles /\
  (phase s = Exited -> totalErrors st = countInvalid addressFiles) /\
  (answersEach pool ->
   (totalProcessed st <= validRows (flat_map snd addressFiles))%N).
Proof.
  intros Hruns. cbn zeta. split; [|split; [|split]].
  - destruct addressFiles as [|file rest].
    + unfold runs in Hruns. cbn [start] in Hruns.
      inversion Hruns as [|? s' ? Hstep _]; subst; [reflexivity|].
      exfalso. eapply (exited_is_final pool loadedIndex); [|exact Hstep]. reflexivity.
    + apply inv_stats, reachable_sink_inv.
      apply (runs_reachable pool loadedIndex (file :: rest)); [discriminate | assumption].
  - exact (runs_errors pool loadedIndex addressFiles s Hruns).
  - intros Hexit.
    pose proof (runs_errors pool loadedIndex addressFiles s Hruns) as Herr.
    destruct (runs_wellFormed pool loadedIndex addressFiles s Hruns)
      as (Hunread & Hfiles & _).
    unfold unreadAll in Herr. rewrite Hunread, (Hfiles Hexit) in Herr by congruence.
    cbn in Herr. lia.
  - intros Heach.
    pose proof (runs_accounted_le pool loadedIndex Heach addressFiles s Hruns) as Hle.
    unfold accounted in Hle. lia.
Qed.

Lemma workerPool_answersAll {E : Externals} : answersAll workerPool.
Proof.
  intros input. exists (processAddresses input). split; [reflexivity|].
  unfold processAddresses. destruct (rbush_load _); apply length_map.
Qed.

(** C1, witness: the run over one file whose only row has an unparseable
    latitude. *)
Lemma counters_add_up_witness :
  exists s,
    runs workerPool Example.squareIndex Example.oneInvalidRow s /\
    phase s = Exited /\
    let st := stats (globals s) in
    totalProcessed st = (totalMatched st + totalUnmatched st)%N /\
    totalErrors st = 1%N /\ (totalProcessed st <= 0)%N.
Proof.
  destruct (runInTurn_exits workerPool Example.squareIndex Example.oneInvalidRow)
    as (s & Hruns & Hexit & _).
  exists s. split; [exact Hruns|]. split; [exact Hexit|].
  destruct (counters_add_up workerPool Example.squareIndex Example.oneInvalidRow s Hruns)
    as (Hsum & _ & Herr & Hle).
  split; [exact Hsum|]. split; [exact (Herr Hexit)|].
  exact (Hle (answersAll_answersEach workerPool workerPool_answersAll)).
Defined.

(** C1, counterexample: one row with an unparseable latitude.  Every run
    exits with the same counters: the row is counted as errored and not as
    processed, so processed (0) differs from matched + unmatched + errored
    (1). *)
Lemma invalid_row_is_not_processed :
  exists s,
    runs workerPool Example.squareIndex Example.oneInvalidRow s /\
    phase s = Exited /\
    (let st := stats (globals s) in
     totalErrors st = 1%N /\ totalProcessed st = 0%N /\
     totalProcessed st <> (totalMatched st + totalUnmatched st + totalErrors st)%N) /\
    (forall t, runs workerPool Example.squareIndex Example.oneInvalidRow t ->
               phase t = Exited -> globals t = globals s).
Proof.
  assert (Forall (fun file => smallFile (snd file)) Example.oneInvalidRow) as Hsmall
      by (repeat constructor).
  destruct (runInTurn_exits workerPool Example.squareIndex Example.oneInvalidRow)
    as (s & Hruns & Hexit & Hg).
  exists s. split; [exact Hruns|]. split; [exact Hexit|]. split.
  - rewrite Hg. vm_compute. repeat split; discriminate.
  - intros t Ht Hexit'. rewrite Hg.
    now apply small_files_run_in_turn.
Qed.

(** C3 (the code at the failing input): the pool rejects the chunk of the
    first file.  Whatever the order of the events, the run exits with the
    two points of that chunk in no output row, in no row of the
    unmatched/error channel and in no counter; only the log holds the
    failure.  The chunk of the second file is processed. *)
Theorem failed_chunk_points_are_dropped (s : Main) :
  runs Example.flakyPool Example.squareIndex Example.twoChunks s ->
  phase s = Exited ->
  let g := globals s in
  stats g = {| totalProcessed := 1; totalMatched := 1;
               totalUnmatched := 0; totalErrors := 0 |} /\
  unmatchedStream g = [UNMATCHED_HEADER] /\
  map written (openedStreams g) = [[OUTPUT_HEADER; "2,00000000001" ++ newline]] /\
  In "✗ Error processing final chunk: Error: worker terminated" (logStream g).
Proof.
  intros Hruns Hexit. cbn zeta.
  rewrite (small_files_run_in_turn Example.flakyPool Example.squareIndex
             Example.twoChunks s);
    [|repeat constructor|assumption|assumption].
  vm_compute. repeat split. auto.
Qed.

(** C3, witness: the run in which every chunk settles at once reaches the
    exit. *)
Lemma failed_chunk_points_are_dropped_witness :
  exists s,
    runs Example.flakyPool Example.squareIndex Example.twoChunks s /\
    phase s = Exited /\
    stats (globals s) = {| totalProcessed := 1; totalMatched := 1;
                           totalUnmatched := 0; totalErrors := 0 |} /\
    unmatchedStream (globals s) = [UNMATCHED_HEADER] /\
    map written (openedStreams (globals s)) =
      [[OUTPUT_HEADER; "2,00000000001" ++ newline]] /\
    In "✗ Error processing final chunk: Error: worker terminated"
       (logStream (globals s)).
Proof.
  destruct (runInTurn_exits Example.flakyPool Example.squareIndex Example.twoChunks)
    as (s & Hruns & Hexit & _).
  exists s. split; [exact Hruns|]. split; [exact Hexit|].
  exact (failed_chunk_points_are_dropped s Hruns Hexit).
Defined.

(* ------------------------------------------------------------------ *)
(** * Further properties *)

(* ------------------------------------------------------------------ *)
(** ** More on bounding boxes *)

Lemma Math_min_cases (a b : number) : Math_min a b = a \/ Math_min a b = b.
Proof.
  unfold Math_min. destruct a, b; cbn; auto; destruct (Qltb _ _); auto.
Qed.

Lemma Math_max_cases (a b : number) : Math_max a b = a \/ Math_max a b = b.
Proof.
  unfold Math_max. destruct a, b; cbn; auto; destruct (Qltb _ _); auto.
Qed.

(** Each bound of a folded box is a bound of the start box or a coordinate. *)
Lemma fold_extend_attained (cs : list (number * number)) :
  forall b0 b1 b2 b3 a0 a1 a2 a3,
    fold_left extend cs (b0, b1, b2, b3) = (a0, a1, a2, a3) ->
    (a0 = b0 \/ exists c, In c cs /\ a0 = fst c) /\
    (a1 = b1 \/ exists c, In c cs /\ a1 = snd c) /\
    (a2 = b2 \/ exists c, In c cs /\ a2 = fst c) /\
    (a3 = b3 \/ exists c, In c cs /\ a3 = snd c).
Proof.
  induction cs as [|[x y] cs IH]; intros b0 b1 b2 b3 a0 a1 a2 a3; cbn [fold_left].
  - intros [= -> -> -> ->]. auto.
  - cbn [extend]. intros H. apply IH in H. destruct H as (H0 & H1 & H2 & H3).
    repeat split.
    + destruct H0 as [->|(c & Hc & ->)]; [|right; exists c; split; [now right|reflexivity]].
      destruct (Math_min_cases b0 x) as [->| ->]; [now left|].
      right. exists (x, y). split; [now left | reflexivity].
    + destruct H1 as [->|(c & Hc & ->)]; [|right; exists c; split; [now right|reflexivity]].
      destruct (Math_min_cases b1 y) as [->| ->]; [now left|].
      right. exists (x, y). split; [now left | reflexivity].
    + destruct H2 as [->|(c & Hc & ->)]; [|right; exists c; split; [now right|reflexivity]].
      destruct (Math_max_cases b2 x) as [->| ->]; [now left|].
      right. exists (x, y). split; [now left | reflexivity].
    + destruct H3 as [->|(c & Hc & ->)]; [|right; exists c; split; [now right|reflexivity]].
      destruct (Math_max_cases b3 y) as [->| ->]; [now left|].
      right. exists (x, y). split; [now left | reflexivity].
Qed.

(** X1: for a geometry with numeric coordinates and at least one coordinate
    pair, the box of [extractBounds] contains every pair, and each of its four
    bounds is the coordinate of some pair. *)
Theorem extractBounds_is_the_tight_box (g : GeoJSONGeometry)
    (a0 a1 a2 a3 : number) :
  numericGeometry g ->
  extractAllCoordinates g <> [] ->
  extractBounds g = (a0, a1, a2, a3) ->
  (forall c, In c (extractAllCoordinates g) ->
             (a0 <=? fst c)%js = true /\ (fst c <=? a2)%js = true /\
             (a1 <=? snd c)%js = true /\ (snd c <=? a3)%js = true) /\
  (exists c, In c (extractAllCoordinates g) /\ a0 = fst c) /\
  (exists c, In c (extractAllCoordinates g) /\ a1 = snd c) /\
  (exists c, In c (extractAllCoordinates g) /\ a2 = fst c) /\
  (exists c, In c (extractAllCoordinates g) /\ a3 = snd c).
Proof.
  intros Hnum Hne Hbox.
  destruct (extractBounds_facts g Hnum) as [_ Hcov]. rewrite Hbox in Hcov.
  split.
  - intros c Hc. destruct (Hcov c Hc) as (H0 & H1 & H2 & H3). auto.
  - unfold extractBounds in Hbox.
    destruct (extractAllCoordinates g) as [|[lon0 lat0] cs]; [congruence|].
    apply fold_extend_attained in Hbox. destruct Hbox as (H0 & H1 & H2 & H3).
    assert (In (lon0, lat0) ((lon0, lat0) :: cs)) as Hfirst by now left.
    repeat split.
    + destruct H0 as [->|H0]; [exists (lon0, lat0); now split | exact H0].
    + destruct H1 as [->|H1]; [exists (lon0, lat0); now split | exact H1].
    + destruct H2 as [->|H2]; [exists (lon0, lat0); now split | exact H2].
    + destruct H3 as [->|H3]; [exists (lon0, lat0); now split | exact H3].
Qed.

(** X1, witness: the unit square has the box [0, 0, 1, 1]. *)
Lemma extractBounds_is_the_tight_box_witness :
  exists c, In c (extractAllCoordinates Example.square) /\ num 1 = fst c.
Proof.
  destruct (extractBounds_is_the_tight_box Example.square
              (num 0) (num 0) (num 1) (num 1)) as (_ & _ & _ & H & _).
  - repeat constructor.
  - discriminate.
  - reflexivity.
  - exact H.
Defined.

(* ------------------------------------------------------------------ *)
(** ** NaN coordinates *)

Lemma isNaN_true (x : number) : isNaN x = true -> x = NaN.
Proof. destruct x; cbn; congruence. Qed.

Lemma Math_min_NaN_l (b : number) : Math_min NaN b = NaN.
Proof. reflexivity. Qed.

Lemma Math_min_NaN_r (a : number) : Math_min a NaN = NaN.
Proof. unfold Math_min. cbn. now rewrite orb_true_r. Qed.

Lemma Math_max_NaN_r (a : number) : Math_max a NaN = NaN.
Proof. unfold Math_max. cbn. now rewrite orb_true_r. Qed.

(** A NaN longitude, at the start or among the pairs, leaves a NaN [minX];
    likewise for latitudes and [minY]. *)
Lemma fold_extend_NaN (cs : list (number * number)) :
  forall b0 b1 b2 b3,
    (b0 = NaN \/ exists c, In c cs /\ fst c = NaN) ->
    fst (fst (fst (fold_left extend cs (b0, b1, b2, b3)))) = NaN.
Proof.
  induction cs as [|[x y] cs IH]; intros b0 b1 b2 b3 H; cbn [fold_left extend].
  - destruct H as [->|(c & [] & _)]. reflexivity.
  - apply IH. destruct H as [->|(c & [<-|Hc] & Hn)].
    + now left.
    + cbn [fst] in Hn. subst x. left. apply Math_min_NaN_r.
    + right. now exists c.
Qed.

Lemma fold_extend_NaN_lat (cs : list (number * number)) :
  forall b0 b1 b2 b3,
    (b1 = NaN \/ exists c, In c cs /\ snd c = NaN) ->
    snd (fst (fst (fold_left extend cs (b0, b1, b2, b3)))) = NaN.
Proof.
  induction cs as [|[x y] cs IH]; intros b0 b1 b2 b3 H; cbn [fold_left extend].
  - destruct H as [->|(c & [] & _)]. reflexivity.
  - apply IH. destruct H as [->|(c & [<-|Hc] & Hn)].
    + now left.
    + cbn [snd] in Hn. subst y. left. apply Math_min_NaN_r.
    + right. now exists c.
Qed.

Lemma extractBounds_NaN (g : GeoJSONGeometry) :
  (exists c, In c (extractAllCoordinates g) /\
             (isNaN (fst c) = true \/ isNaN (snd c) = true)) ->
  fst (fst (fst (extractBounds g))) = NaN \/ snd (fst (fst (extractBounds g))) = NaN.
Proof.
  intros (c & Hc & Hn). unfold extractBounds.
  destruct (extractAllCoordinates g) as [|[lon0 lat0] cs]; [destruct Hc|].
  destruct Hn as [Hn|Hn]; apply isNaN_true in Hn.
  - left. apply fold_extend_NaN. right. now exists c.
  - right. apply fold_extend_NaN_lat. right. now exists c.
Qed.

Lemma intersects_NaN_box (q : SearchBox) (it : RBushItem) :
  minX it = NaN \/ minY it = NaN -> intersects q it = false.
Proof.
  unfold intersects. intros [H|H]; rewrite H; cbn [JS.le andb]; [reflexivity|].
  now rewrite andb_false_r.
Qed.

Section TestedEvents.

Context {E : Externals}.

Lemma testCandidates_tested (ts : list CensusTract) (pt : number * number)
    (candidates : list RBushItem) (k : nat) :
  In (Tested k) (fst (testCandidates ts pt candidates)) ->
  exists it, In it candidates /\ id it = k.
Proof.
  induction candidates as [|item rest IH]; cbn [testCandidates].
  - intros [].
  - destruct (nth_error ts (id item)) as [t|]; [|intros []].
    destruct (booleanPointInPolygon pt (geometry t)) as [msg|[|]].
    + destruct (testCandidates ts pt rest) as [ev r]. cbn [fst] in *.
      intros [[= <-]|[[=]|H]].
      * exists item. split; [now left | reflexivity].
      * destruct (IH H) as (it & Hit & Hid). exists it. split; [now right | exact Hid].
    + cbn [fst]. intros [[= <-]|[]]. exists item. split; [now left | reflexivity].
    + destruct (testCandidates ts pt rest) as [ev r]. cbn [fst] in *.
      intros [[= <-]|H].
      * exists item. split; [now left | reflexivity].
      * destruct (IH H) as (it & Hit & Hid). exists it. split; [now right | exact Hid].
Qed.

Lemma findTractForPoint_tested (lat lon : number) (spatialIndex : SpatialIndex)
    (k : nat) :
  In (Tested k) (fst (findTractForPoint lat lon spatialIndex)) ->
  exists it,
    In it (rbush_search (index spatialIndex)
             {| q_minX := lon; q_minY := lat; q_maxX := lon; q_maxY := lat |}) /\
    id it = k.
Proof.
  unfold findTractForPoint.
  destruct (_ || _ || _ || _); [intros []|].
  destruct (bbox spatialIndex) as [[[b0 b1] b2] b3].
  destruct (_ || _ || _ || _); [intros []|].
  destruct (point (lon, lat)) as [msg|pt]; [intros [[=]|[]]|].
  destruct (testCandidates _ _ _) as [ev r] eqn:Htest. cbn [fst].
  intros [[=]|H].
  apply (testCandidates_tested (tracts spatialIndex) pt).
  now rewrite Htest.
Qed.

End TestedEvents.

(** X2: a loaded tract with a NaN among its coordinates is never tested: its
    bounding box holds a NaN, so its item intersects no search box and is no
    candidate for any point. *)
Theorem tract_with_NaN_coordinate_is_never_tested {E : Externals} (data : DataDir)
    (console : list ConsoleEvent) (idx : SpatialIndex) (i : nat) (P : CensusTract)
    (lat lon : number) :
  loadCensusTractShapefiles data = (console, inr idx) ->
  nth_error (tracts idx) i = Some P ->
  (exists c, In c (extractAllCoordinates (geometry P)) /\
             (isNaN (fst c) = true \/ isNaN (snd c) = true)) ->
  ~ In (Tested i) (fst (findTractForPoint lat lon idx)).
Proof.
  intros Hload HP Hnan Htested.
  destruct (load_returns data Hload) as (dirs & _ & _ & _ & Hitems & Hix).
  destruct (findTractForPoint_tested _ _ _ _ Htested) as (it & Hit & Hid).
  apply (rbush_search_sound _ _ _ _ Hix) in Hit. destruct Hit as [Hin Hq].
  rewrite Hitems in Hin.
  destruct (buildItems_In _ _ _ Hin) as (k & t & Hk & Hid' & Hbox).
  cbn [Nat.add] in Hid'. rewrite Hid in Hid'. subst k.
  rewrite HP in Hk. injection Hk as <-.
  apply extractBounds_NaN in Hnan. rewrite <- Hbox in Hnan. cbn [fst snd] in Hnan.
  rewrite (intersects_NaN_box _ _ Hnan) in Hq. discriminate.
Qed.

(** X2, witness: the square with a NaN vertex, queried at its centre. *)
Lemma tract_with_NaN_coordinate_is_never_tested_witness :
  ~ In (Tested 0)
       (fst (findTractForPoint (num 0.5) (num 0.5) (Sample.loaded Sample.nanData))).
Proof.
  apply (@tract_with_NaN_coordinate_is_never_tested referenceExternals
           Sample.nanData
           (fst (loadCensusTractShapefiles Sample.nanData))
           (Sample.loaded Sample.nanData) 0%nat
           {| geoid := "00000000004"; geometry := Sample.nanSquare |}).
  - reflexivity.
  - reflexivity.
  - exists (NaN, num 1). split; [right; now left | now left].
Defined.

(* ------------------------------------------------------------------ *)
(** ** The global bounding box *)

Lemma squareData_loads :
  loadCensusTractShapefiles Example.squareData =
  (fst (loadCensusTractShapefiles Example.squareData), inr Example.squareIndex).
Proof. reflexivity. Qed.

(** X3: after a load whose polygons all have numeric coordinates, the global
    bounding box of the index contains every coordinate pair of every loaded
    tract. *)
Theorem global_bbox_contains_every_tract {E : Externals} (data : DataDir)
    (console : list ConsoleEvent) (idx : SpatialIndex) (t : CensusTract)
    (c : number * number) :
  loadCensusTractShapefiles data = (console, inr idx) ->
  numericTracts (tracts idx) ->
  In t (tracts idx) -> In c (extractAllCoordinates (geometry t)) ->
  covers (bbox idx) c.
Proof.
  intros Hload Hnum Ht Hc.
  destruct (load_returns data Hload) as (dirs & _ & Htr & Hbb & _).
  assert (boxCoversTracts (fold_left loadState dirs initialLoadState)) as [_ Hbox].
  { apply fold_loadState_box; [apply initial_box | now rewrite <- Htr]. }
  rewrite Hbb. apply (Hbox t c); [now rewrite <- Htr | exact Hc].
Qed.

(** X3, witness: the far corner of the unit square. *)
Lemma global_bbox_contains_every_tract_witness :
  covers (bbox Example.squareIndex) (num 1, num 1).
Proof.
  apply (@global_bbox_contains_every_tract referenceExternals Example.squareData
           (fst (loadCensusTractShapefiles Example.squareData)) Example.squareIndex
           {| geoid := "00000000001"; geometry := Example.square |}).
  - reflexivity.
  - repeat constructor.
  - now left.
  - right; right; now left.
Defined.

(** X4: the quick bounds check loses no polygon.  After a load whose polygons
    all have numeric coordinates, a point that the check rejects lies within
    the coordinate extent of no loaded tract. *)
Theorem quick_bounds_check_is_conservative {E : Externals} (data : DataDir)
    (console : list ConsoleEvent) (idx : SpatialIndex) (lat lon : number)
    (t : CensusTract) :
  loadCensusTractShapefiles data = (console, inr idx) ->
  numericTracts (tracts idx) ->
  (let '(bbox0, bbox1, bbox2, bbox3) := bbox idx in
   (lon <? bbox0)%js || (lon >? bbox2)%js ||
   (lat <? bbox1)%js || (lat >? bbox3)%js) = true ->
  In t (tracts idx) ->
  ~ withinExtent (extractAllCoordinates (geometry t)) lon lat.
Proof.
  intros Hload Hnum Hout Ht Hext.
  destruct (load_returns data Hload) as (dirs & _ & Htr & Hbb & _).
  assert (boxCoversTracts (fold_left loadState dirs initialLoadState)) as [_ Hbox].
  { apply fold_loadState_box; [apply initial_box | now rewrite <- Htr]. }
  rewrite <- Htr, <- Hbb in Hbox.
  destruct Hext as ((c1 & Hc1 & Hx1) & (c2 & Hc2 & Hx2) & (c3 & Hc3 & Hy1) & (c4 & Hc4 & Hy2)).
  pose proof (Hbox _ _ Ht Hc1) as G1. pose proof (Hbox _ _ Ht Hc2) as G2.
  pose proof (Hbox _ _ Ht Hc3) as G3. pose proof (Hbox _ _ Ht Hc4) as G4.
  destruct (bbox idx) as [[[b0 b1] b2] b3].
  destruct G1 as (G1 & _), G2 as (_ & _ & G2 & _), G3 as (_ & G3 & _),
           G4 as (_ & _ & _ & G4).
  rewrite (le_not_lt _ _ (le_trans _ _ _ G1 Hx1)),
          (le_not_gt _ _ (le_trans _ _ _ Hx2 G2)),
          (le_not_lt _ _ (le_trans _ _ _ G3 Hy1)),
          (le_not_gt _ _ (le_trans _ _ _ Hy2 G4)) in Hout.
  discriminate.
Qed.

(** X4, witness: the point (2, 2) against the unit square. *)
Lemma quick_bounds_check_is_conservative_witness :
  ~ withinExtent (extractAllCoordinates Example.square) (num 2) (num 2).
Proof.
  apply (@quick_bounds_check_is_conservative referenceExternals Example.squareData
           (fst (loadCensusTractShapefiles Example.squareData)) Example.squareIndex
           (num 2) (num 2) {| geoid := "00000000001"; geometry := Example.square |}).
  - reflexivity.
  - repeat constructor.
  - reflexivity.
  - now left.
Defined.

(* ------------------------------------------------------------------ *)
(** ** Items and tracts *)

Lemma buildItems_length (ts : list CensusTract) :
  forall i, List.length (buildItems i ts) = List.length ts.
Proof.
  induction ts as [|t ts IH]; intros i; cbn [buildItems]; [reflexivity|].
  destruct (extractBounds (geometry t)) as [[[a b] c] d]. cbn [List.length].
  now rewrite IH.
Qed.

(** X5: in a loaded index the items and the tracts go by position: there are
    as many items as tracts, and the item at position [k] has the handle [k]
    and the bounding box of the tract at position [k]. *)
Theorem item_handle_is_tract_position {E : Externals} (data : DataDir)
    (console : list ConsoleEvent) (idx : SpatialIndex) :
  loadCensusTractShapefiles data = (console, inr idx) ->
  List.length (items idx) = List.length (tracts idx) /\
  tracts idx <> [] /\
  forall k it,
    nth_error (items idx) k = Some it ->
    id it = k /\
    exists t, nth_error (tracts idx) k = Some t /\
              (minX it, minY it, maxX it, maxY it) = extractBounds (geometry t).
Proof.
  intros Hload.
  assert (tracts idx <> []) as Hne.
  { revert Hload. unfold loadCensusTractShapefiles.
    destruct data as [msg|dirs]; [discriminate|].
    destruct (ls_tracts (fold_left loadState dirs initialLoadState)) eqn:Hts;
      [discriminate|].
    cbn [say ls_tracts ls_bbox ls_console]. rewrite Hts.
    destruct (rbush_load _); [discriminate|]. intros [= _ <-]. cbn [tracts].
    discriminate. }
  destruct (load_returns data Hload) as (dirs & _ & _ & _ & Hitems & _).
  rewrite Hitems. split; [apply buildItems_length | split; [exact Hne|]].
  intros k it Hk.
  destruct (nth_error (tracts idx) k) as [t|] eqn:Ht.
  - rewrite (buildItems_nth (tracts idx) 0 k Ht) in Hk.
    destruct (extractBounds (geometry t)) as [[[a b] c] d] eqn:Hb.
    injection Hk as <-. cbn. split; [reflexivity|]. exists t. now rewrite Hb.
  - apply nth_error_None in Ht. rewrite <- (buildItems_length _ 0) in Ht.
    apply nth_error_None in Ht. congruence.
Qed.

(** X5, witness: the index of the unit square. *)
Lemma item_handle_is_tract_position_witness :
  List.length (items Example.squareIndex) = List.length (tracts Example.squareIndex).
Proof.
  destruct (@item_handle_is_tract_position referenceExternals Example.squareData
              (fst (loadCensusTractShapefiles Example.squareData)) Example.squareIndex
              squareData_loads) as [H _].
  exact H.
Defined.

(* ------------------------------------------------------------------ *)
(** ** What a match means *)

Section CandidateLoop.

Context {E : Externals}.

Lemma testCandidates_no_throw (ts : list CensusTract) (pt : number * number)
    (candidates : list RBushItem) :
  (forall it, In it candidates -> exists t, nth_error ts (id it) = Some t) ->
  exists r, snd (testCandidates ts pt candidates) = Returned r.
Proof.
  induction candidates as [|item rest IH]; intros Hvalid; cbn [testCandidates].
  - now exists None.
  - destruct (Hvalid item (or_introl eq_refl)) as (t & ->).
    destruct IH as (r & Hr); [intros it Hit; apply Hvalid; now right|].
    destruct (booleanPointInPolygon pt (geometry t)) as [msg|[|]].
    + destruct (testCandidates ts pt rest) as [ev r']. now exists r.
    + now exists (Some (geoid t)).
    + destruct (testCandidates ts pt rest) as [ev r']. now exists r.
Qed.

Lemma testCandidates_none (ts : list CensusTract) (pt : number * number)
    (candidates : list RBushItem) :
  (forall it, In it candidates -> exists t, nth_error ts (id it) = Some t) ->
  (forall t, In t ts -> booleanPointInPolygon pt (geometry t) <> inr true) ->
  snd (testCandidates ts pt candidates) = Returned None.
Proof.
  induction candidates as [|item rest IH]; intros Hvalid Hno; cbn [testCandidates].
  - reflexivity.
  - destruct (Hvalid item (or_introl eq_refl)) as (t & Ht). rewrite Ht.
    specialize (IH (fun it Hit => Hvalid it (or_intror Hit)) Hno).
    pose proof (Hno t (nth_error_In _ _ Ht)) as Hpip.
    destruct (booleanPointInPolygon pt (geometry t)) as [msg|[|]].
    + now destruct (testCandidates ts pt rest).
    + congruence.
    + now destruct (testCandidates ts pt rest).
Qed.

(** The candidates of a loaded index refer to loaded tracts. *)
Lemma loaded_candidates_valid (data : DataDir) (console : list ConsoleEvent)
    (idx : SpatialIndex) (q : SearchBox) :
  loadCensusTractShapefiles data = (console, inr idx) ->
  forall it, In it (rbush_search (index idx) q) ->
             exists t, nth_error (tracts idx) (id it) = Some t.
Proof.
  intros Hload it Hit.
  destruct (load_returns data Hload) as (dirs & _ & _ & _ & Hitems & Hix).
  apply (rbush_search_sound _ _ _ _ Hix) in Hit. destruct Hit as [Hit _].
  rewrite Hitems in Hit.
  destruct (buildItems_In _ _ _ Hit) as (k & t & Hk & Hid & _).
  exists t. now rewrite Hid.
Qed.

(** With handles in range, a point with numeric coordinates gets an answer. *)
Lemma findTractForPoint_total (idx : SpatialIndex) (lat lon : number) :
  (forall q it, In it (rbush_search (index idx) q) ->
                exists t, nth_error (tracts idx) (id it) = Some t) ->
  isNaN lat = false -> isNaN lon = false ->
  exists r, snd (findTractForPoint lat lon idx) = Returned r.
Proof.
  intros Hvalid Hlat Hlon. unfold findTractForPoint.
  destruct (_ || _ || _ || _); [now exists None|].
  destruct (bbox idx) as [[[b0 b1] b2] b3].
  destruct (_ || _ || _ || _); [now exists None|].
  rewrite (point_numeric _ _ Hlon Hlat).
  match goal with
  | |- context [testCandidates ?ts ?pt ?cands] =>
      destruct (testCandidates_no_throw ts pt cands) as (r & Hr);
      [apply Hvalid|];
      destruct (testCandidates ts pt cands) as [ev r']
  end.
  now exists r.
Qed.

End CandidateLoop.

(** X6: an identifier returned against a loaded index is the identifier of a
    loaded tract that passed the containment test at the point and whose
    bounding box contains the point; the point has a latitude in [-90, 90]
    and a longitude in [-180, 180]. *)
Theorem returned_tract_contains_the_point {E : Externals} (data : DataDir)
    (console : list ConsoleEvent) (idx : SpatialIndex) (lat lon : number)
    (events : list MatchEvent) (g : string) :
  loadCensusTractShapefiles data = (console, inr idx) ->
  findTractForPoint lat lon idx = (events, Returned (Some g)) ->
  exists k t pt,
    nth_error (tracts idx) k = Some t /\ geoid t = g /\
    point (lon, lat) = inr pt /\
    booleanPointInPolygon pt (geometry t) = inr true /\
    (let '(a0, a1, a2, a3) := extractBounds (geometry t) in
     (a0 <=? lon)%js = true /\ (lon <=? a2)%js = true /\
     (a1 <=? lat)%js = true /\ (lat <=? a3)%js = true) /\
    (num (-90) <=? lat)%js = true /\ (lat <=? num 90)%js = true /\
    (num (-180) <=? lon)%js = true /\ (lon <=? num 180)%js = true.
Proof.
  intros Hload. unfold findTractForPoint.
  destruct ((lat <? num (-90))%js || (lat >? num 90)%js ||
            (lon <? num (-180))%js || (lon >? num 180)%js) eqn:Hrange;
    [discriminate|].
  apply orb_false_elim in Hrange. destruct Hrange as [Hrange R4].
  apply orb_false_elim in Hrange. destruct Hrange as [Hrange R3].
  apply orb_false_elim in Hrange. destruct Hrange as [R1 R2].
  destruct (bbox idx) as [[[b0 b1] b2] b3].
  destruct (_ || _ || _ || _); [discriminate|].
  destruct (point (lon, lat)) as [msg|pt] eqn:Hpt; [intros [=]|].
  destruct (testCandidates _ _ _) as [ev r] eqn:Htest. intros [= _ ->].
  destruct (testCandidates_returns _ _ _ Htest) as (item & t & Hin & Ht & Hg & Hpip).
  destruct (load_returns data Hload) as (dirs & _ & _ & _ & Hitems & Hix).
  apply (rbush_search_sound _ _ _ _ Hix) in Hin. destruct Hin as [Hin Hq].
  rewrite Hitems in Hin.
  destruct (buildItems_In _ _ _ Hin) as (k & t' & Hk & Hid & Hbox).
  cbn [Nat.add] in Hid. rewrite Hid in Ht. rewrite Hk in Ht. injection Ht as ->.
  unfold intersects, JS.ge in Hq.
  cbn [q_minX q_minY q_maxX q_maxY] in Hq.
  apply andb_prop in Hq. destruct Hq as [Hq Hq4].
  apply andb_prop in Hq. destruct Hq as [Hq Hq3].
  apply andb_prop in Hq. destruct Hq as [Hq1 Hq2].
  destruct (le_numeric _ _ Hq1) as [_ Hlon]. destruct (le_numeric _ _ Hq2) as [_ Hlat].
  exists k, t, pt. repeat split; try assumption.
  - rewrite <- Hbox. auto.
  - now apply lt_le_total.
  - now apply lt_le_total.
  - now apply lt_le_total.
  - now apply lt_le_total.
Qed.

(** X6, witness: the centre of the unit square. *)
Lemma returned_tract_contains_the_point_witness :
  exists k t pt,
    nth_error (tracts Example.squareIndex) k = Some t /\ geoid t = "00000000001" /\
    point (num 0.5, num 0.5) = inr pt /\
    booleanPointInPolygon pt (geometry t) = inr true.
Proof.
  assert (findTractForPoint (num 0.5) (num 0.5) Example.squareIndex =
          (fst (findTractForPoint (num 0.5) (num 0.5) Example.squareIndex),
           Returned (Some "00000000001"))) as Hfind by reflexivity.
  destruct (returned_tract_contains_the_point _ _ _ _ _ _ _ squareData_loads Hfind)
    as (k & t & pt & H1 & H2 & H3 & H4 & _).
  exists k, t, pt. auto.
Defined.

(** X7: against a loaded index, [findTractForPoint] never throws for a point
    whose coordinates are numbers: the handle of every candidate refers to a
    loaded tract. *)
Theorem findTractForPoint_never_throws {E : Externals} (data : DataDir)
    (console : list ConsoleEvent) (idx : SpatialIndex) (lat lon : number) :
  loadCensusTractShapefiles data = (console, inr idx) ->
  isNaN lat = false -> isNaN lon = false ->
  exists r, snd (findTractForPoint lat lon idx) = Returned r.
Proof.
  intros Hload. apply findTractForPoint_total.
  intros q. apply (loaded_candidates_valid _ _ _ q Hload).
Qed.

(** X7, witness: a point of the unit square's edge. *)
Lemma findTractForPoint_never_throws_witness :
  exists r, snd (findTractForPoint (num 0.5) (num 1) Example.squareIndex) = Returned r.
Proof.
  apply (@findTractForPoint_never_throws referenceExternals _ _ _ (num 0.5) (num 1)
           squareData_loads); reflexivity.
Defined.

(** X8: against a loaded index, a point with numeric coordinates that passes
    the containment test of no loaded tract gets null. *)
Theorem point_in_no_tract_gets_null {E : Externals} (data : DataDir)
    (console : list ConsoleEvent) (idx : SpatialIndex) (lat lon : number) :
  loadCensusTractShapefiles data = (console, inr idx) ->
  isNaN lat = false -> isNaN lon = false ->
  (forall t, In t (tracts idx) ->
             booleanPointInPolygon (lon, lat) (geometry t) <> inr true) ->
  snd (findTractForPoint lat lon idx) = Returned None.
Proof.
  intros Hload Hlat Hlon Hno. unfold findTractForPoint.
  destruct (_ || _ || _ || _); [reflexivity|].
  destruct (bbox idx) as [[[b0 b1] b2] b3].
  destruct (_ || _ || _ || _); [reflexivity|].
  rewrite (point_numeric _ _ Hlon Hlat).
  match goal with
  | |- context [testCandidates ?ts ?pt ?cands] =>
      pose proof (testCandidates_none ts pt cands
                    (loaded_candidates_valid _ _ _ _ Hload) Hno) as Hr;
      destruct (testCandidates ts pt cands) as [ev r']
  end.
  exact Hr.
Qed.

(** X8, witness: the point (2, 2) against the unit square. *)
Lemma point_in_no_tract_gets_null_witness :
  snd (findTractForPoint (num 2) (num 2) Example.squareIndex) = Returned None.
Proof.
  apply (@point_in_no_tract_gets_null referenceExternals _ _ _ (num 2) (num 2)
           squareData_loads); try reflexivity.
  intros t [<-|[]]. discriminate.
Defined.

(* ------------------------------------------------------------------ *)
(** ** Where loaded tracts come from *)

Lemma detectGeoidField_known (props : list (string * string)) (field : string) :
  detectGeoidField props = Some field -> In field GEOID_FIELDS.
Proof.
  unfold detectGeoidField. intros H. apply find_some in H. destruct H as [_ H].
  apply existsb_exists in H. destruct H as (k & Hk & Heq).
  apply String.eqb_eq in Heq. now subst.
Qed.

Lemma readFeatures_provenance (dirName : string) (reads : list ReadResult) :
  forall (geoidField : option string) (n : N) (st : LoadState) (t : CensusTract),
    (forall k, geoidField = Some k -> In k GEOID_FIELDS) ->
    In t (ls_tracts (fst (readFeatures dirName reads geoidField n st))) ->
    In t (ls_tracts st) \/ exists f, In (ReadValue f) reads /\ fromFeature t f.
Proof.
  induction reads as [|[f|msg] rest IH]; intros geoidField n st t Hknown;
    cbn [readFeatures].
  - now left.
  - destruct (match geoidField with
              | Some k => Some k
              | None => detectGeoidField (Feature.properties f)
              end) as [field|] eqn:Hfield.
    + assert (In field GEOID_FIELDS) as Hin.
      { destruct geoidField as [k|].
        - injection Hfield as <-. now apply Hknown.
        - now apply detectGeoidField_known in Hfield. }
      assert (forall k, Some field = Some k -> In k GEOID_FIELDS) as Hknown'
          by (now intros k [= <-]).
      destruct (geoid_re_test (propertyString (Feature.properties f) field));
        cbn [negb]; intros Ht; apply (IH _ _ _ _ Hknown') in Ht.
      * cbn [ls_tracts] in Ht. destruct Ht as [Ht|(f' & Hf' & Hfrom)].
        -- apply in_app_or in Ht. destruct Ht as [Ht|[<-|[]]].
           ++ now left.
           ++ right. exists f. split; [now left|]. split; [reflexivity|].
              exists field. now split.
        -- right. exists f'. split; [now right | assumption].
      * cbn [say ls_tracts] in Ht. destruct Ht as [Ht|(f' & Hf' & Hfrom)].
        -- now left.
        -- right. exists f'. split; [now right | assumption].
    + cbn [fst say ls_tracts]. now left.
  - cbn [fst]. now left.
Qed.

Lemma loadState_provenance (st : LoadState) (dir : Dirent) (t : CensusTract) :
  In t (ls_tracts (loadState st dir)) -> In t (ls_tracts st) \/ fromDirectory t dir.
Proof.
  unfold loadState, fromDirectory.
  destruct (isDirectory dir); cbn [negb orb]; [|now left].
  destruct (prefix "state_" (name dir)); cbn [negb]; [|now left].
  destruct (shpFile dir) as [file|]; [|now left].
  destruct (source dir) as [msg|reads]; [now left|].
  match goal with
  | |- context [readFeatures ?d ?r ?fd ?m ?s] =>
      pose proof (readFeatures_provenance d r fd m s t) as Hp;
      destruct (readFeatures d r fd m s) as [st' [msg|n]]
  end; cbn [fst say ls_tracts] in *; intros Ht;
    (destruct Hp as [Hp|(f & Hf & Hfrom)]; [discriminate | assumption | now left |]);
    right; repeat split; try discriminate; exists reads, f; auto.
Qed.

Lemma fold_loadState_provenance (dirs : list Dirent) (st : LoadState) (t : CensusTract) :
  In t (ls_tracts (fold_left loadState dirs st)) ->
  In t (ls_tracts st) \/ exists dir, In dir dirs /\ fromDirectory t dir.
Proof.
  revert st. induction dirs as [|d dirs IH]; intros st; cbn [fold_left].
  - now left.
  - intros Ht. apply IH in Ht. destruct Ht as [Ht|(dir & Hdir & Hfrom)].
    + apply loadState_provenance in Ht. destruct Ht as [Ht|Hfrom]; [now left|].
      right. exists d. split; [now left | assumption].
    + right. exists dir. split; [now right | assumption].
Qed.

(** X9: every tract of a loaded index was read from the shapefile of a
    directory entry named [state_...]: its geometry is that of a feature read
    from it and its identifier is the feature's value of one of the fields
    GEOID, GEOID20 and geoid.  Files and other directories contribute
    nothing. *)
Theorem loaded_tract_comes_from_a_state_directory {E : Externals} (data : DataDir)
    (console : list ConsoleEvent) (idx : SpatialIndex) (t : CensusTract) :
  loadCensusTractShapefiles data = (console, inr idx) ->
  In t (tracts idx) ->
  exists dirs dir,
    data = Entries dirs /\ In dir dirs /\ fromDirectory t dir.
Proof.
  intros Hload Ht.
  destruct (load_returns data Hload) as (dirs & -> & Hts & _).
  rewrite Hts in Ht. apply fold_loadState_provenance in Ht.
  destruct Ht as [[]|(dir & Hdir & Hfrom)].
  exists dirs, dir. auto.
Qed.

(** X9, witness: the tract of the unit square. *)
Lemma loaded_tract_comes_from_a_state_directory_witness :
  exists dirs dir,
    Example.squareData = Entries dirs /\ In dir dirs /\
    fromDirectory {| geoid := "00000000001"; geometry := Example.square |} dir.
Proof.
  apply (@loaded_tract_comes_from_a_state_directory referenceExternals
           Example.squareData _ Example.squareIndex _ squareData_loads).
  now left.
Defined.

(* ------------------------------------------------------------------ *)
(** ** Read errors and skipped entries *)

Lemma readFeatures_cut (dirName : string) (pre : list ReadResult) (msg : string)
    (post : list ReadResult) :
  forall (geoidField : option string) (n : N) (st : LoadState),
    fst (readFeatures dirName (pre ++ ReadThrows msg :: post)%list geoidField n st) =
    fst (readFeatures dirName pre geoidField n st).
Proof.
  induction pre as [|[f|m] rest IH]; intros geoidField n st;
    cbn [readFeatures app]; [reflexivity| |reflexivity].
  destruct (match geoidField with
            | Some k => Some k
            | None => detectGeoidField (Feature.properties f)
            end) as [field|]; [|reflexivity].
  destruct (negb (geoid_re_test (propertyString (Feature.properties f) field)));
    apply IH.
Qed.

(** X10: a shapefile whose read fails part-way contributes what it would
    have contributed had it ended there: the tracts read before the failure
    stay loaded, the bounding box keeps their coordinates, and nothing after
    the failure is read. *)
Theorem read_error_keeps_the_tracts_before_it (st : LoadState) (dirName : string)
    (isDir : bool) (shp : option string) (pre : list ReadResult) (msg : string)
    (post : list ReadResult) :
  sameLoad
    (loadState st {| name := dirName; isDirectory := isDir; shpFile := shp;
                     source := Opened (pre ++ ReadThrows msg :: post)%list |})
    (loadState st {| name := dirName; isDirectory := isDir; shpFile := shp;
                     source := Opened pre |}).
Proof.
  unfold loadState, sameLoad. cbn [name isDirectory shpFile source].
  destruct (negb isDir || negb (prefix "state_" dirName)); [now split|].
  destruct shp as [file|]; [|now split].
  match goal with
  | |- context [readFeatures ?d (pre ++ ?x)%list ?fd ?m ?s] =>
      pose proof (readFeatures_cut d pre msg post fd m s) as Hcut;
      destruct (readFeatures d (pre ++ x)%list fd m s) as [st1 r1];
      destruct (readFeatures d pre fd m s) as [st2 r2]
  end.
  cbn [fst] in Hcut. subst st2.
  destruct r1, r2; cbn [say ls_tracts ls_bbox]; now split.
Qed.

Lemma fold_loadState_skips (dirs : list Dirent) (st : LoadState) :
  (forall d, In d dirs ->
             isDirectory d = false \/ prefix "state_" (name d) = false \/
             shpFile d = None) ->
  fold_left loadState dirs st = st.
Proof.
  revert st. induction dirs as [|d dirs IH]; intros st Hskip; cbn [fold_left];
    [reflexivity|].
  assert (loadState st d = st) as ->.
  { unfold loadState.
    destruct (Hskip d (or_introl eq_refl)) as [-> | [-> | ->]]; cbn [negb orb].
    - reflexivity.
    - now rewrite orb_true_r.
    - now destruct (_ || _). }
  apply IH. intros d' Hd'. apply Hskip. now right.
Qed.

(** X11: when no entry of the data directory is a directory named
    [state_...] holding a [.shp] file, the load prints its first line only
    and throws the error that asks to run the download. *)
Theorem no_state_directory_no_index {E : Externals} (dirs : list Dirent) :
  (forall d, In d dirs ->
             isDirectory d = false \/ prefix "state_" (name d) = false \/
             shpFile d = None) ->
  loadCensusTractShapefiles (Entries dirs) =
    ([Log "Loading census tract shapefiles..."],
     inl "No census tracts loaded. Run: npm run download-shapefiles").
Proof.
  intros Hskip. unfold loadCensusTractShapefiles.
  rewrite (fold_loadState_skips dirs initialLoadState Hskip). reflexivity.
Qed.

(** X11, witness: a directory with another name and a plain file. *)
Lemma no_state_directory_no_index_witness :
  loadCensusTractShapefiles
    (Entries [{| name := "archive"; isDirectory := true;
                 shpFile := Some "tl_2025_00_tract.shp";
                 source := Opened [Example.feature "00000000001" Example.square] |};
              {| name := "state_notes.txt"; isDirectory := false;
                 shpFile := None; source := OpenThrows "ENOTDIR" |}]) =
    ([Log "Loading census tract shapefiles..."],
     inl "No census tracts loaded. Run: npm run download-shapefiles").
Proof.
  apply (@no_state_directory_no_index referenceExternals).
  intros d [<-|[<-|[]]]; cbn; auto.
Defined.

(** X12: the count that the loop over one shapefile ends with is the number
    of tracts it added, whatever it skipped. *)
Theorem tract_count_is_tracts_added (dirName : string) (reads : list ReadResult)
    (geoidField : option string) (n m : N) (st st' : LoadState) :
  readFeatures dirName reads geoidField n st = (st', inr m) ->
  (N.of_nat (List.length (ls_tracts st')) + n =
   N.of_nat (List.length (ls_tracts st)) + m)%N.
Proof.
  revert geoidField n st.
  induction reads as [|[f|msg] rest IH]; intros geoidField n st; cbn [readFeatures].
  - intros [= <- <-]. reflexivity.
  - destruct (match geoidField with
              | Some k => Some k
              | None => detectGeoidField (Feature.properties f)
              end) as [field|].
    + destruct (negb (geoid_re_test (propertyString (Feature.properties f) field)));
        intros H; apply IH in H; cbn [say ls_tracts] in H.
      * exact H.
      * rewrite length_app in H. cbn [List.length] in H. lia.
    + intros [= <- <-]. reflexivity.
  - discriminate.
Qed.

(** X12, witness: three features of which the second is skipped. *)
Lemma tract_count_is_tracts_added_witness :
  (N.of_nat (List.length (ls_tracts (fst (readFeatures "state_00"
      [Example.feature "00000000002" Example.noRings;
       Example.feature "123" Example.square;
       Example.feature "00000000001" Example.square] None 0 initialLoadState)))) + 0 =
   N.of_nat (List.length (ls_tracts initialLoadState)) + 2)%N.
Proof.
  apply (tract_count_is_tracts_added "state_00"
           [Example.feature "00000000002" Example.noRings;
            Example.feature "123" Example.square;
            Example.feature "00000000001" Example.square] None 0 2 initialLoadState).
  reflexivity.
Defined.

(* ------------------------------------------------------------------ *)
(** ** Rows on disk *)

Lemma partitionRows_write (ws : WriteStream) (chunk : string) :
  ws_chunks ws <> [] ->
  partitionRows {| ws_path := ws_path ws; ws_chunks := chunk :: ws_chunks ws;
                   ws_ended := ws_ended ws |} =
  (partitionRows ws ++ [chunk])%list.
Proof.
  unfold partitionRows, written. cbn [ws_chunks rev]. intros Hne.
  destruct (rev (ws_chunks ws)) as [|c cs] eqn:Hrev; [|reflexivity].
  apply (f_equal (@rev _)) in Hrev. rewrite rev_involutive in Hrev. contradiction.
Qed.

Lemma endStream_rows (h : nat) (l : list WriteStream) :
  flat_map partitionRows (endStream h l) = flat_map partitionRows l.
Proof.
  revert h. induction l as [|ws l IH]; intros [|h]; cbn [endStream flat_map];
    try reflexivity. now rewrite IH.
Qed.

Lemma endStream_headed (h : nat) (l : list WriteStream) :
  headed l -> headed (endStream h l).
Proof.
  unfold headed. revert h. induction l as [|ws l IH]; intros [|h] Hl;
    cbn [endStream]; try assumption; inversion Hl; subst; constructor; auto.
Qed.

Lemma headed_open (g : Globals) :
  headed (openedStreams g) -> headed (openedStreams (openNewOutputFile g)).
Proof.
  intros H. cbn [openNewOutputFile log openedStreams]. apply Forall_app. split.
  - destruct (outputFile g); [now apply endStream_headed | assumption].
  - constructor; [discriminate | constructor].
Qed.

Lemma outputRows_open (g : Globals) :
  outputRows (openNewOutputFile g) = outputRows g.
Proof.
  unfold outputRows. cbn [openNewOutputFile log openedStreams].
  rewrite flat_map_app. cbn. rewrite app_nil_r.
  destruct (outputFile g); [apply endStream_rows | reflexivity].
Qed.

Lemma rotate_rows (g : Globals) :
  headed (openedStreams g) ->
  outputRows (rotate g) = outputRows g /\ headed (openedStreams (rotate g)).
Proof.
  intros H. unfold rotate. destruct (ROWS_PER_FILE <=? outputRowCount g)%N.
  - split; [apply (outputRows_open (nextPart g)) | apply (headed_open (nextPart g) H)].
  - now split.
Qed.

Lemma write_current_rows (g : Globals) (chunk : string) :
  sink_inv g -> headed (openedStreams g) ->
  outputRows (writeOutput chunk g) = (outputRows g ++ [chunk])%list /\
  headed (openedStreams (writeOutput chunk g)).
Proof.
  intros Hinv Hhead. unfold outputRows. cbn [writeOutput openedStreams].
  rewrite (inv_current Hinv).
  pose proof (inv_nonempty Hinv) as Hne.
  destruct (exists_last Hne) as (l & ws & Hl). rewrite Hl in *.
  rewrite length_app. cbn [List.length]. rewrite Nat.add_1_r. cbn [Nat.pred].
  rewrite writeStream_last.
  unfold headed in *. apply Forall_app in Hhead. destruct Hhead as [Hl' Hws].
  inversion Hws; subst. split.
  - rewrite !flat_map_app. cbn [flat_map]. rewrite !app_nil_r.
    rewrite partitionRows_write by assumption. now rewrite app_assoc.
  - apply Forall_app. split; [assumption|]. constructor; [discriminate | constructor].
Qed.

Lemma writeResult_rows (g : Globals) (r : GeocodeResult.t) :
  sink_inv g -> headed (openedStreams g) ->
  outputRows (writeResult g r) =
    (outputRows g ++ if isMatched r then [outputRow r] else [])%list /\
  headed (openedStreams (writeResult g r)).
Proof.
  intros Hinv Hhead.
  destruct (sink_inv_rotate Hinv) as [Hinv1 _].
  destruct (rotate_rows g Hhead) as [Hrows1 Hhead1].
  unfold writeResult, route, isMatched. rewrite <- Hrows1.
  set (g1 := rotate g) in *. clearbody g1.
  destruct (truthy (GeocodeResult.census_tract_geoid r)).
  - exact (write_current_rows g1 (outputRow r) Hinv1 Hhead1).
  - rewrite app_nil_r. destruct (truthy (GeocodeResult.error r)); now split.
Qed.

Lemma fold_writeResult_rows (rs : list GeocodeResult.t) (g : Globals) :
  sink_inv g -> headed (openedStreams g) ->
  outputRows (fold_left writeResult rs g) =
    (outputRows g ++ map outputRow (filter isMatched rs))%list /\
  headed (openedStreams (fold_left writeResult rs g)).
Proof.
  revert g. induction rs as [|r rs IH]; intros g Hinv Hhead; cbn [fold_left filter].
  - now rewrite app_nil_r.
  - destruct (writeResult_rows g r Hinv Hhead) as [Hr Hh].
    destruct (IH _ (sink_inv_writeResult r Hinv) Hh) as [Hrows Hh'].
    split; [|assumption]. rewrite Hrows, Hr, <- app_assoc.
    now destruct (isMatched r).
Qed.

Lemma writeResults_rows (rs : list GeocodeResult.t) (g : Globals) :
  sink_inv g -> headed (openedStreams g) ->
  outputRows (writeResults g rs) =
    (outputRows g ++ map outputRow (filter isMatched rs))%list /\
  headed (openedStreams (writeResults g rs)).
Proof.
  intros Hinv Hhead. rewrite (writeResults_open rs Hinv).
  now apply fold_writeResult_rows.
Qed.

Lemma reachable_headed (g : Globals) : reachable g -> headed (openedStreams g).
Proof.
  induction 1 as [|g rs Hreach IH|g record Hreach IH|g message Hreach IH].
  - constructor; [discriminate | constructor].
  - apply writeResults_rows; [now apply reachable_sink_inv | assumption].
  - exact IH.
  - exact IH.
Qed.

(** X13: rotation loses and reorders nothing.  After [writeResults] in a
    state of a run, the data rows of the partitions, read in the order of
    the part numbers, are those from before followed by one row
    [address_id,geoid] for each result with an identifier, in the order of
    the results. *)
Theorem partitions_hold_the_matched_rows_in_order (g : Globals)
    (rs : list GeocodeResult.t) :
  reachable g ->
  outputRows (writeResults g rs) =
    (outputRows g ++ map outputRow (filter isMatched rs))%list.
Proof.
  intros Hreach.
  apply writeResults_rows; [now apply reachable_sink_inv | now apply reachable_headed].
Qed.

(** X13, witness: a match, a plain no-match and a match. *)
Lemma partitions_hold_the_matched_rows_in_order_witness :
  outputRows (writeResults (openNewOutputFile initialGlobals)
                [Example.matched "1"; Example.noMatch "2"; Example.matched "3"]) =
    (outputRows (openNewOutputFile initialGlobals) ++
     map outputRow (filter isMatched
       [Example.matched "1"; Example.noMatch "2"; Example.matched "3"]))%list.
Proof.
  apply partitions_hold_the_matched_rows_in_order. constructor.
Defined.

(* ------------------------------------------------------------------ *)
(** ** Counters and rows *)

Lemma writeResult_matched (g : Globals) (r : GeocodeResult.t) :
  totalMatched (stats (writeResult g r)) =
    (totalMatched (stats g) + if isMatched r then 1 else 0)%N.
Proof.
  unfold writeResult, route, rotate, isMatched.
  destruct (ROWS_PER_FILE <=? outputRowCount g)%N;
    destruct (truthy (GeocodeResult.census_tract_geoid r));
    destruct (truthy (GeocodeResult.error r)); cbn; lia.
Qed.

Lemma fold_writeResult_matched (rs : list GeocodeResult.t) (g : Globals) :
  totalMatched (stats (fold_left writeResult rs g)) =
    (totalMatched (stats g) + N.of_nat (List.length (filter isMatched rs)))%N.
Proof.
  revert g. induction rs as [|r rs IH]; intros g; cbn [fold_left filter].
  - cbn. lia.
  - rewrite IH, writeResult_matched. destruct (isMatched r); cbn [List.length]; lia.
Qed.

(** X14: in every state of a run, the matched counter is the number of data
    rows in the output partitions. *)
Theorem matched_counter_is_rows_on_disk (g : Globals) :
  reachable g ->
  totalMatched (stats g) = N.of_nat (List.length (outputRows g)).
Proof.
  induction 1 as [|g rs Hreach IH|g record Hreach IH|g message Hreach IH].
  - reflexivity.
  - destruct (writeResults_rows rs g (reachable_sink_inv Hreach)
                (reachable_headed g Hreach)) as [-> _].
    rewrite (writeResults_open rs (reachable_sink_inv Hreach)).
    rewrite fold_writeResult_matched, IH, length_app, length_map. lia.
  - exact IH.
  - exact IH.
Qed.

(** X14, witness: after a match and a no-match. *)
Lemma matched_counter_is_rows_on_disk_witness :
  totalMatched (stats (writeResults (openNewOutputFile initialGlobals)
                         [Example.matched "1"; Example.noMatch "2"])) =
  N.of_nat (List.length (outputRows
    (writeResults (openNewOutputFile initialGlobals)
       [Example.matched "1"; Example.noMatch "2"]))).
Proof.
  apply matched_counter_is_rows_on_disk. repeat constructor.
Defined.

(* ------------------------------------------------------------------ *)
(** ** The error channel *)

Lemma rotate_unmatched (g : Globals) : unmatchedStream (rotate g) = unmatchedStream g.
Proof. unfold rotate. now destruct (ROWS_PER_FILE <=? outputRowCount g)%N. Qed.

Lemma writeResult_unmatched (g : Globals) (r : GeocodeResult.t) :
  unmatchedStream (writeResult g r) =
    ((if isErrored r then [unmatchedRow r] else []) ++ unmatchedStream g)%list.
Proof.
  unfold writeResult, route, isErrored.
  destruct (truthy (GeocodeResult.census_tract_geoid r));
    destruct (truthy (GeocodeResult.error r));
    cbn [countRow setStats writeOutput writeUnmatched unmatchedStream negb andb app];
    now rewrite rotate_unmatched.
Qed.

Lemma fold_writeResult_unmatched (rs : list GeocodeResult.t) (g : Globals) :
  rev (unmatchedStream (fold_left writeResult rs g)) =
    (rev (unmatchedStream g) ++ map unmatchedRow (filter isErrored rs))%list.
Proof.
  revert g. induction rs as [|r rs IH]; intros g; cbn [fold_left filter].
  - now rewrite app_nil_r.
  - rewrite IH, writeResult_unmatched.
    destruct (isErrored r); cbn [app rev map]; [now rewrite <- app_assoc | reflexivity].
Qed.

(** X15: [writeResults] appends to the error channel one row
    [address_id,error] for each result without identifier that carries an
    error message, in the order of the results, and nothing else. *)
Theorem error_channel_gets_the_errored_results (g : Globals)
    (rs : list GeocodeResult.t) :
  rev (unmatchedStream (writeResults g rs)) =
    (rev (unmatchedStream g) ++ map unmatchedRow (filter isErrored rs))%list.
Proof.
  unfold writeResults. rewrite fold_writeResult_unmatched.
  now destruct (outputFile g).
Qed.

(* ------------------------------------------------------------------ *)
(** ** Chunk boundaries *)

Lemma writeResult_keeps_open (g : Globals) (r : GeocodeResult.t) :
  outputFile g <> None -> outputFile (writeResult g r) <> None.
Proof.
  unfold writeResult, route, rotate.
  destruct (ROWS_PER_FILE <=? outputRowCount g)%N;
    destruct (truthy (GeocodeResult.census_tract_geoid r));
    destruct (truthy (GeocodeResult.error r)); cbn; intros H; try discriminate;
    assumption.
Qed.

Lemma fold_writeResult_keeps_open (rs : list GeocodeResult.t) (g : Globals) :
  outputFile g <> None -> outputFile (fold_left writeResult rs g) <> None.
Proof.
  revert g. induction rs as [|r rs IH]; intros g H; cbn [fold_left]; [assumption|].
  now apply IH, writeResult_keeps_open.
Qed.

(** X16: the sink does not depend on how results are cut into chunks:
    writing two chunks one after the other leaves every module-level
    variable as writing their concatenation at once does. *)
Theorem writeResults_ignores_chunk_boundaries (g : Globals)
    (a b : list GeocodeResult.t) :
  writeResults (writeResults g a) b = writeResults g (a ++ b).
Proof.
  unfold writeResults at 1 3. rewrite fold_left_app.
  destruct (outputFile (writeResults g a)) eqn:Hopen; [reflexivity|].
  exfalso. revert Hopen. unfold writeResults. apply fold_writeResult_keeps_open.
  destruct (outputFile g) eqn:Hg; [congruence | discriminate].
Qed.

(* ------------------------------------------------------------------ *)
(** ** Distinct part names *)

(** X17: no two partitions of a run share a file name: the path of a part
    determines its number, also past part 999, where the name grows beyond
    three digits. *)
Theorem partitions_have_distinct_paths (g : Globals) (k k' : nat)
    (ws ws' : WriteStream) :
  reachable g ->
  nth_error (openedStreams g) k = Some ws ->
  nth_error (openedStreams g) k' = Some ws' ->
  ws_path ws = ws_path ws' -> k = k'.
Proof.
  intros Hreach Hk Hk' Hpath. apply reachable_sink_inv in Hreach.
  rewrite (inv_paths Hreach Hk), (inv_paths Hreach Hk') in Hpath.
  apply getOutputFilePath_inj in Hpath. lia.
Qed.

(** X17, witness: the first partition. *)
Lemma partitions_have_distinct_paths_witness : 0%nat = 0%nat.
Proof.
  apply (@partitions_have_distinct_paths (openNewOutputFile initialGlobals) 0 0
           {| ws_path := getOutputFilePath 1; ws_chunks := [OUTPUT_HEADER];
              ws_ended := false |}
           {| ws_path := getOutputFilePath 1; ws_chunks := [OUTPUT_HEADER];
              ws_ended := false |}).
  - constructor.
  - reflexivity.
  - reflexivity.
  - reflexivity.
Defined.

(* ------------------------------------------------------------------ *)
(** ** The worker *)

(** X18: the worker answers every address, once and in order: the
    identifiers of its results are those of its addresses, whether or not
    the index could be rebuilt. *)
Theorem worker_answers_every_address_in_order {E : Externals} (input : WorkerInput) :
  map GeocodeResult.address_id (processAddresses input) =
  map Address.address_id (addresses input).
Proof.
  unfold processAddresses.
  destruct (rbush_load (data_items (spatialIndex input))) as [msg|ix];
    rewrite map_map; apply map_ext; intros a; [reflexivity|].
  unfold processAddress.
  destruct (isNaN (Address.latitude a) || isNaN (Address.longitude a));
    [reflexivity|].
  now destruct (snd (findTractForPoint _ _ _)).
Qed.

(** X19: a result of the worker that carries an identifier carries no error,
    and the identifier is that of a tract of the worker's input. *)
Theorem worker_identifier_is_a_tract_of_its_input {E : Externals}
    (input : WorkerInput) (r : GeocodeResult.t) (g : string) :
  In r (processAddresses input) ->
  GeocodeResult.census_tract_geoid r = Some g ->
  GeocodeResult.error r = None /\
  exists t, In t (data_tracts (spatialIndex input)) /\ geoid t = g.
Proof.
  unfold processAddresses.
  destruct (rbush_load (data_items (spatialIndex input))) as [msg|ix];
    intros Hin; apply in_map_iff in Hin; destruct Hin as (a & <- & _);
    [discriminate|].
  unfold processAddress.
  destruct (isNaN (Address.latitude a) || isNaN (Address.longitude a));
    [discriminate|].
  destruct (findTractForPoint _ _ _) as [ev [res|msg]] eqn:Hfind; cbn [snd];
    [|discriminate].
  cbn [GeocodeResult.census_tract_geoid GeocodeResult.error]. intros ->.
  split; [reflexivity|].
  apply findTractForPoint_returns in Hfind. exact Hfind.
Qed.

(** X19, witness: the centre of the unit square. *)
Lemma worker_identifier_is_a_tract_of_its_input_witness :
  GeocodeResult.error (Example.matched "4") = None /\
  exists t, In t (tracts Example.squareIndex) /\ geoid t = "00000000001".
Proof.
  apply (@worker_identifier_is_a_tract_of_its_input referenceExternals
           {| addresses := [{| Address.address_id := "4"; Address.latitude := num 0.5;
                               Address.longitude := num 0.5 |}];
              spatialIndex := indexData Example.squareIndex |}
           (Example.matched "4") "00000000001").
  - left. reflexivity.
  - reflexivity.
Defined.

Section LoadedWorker.

Context {E : Externals}.
Variables (data : DataDir) (console : list ConsoleEvent) (idx : SpatialIndex).
Hypothesis Hload : loadCensusTractShapefiles data = (console, inr idx).

(** The worker rebuilds the index that the loader built. *)
Lemma processAddresses_loaded (addrs : list Address.t) :
  processAddresses {| addresses := addrs; spatialIndex := indexData idx |} =
  map (processAddress idx) addrs.
Proof.
  destruct (load_returns data Hload) as (dirs & _ & _ & _ & _ & Hix).
  unfold processAddresses, indexData.
  cbn [spatialIndex addresses data_items data_tracts data_bbox].
  rewrite Hix. now destruct idx.
Qed.

Lemma processAddress_no_error (a : Address.t) :
  isNaN (Address.latitude a) = false -> isNaN (Address.longitude a) = false ->
  GeocodeResult.error (processAddress idx a) = None.
Proof.
  intros Hlat Hlon. unfold processAddress. rewrite Hlat, Hlon. cbn [orb].
  destruct (findTractForPoint_total idx _ _
              (fun q => loaded_candidates_valid data console idx q Hload) Hlat Hlon)
    as (r & ->).
  reflexivity.
Qed.

End LoadedWorker.

(** X20: on the index data of a loaded index the worker reports no error for
    an address whose coordinates are numbers: rebuilding the index succeeds
    and no lookup throws. *)
Theorem worker_on_loaded_index_reports_no_error {E : Externals} (data : DataDir)
    (console : list ConsoleEvent) (idx : SpatialIndex) (addrs : list Address.t)
    (r : GeocodeResult.t) :
  loadCensusTractShapefiles data = (console, inr idx) ->
  Forall (fun a => isNaN (Address.latitude a) = false /\
                   isNaN (Address.longitude a) = false) addrs ->
  In r (processAddresses {| addresses := addrs; spatialIndex := indexData idx |}) ->
  GeocodeResult.error r = None.
Proof.
  intros Hload Hnum Hin. rewrite (processAddresses_loaded data console idx Hload) in Hin.
  apply in_map_iff in Hin. destruct Hin as (a & <- & Ha).
  rewrite Forall_forall in Hnum. destruct (Hnum a Ha) as [Hlat Hlon].
  now apply (processAddress_no_error data console idx Hload).
Qed.

(** X20, witness: an address outside the valid ranges. *)
Lemma worker_on_loaded_index_reports_no_error_witness :
  GeocodeResult.error (Example.noMatch "9") = None.
Proof.
  apply (@worker_on_loaded_index_reports_no_error referenceExternals
           Example.squareData _ Example.squareIndex [Example.farAway]
           (Example.noMatch "9") squareData_loads).
  - repeat constructor.
  - left. reflexivity.
Defined.

(* ------------------------------------------------------------------ *)
(** ** What the pool is asked *)

Section PoolAgreement.

Context {E : Externals}.
Variables (pool1 pool2 : Pool) (loadedIndex : SpatialIndex).
Hypothesis Hagree :
  forall input, dispatchable loadedIndex input -> pool1 input = pool2 input.

Lemma chunkOk_agree (chunk : list Address.t) :
  chunkOk chunk ->
  pool1 (workerInput loadedIndex chunk) = pool2 (workerInput loadedIndex chunk).
Proof. intros (Hne & Hlen & Hvalid). apply Hagree. now repeat split. Qed.

(** What [onRecord] leaves in the buffer and hands to the pool. *)
Lemma onRecord_chunkOk (g : Globals) (run : FileRun) (record : CsvRecord.t) :
  bufferOk run ->
  bufferOk (snd (fst (onRecord g run record))) /\
  match snd (onRecord g run record) with
  | Some c => chunkOk c
  | None => True
  end.
Proof.
  intros [Hlen Hvalid].
  destruct (onRecord_cases g run record)
    as [[Hinv ->]|[Hinv (run' & chunk & -> & _ & Happ & Hchunk)]];
    cbn [fst snd]; [split; [split; assumption | exact I]|].
  assert (Forall validAddress (chunkBuffer run ++ [toAddress record])%list) as Hvalid'
      by (apply Forall_app; split; [assumption|];
          repeat constructor; unfold invalidRecord in Hinv; exact Hinv).
  assert (List.length (chunkBuffer run ++ [toAddress record])%list =
          S (List.length (chunkBuffer run))) as Hlen'
      by (rewrite length_app; cbn; lia).
  destruct chunk as [c|].
  - destruct Hchunk as [Hnil Hfull]. unfold bufferOk. rewrite Hnil in *.
    cbn [app] in Happ. subst c.
    split; [split; [now vm_compute | constructor]|].
    split; [|split; [rewrite Hlen'; lia | assumption]].
    intros Hnil'. apply app_eq_nil in Hnil'. destruct Hnil'; discriminate.
  - rewrite app_nil_r in Happ. unfold bufferOk. rewrite Happ in *. now repeat split.
Qed.

Lemma chunkInTurn_agree (final : bool) (chunk : list Address.t) (g : Globals) (n : N) :
  chunkOk chunk ->
  chunkInTurn pool1 loadedIndex final chunk g n =
  chunkInTurn pool2 loadedIndex final chunk g n.
Proof. intros Hok. unfold chunkInTurn. now rewrite chunkOk_agree. Qed.

Lemma recordInTurn_agree (g : Globals) (run : FileRun) (record : CsvRecord.t) :
  bufferOk run ->
  recordInTurn pool1 loadedIndex (g, run) record =
    recordInTurn pool2 loadedIndex (g, run) record /\
  bufferOk (snd (recordInTurn pool1 loadedIndex (g, run) record)).
Proof.
  intros Hok. destruct (onRecord_chunkOk g run record Hok) as [Hbuf Hchunk].
  unfold recordInTurn. cbn [fst snd].
  destruct (onRecord g run record) as [[g' run'] [c|]]; cbn [fst snd] in *.
  - rewrite (chunkInTurn_agree false c g' (processedCount run') Hchunk).
    destruct (chunkInTurn pool2 loadedIndex false c g' (processedCount run')).
    cbn [snd]. split; [reflexivity|]. exact Hbuf.
  - now split.
Qed.

Lemma fold_recordInTurn_agree (records : list CsvRecord.t) (g : Globals)
    (run : FileRun) :
  bufferOk run ->
  fold_left (recordInTurn pool1 loadedIndex) records (g, run) =
    fold_left (recordInTurn pool2 loadedIndex) records (g, run) /\
  bufferOk (snd (fold_left (recordInTurn pool1 loadedIndex) records (g, run))).
Proof.
  revert g run. induction records as [|r rs IH]; intros g run Hok; cbn [fold_left].
  - now split.
  - destruct (recordInTurn_agree g run r Hok) as [Heq Hok']. rewrite <- Heq.
    destruct (recordInTurn pool1 loadedIndex (g, run) r) as [g' run']. now apply IH.
Qed.

Lemma fileInTurn_agree (records : list CsvRecord.t) (g : Globals) :
  fileInTurn pool1 loadedIndex records g = fileInTurn pool2 loadedIndex records g.
Proof.
  unfold fileInTurn.
  assert (bufferOk newCall) as Hok by (split; [now vm_compute | constructor]).
  destruct (fold_recordInTurn_agree records g newCall Hok) as [<- [Hlen Hvalid]].
  destruct (fold_left _ records _) as [g' run]. cbn [snd] in *.
  unfold endInTurn. destruct (chunkBuffer run) as [|a l] eqn:Hbuf; [reflexivity|].
  apply chunkInTurn_agree. split; [discriminate|]. split; [lia | assumption].
Qed.

Lemma chunksOk_start (addressFiles : list (string * list CsvRecord.t)) :
  chunksOk (start addressFiles).
Proof.
  assert (bufferOk newCall) as Hok by (split; [now vm_compute | constructor]).
  destruct addressFiles as [|[name records] rest]; split; cbn; auto.
Qed.

Lemma chunksOk_step (pool : Pool) (s s' : Main) :
  chunksOk s -> step pool loadedIndex s s' -> chunksOk s'.
Proof.
  intros [Hbuf Hsus] Hstep.
  assert (bufferOk newCall) as Hnew by (split; [now vm_compute | constructor]).
  destruct Hstep as [s record rest g run chunk Hph Hun Hrec
                    |s Hph Hun Hne
                    |s Hph Hun Hne
                    |s before after su results Hph Hsu Hst Hpool
                    |s before after su err Hph Hsu Hst Hpool
                    |s before after su Hph Hsu Hst
                    |s count Hph];
    unfold chunksOk; cbn [locals suspended].
  - destruct (onRecord_chunkOk (globals s) (locals s) record Hbuf) as [Hb Hc].
    rewrite Hrec in Hb, Hc. cbn [fst snd] in Hb, Hc. split; [assumption|].
    apply Forall_app. split; [assumption|].
    destruct chunk as [c|]; cbn [dispatchedBy];
      [constructor; [exact Hc | constructor] | constructor].
  - now split.
  - split; [assumption|]. apply Forall_app. split; [assumption|].
    destruct Hbuf as [Hlen Hvalid].
    constructor; [|constructor]. cbn [su_chunk]. split; [assumption|].
    split; [lia | assumption].
  - split; [assumption|]. rewrite Hsu in Hsus.
    apply Forall_app in Hsus. destruct Hsus as [Hb Ha].
    inversion Ha; subst. apply Forall_app. split; [assumption|]. now constructor.
  - split; [assumption|]. rewrite Hsu in Hsus.
    apply Forall_app in Hsus. destruct Hsus as [Hb Ha].
    inversion Ha; subst. apply Forall_app. now split.
  - split.
    + unfold counted. destruct (_ =? _)%nat; [|assumption].
      destruct Hbuf. now split.
    + rewrite Hsu in Hsus.
      apply Forall_app in Hsus. destruct Hsus as [Hb Ha].
      inversion Ha; subst. apply Forall_app. now split.
  - unfold resume. destruct (pendingFiles s) as [|[name recs] [|[next records] rest]];
      cbn [locals suspended]; now split.
Qed.

Lemma step_agree (s s' : Main) :
  chunksOk s -> step pool1 loadedIndex s s' -> step pool2 loadedIndex s s'.
Proof.
  intros [_ Hsus] Hstep.
  destruct Hstep as [s record rest g run chunk Hph Hun Hrec
                    |s Hph Hun Hne
                    |s Hph Hun Hne
                    |s before after su results Hph Hsu Hst Hpool
                    |s before after su err Hph Hsu Hst Hpool
                    |s before after su Hph Hsu Hst
                    |s count Hph].
  - eapply step_read; eassumption.
  - now apply step_end_empty.
  - now apply step_end_chunk.
  - apply step_fulfilled; try assumption. rewrite <- chunkOk_agree; [assumption|].
    rewrite Hsu in Hsus. apply Forall_app in Hsus. destruct Hsus as [_ Ha].
    now inversion Ha.
  - apply step_rejected; try assumption. rewrite <- chunkOk_agree; [assumption|].
    rewrite Hsu in Hsus. apply Forall_app in Hsus. destruct Hsus as [_ Ha].
    now inversion Ha.
  - now apply step_written.
  - now apply step_resume.
Qed.

Lemma steps_agree (s t : Main) :
  steps pool1 loadedIndex s t -> chunksOk s -> steps pool2 loadedIndex s t.
Proof.
  induction 1 as [s|s s' t Hstep Hsteps IH]; intros Hok; [constructor|].
  eapply steps_step; [apply step_agree; eassumption|]. apply IH.
  eapply chunksOk_step; eassumption.
Qed.

End PoolAgreement.

(** X21: the pool is only ever asked about chunks of one to CHUNK_SIZE
    addresses that passed the validation, together with the index data of
    the loaded index.  Two pools that answer those inputs alike have the same
    runs, whatever they do on other inputs; and [processAddressFile] with
    every chunk settling at once gives the same with both. *)
Theorem pool_is_asked_validated_chunks_only {E : Externals} (pool1 pool2 : Pool)
    (loadedIndex : SpatialIndex) :
  (forall input, dispatchable loadedIndex input -> pool1 input = pool2 input) ->
  (forall addressFiles s,
      runs pool1 loadedIndex addressFiles s <-> runs pool2 loadedIndex addressFiles s) /\
  (forall records g,
      fileInTurn pool1 loadedIndex records g = fileInTurn pool2 loadedIndex records g).
Proof.
  intros Hagree. split.
  - intros addressFiles s. unfold runs. split; intros Hruns.
    + apply (steps_agree pool1 pool2 loadedIndex Hagree _ _ Hruns), chunksOk_start.
    + assert (forall input, dispatchable loadedIndex input -> pool2 input = pool1 input)
        as Hagree' by (intros input Hin; symmetry; now apply Hagree).
      apply (steps_agree pool2 pool1 loadedIndex Hagree' _ _ Hruns), chunksOk_start.
  - intros records g. now apply fileInTurn_agree.
Qed.

(** X21, witness: a pool that fails on an empty chunk agrees with the worker
    pool on every chunk that is dispatched. *)
Lemma pool_is_asked_validated_chunks_only_witness :
  let pool := fun input => match addresses input with
                           | [] => inl "Error: empty chunk"
                           | _ :: _ => workerPool input
                           end in
  let records := [Example.csv "1" "0.5" "0.5"; Example.csv "3" "abc" "0.5"] in
  (exists s, runs pool Example.squareIndex [("addresses_part_001.csv", records)] s /\
             phase s = Exited) /\
  fileInTurn workerPool Example.squareIndex records (openNewOutputFile initialGlobals) =
  fileInTurn pool Example.squareIndex records (openNewOutputFile initialGlobals).
Proof.
  cbv zeta.
  destruct (@pool_is_asked_validated_chunks_only referenceExternals workerPool
              (fun input => match addresses input with
                            | [] => inl "Error: empty chunk"
                            | _ :: _ => workerPool input
                            end)
              Example.squareIndex) as [Hruns Hfile].
  - intros input (_ & Hne & _). destruct (addresses input); [now contradiction Hne|].
    reflexivity.
  - split; [|apply Hfile].
    destruct (runInTurn_exits workerPool Example.squareIndex
                [("addresses_part_001.csv",
                  [Example.csv "1" "0.5" "0.5"; Example.csv "3" "abc" "0.5"])])
      as (s & Hs & Hexit & _).
    exists s. split; [now apply Hruns | exact Hexit].
Defined.

(* ------------------------------------------------------------------ *)
(** ** Conservation of addresses *)

Section Conservation.

Context {E : Externals}.
Variables (pool : Pool) (loadedIndex : SpatialIndex).
Hypothesis Hpool : answersAll pool.



End Conservation.

(** *** Small files *)

Section SmallFiles.

Context {E : Externals}.
Variables (pool : Pool) (loadedIndex : SpatialIndex).



End SmallFiles.

(** *** A chunk left behind *)


Section LeftBehind.

Context {E : Externals}.
Variables (pool : Pool) (loadedIndex : SpatialIndex).



End LeftBehind.



(* ------------------------------------------------------------------ *)
(** ** The whole run *)


Section WholeRun.

Context {E : Externals}.
Variables (data : DataDir) (console : list ConsoleEvent) (idx : SpatialIndex).
Hypothesis Hload : loadCensusTractShapefiles data = (console, inr idx).










End WholeRun.



Lemma insertSorted_In (x y : string) (l : list string) :
  In y (insertSorted x l) <-> y = x \/ In y l.
Proof.
  induction l as [|h t IH]; cbn [insertSorted].
  - cbn. intuition congruence.
  - destruct (String.leb x h); cbn [In]; [intuition congruence|].
    rewrite IH. intuition congruence.
Qed.

Lemma sortStrings_In (y : string) (l : list string) :
  In y (sortStrings l) <-> In y l.
Proof.
  induction l as [|x l IH]; cbn [sortStrings fold_right]; [reflexivity|].
  fold (sortStrings l). rewrite insertSorted_In, IH. cbn. intuition congruence.
Qed.

Lemma sortStrings_least (m : string) (l : list string) :
  (forall x, In x l -> String.leb m x = true) -> In m l ->
  hd_error (sortStrings l) = Some m.
Proof.
  induction l as [|x l IH]; intros Hleast Hin; [contradiction|].
  cbn [sortStrings fold_right]. fold (sortStrings l).
  assert (forall y, In y l -> String.leb m y = true) as Hleast'
      by (intros y Hy; apply Hleast; now right).
  destruct (sortStrings l) as [|h t] eqn:Hsorted; cbn [insertSorted].
  - destruct Hin as [->|Hin]; [reflexivity|].
    apply sortStrings_In in Hin. rewrite Hsorted in Hin. contradiction.
  - assert (In h l) as Hh by (apply sortStrings_In; rewrite Hsorted; now left).
    destruct (String.leb x h) eqn:Hxh; cbn [hd_error].
    + destruct Hin as [->|Hin]; [reflexivity|].
      specialize (IH Hleast' Hin). cbn in IH. injection IH as ->.
      f_equal. apply String.leb_antisym; [assumption|]. apply Hleast. now left.
    + destruct Hin as [->|Hin].
      * rewrite (Hleast' h Hh) in Hxh. discriminate.
      * exact (IH Hleast' Hin).
Qed.

Lemma gaps_file_least (f : string) :
  isAddressFile f = true -> String.leb GAPS_FILE f = true.
Proof.
  unfold isAddressFile. intros H. apply orb_prop in H. destruct H as [H|H].
  - repeat (apply andb_prop in H; destruct H as [H _]).
    do 11 (destruct f as [|c f]; [discriminate|]; cbn [prefix] in H;
           destruct (ascii_dec _ c) as [<-|]; [|discriminate]).
    reflexivity.
  - apply String.eqb_eq in H. now subst.
Qed.

(** X24: when the directory holds [addresses_gaps.csv], the dispatcher
    pipeline processes it first, before every part file: the names are
    sorted as strings. *)
Theorem gaps_file_is_processed_first (names : list string) :
  In GAPS_FILE names ->
  hd_error (discoverAddressFiles names) = Some GAPS_FILE.
Proof.
  intros Hin. unfold discoverAddressFiles. apply sortStrings_least.
  - intros x Hx. apply filter_In in Hx. now apply gaps_file_least.
  - apply filter_In. now split.
Qed.

(** X24, witness: two part files, a file that is no address file, and the
    gaps file. *)
Lemma gaps_file_is_processed_first_witness :
  hd_error (discoverAddressFiles
    ["addresses_part_002.csv"; "package.json"; "addresses_gaps.csv";
     "addresses_part_001.csv"]) = Some GAPS_FILE.
Proof.
  apply gaps_file_is_processed_first. cbn. auto.
Defined.

Section RecheckFacts.

Context {E : Externals}.
Variable idx : SpatialIndex.

Lemma recheck_step (st st' : Recheck.State) (record : Recheck.AddressRecord) :
  Recheck.step idx st record = inr st' ->
  (exists geoid,
     Recheck.outputStream st' = Recheck.row record geoid :: Recheck.outputStream st) /\
  Recheck.processed st' = (Recheck.processed st + 1)%N /\
  (Recheck.matched st' + Recheck.unmatched st' =
   Recheck.matched st + Recheck.unmatched st + 1)%N.
Proof.
  unfold Recheck.step.
  destruct (Recheck.lookup idx st record) as [msg|[[geoid m] u]] eqn:Hlookup;
    [discriminate|].
  intros [= <-]. cbn. split; [now exists geoid|]. split; [reflexivity|].
  unfold Recheck.lookup in Hlookup.
  destruct (_ && _ && _ && _).
  - destruct (snd (findTractForPoint _ _ idx)) as [tract|msg]; [|discriminate].
    destruct (truthy tract); injection Hlookup as _ <- <-; lia.
  - injection Hlookup as _ <- <-. lia.
Qed.

Lemma recheck_loop_processed (records : list Recheck.AddressRecord)
    (st st' : Recheck.State) :
  Recheck.loop idx records st = inr st' ->
  Recheck.processed st' = (Recheck.processed st + N.of_nat (List.length records))%N.
Proof.
  revert st. induction records as [|r rs IH]; intros st; cbn [Recheck.loop].
  - intros [= <-]. cbn. lia.
  - destruct (Recheck.step idx st r) as [msg|st1] eqn:Hstep; [discriminate|].
    intros Hloop. apply recheck_step in Hstep. destruct Hstep as (_ & Hproc & _).
    rewrite (IH _ Hloop), Hproc. cbn [List.length]. lia.
Qed.

End RecheckFacts.

(** X25: when the loop of the re-check script completes, it has written one
    row for every record, in the order of the records, each starting with the
    record's [id]; the processed counter has grown by the number of records,
    and matched and unmatched together by as much. *)
Theorem recheck_writes_one_row_per_record {E : Externals} (idx : SpatialIndex)
    (records : list Recheck.AddressRecord) (st st' : Recheck.State) :
  Recheck.loop idx records st = inr st' ->
  (exists geoids,
     List.length geoids = List.length records /\
     rev (Recheck.outputStream st') =
       (rev (Recheck.outputStream st) ++
        map (fun p => Recheck.row (fst p) (snd p)) (combine records geoids))%list) /\
  Recheck.processed st' = (Recheck.processed st + N.of_nat (List.length records))%N /\
  (Recheck.matched st' + Recheck.unmatched st' =
   Recheck.matched st + Recheck.unmatched st + N.of_nat (List.length records))%N.
Proof.
  revert st. induction records as [|r rs IH]; intros st; cbn [Recheck.loop].
  - intros [= <-]. split; [exists []; cbn; now rewrite app_nil_r|]. cbn. lia.
  - destruct (Recheck.step idx st r) as [msg|st1] eqn:Hstep; [discriminate|].
    intros Hloop. apply recheck_step in Hstep.
    destruct Hstep as ((geoid & Hout) & Hproc & Hcount).
    destruct (IH _ Hloop) as ((geoids & Hlen & Hrows) & Hproc' & Hcount').
    split.
    + exists (geoid :: geoids). split; [cbn; now rewrite Hlen|].
      rewrite Hrows, Hout. cbn [rev combine map fst snd].
      now rewrite <- app_assoc.
    + cbn [List.length]. lia.
Qed.

Lemma nonZero_false (x : number) : Recheck.nonZero x = false -> isNaN x = false.
Proof. now destruct x. Qed.

(** X26: the re-check script never looks up a record whose latitude or
    longitude is exactly 0: it writes the row with a blank identifier and
    counts the record as unmatched, whatever the index holds. *)
Theorem recheck_leaves_zero_coordinates_blank {E : Externals} (idx : SpatialIndex)
    (st : Recheck.State) (record : Recheck.AddressRecord) :
  Recheck.nonZero (parseFloat (Recheck.lat record)) = false \/
  Recheck.nonZero (parseFloat (Recheck.long record)) = false ->
  exists st',
    Recheck.step idx st record = inr st' /\
    Recheck.outputStream st' = Recheck.row record "" :: Recheck.outputStream st /\
    Recheck.matched st' = Recheck.matched st /\
    Recheck.unmatched st' = (Recheck.unmatched st + 1)%N.
Proof.
  intros Hzero. unfold Recheck.step, Recheck.lookup.
  assert (negb (isNaN (parseFloat (Recheck.lat record))) &&
          negb (isNaN (parseFloat (Recheck.long record))) &&
          Recheck.nonZero (parseFloat (Recheck.lat record)) &&
          Recheck.nonZero (parseFloat (Recheck.long record)) = false) as ->.
  { destruct Hzero as [-> | ->]; [now rewrite andb_false_r | apply andb_false_r]. }
  eexists. split; [reflexivity|]. cbn. auto.
Qed.

(** X26, witness: a point on the lower edge of the unit square.  The lookup
    would return the square's tract; the script writes a blank. *)
Lemma recheck_leaves_zero_coordinates_blank_witness :
  snd (findTractForPoint (num 0) (num 0.5) Example.squareIndex) =
    Returned (Some "00000000001") /\
  exists st',
    Recheck.step Example.squareIndex Recheck.initial
      {| Recheck.id := "7"; Recheck.lat := "0"; Recheck.long := "0.5" |} = inr st' /\
    Recheck.outputStream st' =
      ("7," ++ newline) :: Recheck.outputStream Recheck.initial /\
    Recheck.matched st' = Recheck.matched Recheck.initial /\
    Recheck.unmatched st' = (Recheck.unmatched Recheck.initial + 1)%N.
Proof.
  split; [reflexivity|].
  apply (@recheck_leaves_zero_coordinates_blank referenceExternals
           Example.squareIndex Recheck.initial
           {| Recheck.id := "7"; Recheck.lat := "0"; Recheck.long := "0.5" |}).
  left. reflexivity.
Defined.

Section RecheckLoaded.

Context {E : Externals}.
Variables (data : DataDir) (console : list ConsoleEvent) (idx : SpatialIndex).
Hypothesis Hload : loadCensusTractShapefiles data = (console, inr idx).

Lemma recheck_step_completes (st : Recheck.State) (record : Recheck.AddressRecord) :
  exists st', Recheck.step idx st record = inr st'.
Proof.
  unfold Recheck.step, Recheck.lookup.
  destruct (isNaN (parseFloat (Recheck.lat record))) eqn:Hlat; cbn [negb andb];
    [eexists; reflexivity|].
  destruct (isNaN (parseFloat (Recheck.long record))) eqn:Hlon; cbn [negb andb];
    [eexists; reflexivity|].
  destruct (_ && _); [|eexists; reflexivity].
  destruct (findTractForPoint_total idx _ _
              (fun q => loaded_candidates_valid data console idx q Hload) Hlat Hlon)
    as (r & ->).
  destruct (truthy r); eexists; reflexivity.
Qed.

Lemma recheck_loop_completes (records : list Recheck.AddressRecord) (st : Recheck.State) :
  exists st', Recheck.loop idx records st = inr st'.
Proof.
  revert st. induction records as [|r rs IH]; intros st; cbn [Recheck.loop].
  - now exists st.
  - destruct (recheck_step_completes st r) as (st1 & ->). apply IH.
Qed.

End RecheckLoaded.

(** X27: on a loaded index the loop of the re-check script completes for
    every input: no lookup throws, so no record is left without a row. *)
Theorem recheck_completes_on_loaded_index {E : Externals} (data : DataDir)
    (console : list ConsoleEvent) (idx : SpatialIndex)
    (records : list Recheck.AddressRecord) (st : Recheck.State) :
  loadCensusTractShapefiles data = (console, inr idx) ->
  exists st',
    Recheck.loop idx records st = inr st' /\
    Recheck.processed st' = (Recheck.processed st + N.of_nat (List.length records))%N.
Proof.
  intros Hload.
  destruct (recheck_loop_completes data console idx Hload records st) as (st' & Hloop).
  exists st'. split; [assumption|]. now apply recheck_loop_processed in Hloop.
Qed.

(** X27, witness: a match, an unparseable latitude and a zero longitude. *)
Lemma recheck_completes_on_loaded_index_witness :
  exists st',
    Recheck.loop Example.squareIndex Sample.recheckRows Recheck.initial = inr st' /\
    Recheck.processed st' = (Recheck.processed Recheck.initial + 3)%N.
Proof.
  apply (@recheck_completes_on_loaded_index referenceExternals Example.squareData _
           Example.squareIndex Sample.recheckRows Recheck.initial squareData_loads).
Defined.

(** X25, witness: the same three records. *)
Lemma recheck_writes_one_row_per_record_witness :
  Recheck.processed
    {| Recheck.outputStream :=
         [("3," ++ newline); ("2," ++ newline); ("1,00000000001" ++ newline);
          ("id,census_tract_geoid" ++ newline)];
       Recheck.processed := 3; Recheck.matched := 1; Recheck.unmatched := 2;
       Recheck.progress := [] |} =
  (Recheck.processed Recheck.initial + 3)%N.
Proof.
  apply (@recheck_writes_one_row_per_record referenceExternals Example.squareIndex
           Sample.recheckRows Recheck.initial).
  reflexivity.
Defined.

(* ------------------------------------------------------------------ *)
(** ** The sink of the single-threaded pipeline *)

Lemma endStream_cap (h : nat) (l : list WriteStream) :
  Forall (fun ws => (dataRows ws <= ROWS_PER_FILE)%N) l ->
  Forall (fun ws => (dataRows ws <= ROWS_PER_FILE)%N) (endStream h l).
Proof.
  revert h. induction l as [|ws l IH]; intros [|h] Hl; cbn [endStream];
    try assumption; inversion Hl; subst; constructor; auto.
Qed.

Lemma endStream_paths (h : nat) (l : list WriteStream) :
  map ws_path (endStream h l) = map ws_path l.
Proof.
  revert h. induction l as [|ws l IH]; intros [|h]; cbn [endStream map];
    try reflexivity. now rewrite IH.
Qed.

Lemma nth_error_path (l : list WriteStream) (k : nat) (ws : WriteStream) :
  nth_error l k = Some ws -> nth_error (map ws_path l) k = Some (ws_path ws).
Proof. intros H. now rewrite nth_error_map, H. Qed.

Ltac simple_fields :=
  cbn [Simple.stats Simple.logStream Simple.openedStreams Simple.outputFile
       Simple.outputRowCount Simple.currentOutputPart Simple.unmatchedStream
       Simple.openNewOutputFile Simple.route Simple.countRow Simple.countError
       Simple.log totalProcessed totalMatched totalUnmatched totalErrors] in *.

Lemma simple_inv_initial : Simple.inv Simple.initialGlobals.
Proof.
  constructor; cbn; try reflexivity.
  - constructor.
  - intros [|k] ws; discriminate.
  - constructor.
  - discriminate.
Qed.

Lemma simple_closed_length (g : Simple.Globals) :
  List.length (match Simple.outputFile g with
               | Some h => endStream h (Simple.openedStreams g)
               | None => Simple.openedStreams g
               end) = List.length (Simple.openedStreams g).
Proof. destruct (Simple.outputFile g); [apply endStream_length | reflexivity]. Qed.

(** Opening a file keeps the invariant and starts an empty partition. *)
Lemma simple_open (g : Simple.Globals) :
  Simple.inv g ->
  Simple.inv (Simple.openNewOutputFile g) /\
  Simple.outputRowCount (Simple.openNewOutputFile g) = 0%N /\
  Simple.openedStreams (Simple.openNewOutputFile g) <> [] /\
  Simple.outputRows (Simple.openNewOutputFile g) = Simple.outputRows g.
Proof.
  intros [Hpart Hcur Hhead Hpaths Hcap Hcount Hstats].
  pose proof (simple_closed_length g) as Hlen.
  split; [|split; [reflexivity|split]].
  - constructor; simple_fields.
    + rewrite length_app, Hlen, Hpart. cbn [List.length]. lia.
    + rewrite length_app. cbn [List.length]. rewrite Nat.add_1_r. cbn [Nat.pred].
      now destruct (match Simple.outputFile g with
                    | Some h => endStream h (Simple.openedStreams g)
                    | None => Simple.openedStreams g
                    end).
    + apply Forall_app. split.
      * destruct (Simple.outputFile g); [now apply endStream_headed | assumption].
      * constructor; [discriminate | constructor].
    + intros k ws Hk.
      destruct (Nat.lt_ge_cases k (List.length (Simple.openedStreams g))) as [Hlt|Hge].
      * rewrite nth_error_app1 in Hk by (now rewrite Hlen).
        apply nth_error_path in Hk.
        assert (nth_error (map ws_path (Simple.openedStreams g)) k = Some (ws_path ws))
          as Hk' by (destruct (Simple.outputFile g);
                     [now rewrite endStream_paths in Hk | assumption]).
        rewrite nth_error_map in Hk'.
        destruct (nth_error (Simple.openedStreams g) k) as [ws0|] eqn:H0;
          [|discriminate].
        injection Hk' as <-. now apply Hpaths.
      * rewrite nth_error_app2 in Hk by (now rewrite Hlen). rewrite Hlen in Hk.
        destruct (k - List.length (Simple.openedStreams g))%nat as [|[|n]] eqn:Hd;
          cbn in Hk; try discriminate.
        injection Hk as <-. cbn [ws_path]. rewrite Hpart.
        replace (N.of_nat (S k)) with (N.of_nat (List.length (Simple.openedStreams g)) + 1)%N
          by lia. reflexivity.
    + apply Forall_app. split.
      * destruct (Simple.outputFile g); [now apply endStream_cap | assumption].
      * constructor; [now vm_compute | constructor].
    + intros ws. rewrite length_app. cbn [List.length]. rewrite Nat.add_1_r.
      cbn [Nat.pred]. rewrite nth_error_app2 by lia. rewrite Nat.sub_diag.
      cbn. intros [= <-]. now vm_compute.
    + exact Hstats.
  - simple_fields. intros Happ. apply app_eq_nil in Happ. destruct Happ; discriminate.
  - unfold Simple.outputRows. simple_fields. rewrite flat_map_app.
    cbn [flat_map partitionRows written ws_chunks rev app tl]. rewrite !app_nil_r.
    destruct (Simple.outputFile g); [apply endStream_rows | reflexivity].
Qed.

Lemma simple_ensureOpen (g : Simple.Globals) :
  Simple.inv g ->
  Simple.inv (Simple.ensureOpen g) /\
  (Simple.outputRowCount (Simple.ensureOpen g) < ROWS_PER_FILE)%N /\
  Simple.openedStreams (Simple.ensureOpen g) <> [] /\
  Simple.outputRows (Simple.ensureOpen g) = Simple.outputRows g /\
  Simple.unmatchedStream (Simple.ensureOpen g) = Simple.unmatchedStream g /\
  Simple.stats (Simple.ensureOpen g) = Simple.stats g.
Proof.
  intros Hinv. destruct (simple_open g Hinv) as (Hinv' & Hzero & Hne & Hrows).
  unfold Simple.ensureOpen.
  assert (0 < ROWS_PER_FILE)%N as Hpos by now vm_compute.
  destruct (Simple.outputFile g) as [h|] eqn:Hcur.
  - destruct (ROWS_PER_FILE <=? Simple.outputRowCount g)%N eqn:Hfull.
    + rewrite Hzero. auto 10.
    + apply N.leb_gt in Hfull.
      split; [assumption|]. split; [assumption|]. split; [|auto].
      intros Hnil. pose proof (Simple.inv_current g Hinv) as Hc.
      rewrite Hnil, Hcur in Hc. discriminate.
  - rewrite Hzero. auto 10.
Qed.

Lemma paths_by_map (l l' : list WriteStream) (f : nat -> string) :
  map ws_path l' = map ws_path l ->
  (forall k ws, nth_error l k = Some ws -> ws_path ws = f k) ->
  forall k ws, nth_error l' k = Some ws -> ws_path ws = f k.
Proof.
  intros Hmap Hl k ws Hk. apply nth_error_path in Hk. rewrite Hmap in Hk.
  rewrite nth_error_map in Hk.
  destruct (nth_error l k) as [ws0|] eqn:H0; [|discriminate].
  injection Hk as <-. now apply Hl.
Qed.

Lemma simple_writeResult (addressId : string) (geoid : option string)
    (g : Simple.Globals) :
  Simple.inv g ->
  let g' := Simple.writeResult addressId geoid g in
  Simple.inv g' /\
  Simple.outputRows g' =
    (Simple.outputRows g ++
     if truthy geoid then [Simple.outputRow addressId (show geoid)] else [])%list /\
  Simple.unmatchedStream g' =
    ((if truthy geoid then [] else [Simple.unmatchedRow addressId]) ++
     Simple.unmatchedStream g)%list /\
  totalProcessed (Simple.stats g') = (totalProcessed (Simple.stats g) + 1)%N /\
  totalErrors (Simple.stats g') = totalErrors (Simple.stats g).
Proof.
  intros Hinv. cbn zeta.
  destruct (simple_ensureOpen g Hinv) as (Hinv1 & Hroom & Hne & Hrows & Hun & Hst).
  unfold Simple.writeResult. rewrite <- Hrows, <- Hun, <- Hst.
  set (g1 := Simple.ensureOpen g) in *. clearbody g1. clear Hinv Hrows Hun Hst g.
  destruct Hinv1 as [Hpart Hcur Hhead Hpaths Hcap Hcount Hstats].
  destruct (exists_last Hne) as (l & ws & Hl).
  assert (Simple.outputFile g1 = Some (List.length l)) as Hcur'.
  { rewrite Hcur, Hl. rewrite length_app. cbn [List.length]. rewrite Nat.add_1_r.
    now destruct l. }
  assert (dataRows ws <= Simple.outputRowCount g1)%N as Hws.
  { apply Hcount. rewrite Hl, length_app. cbn [List.length]. rewrite Nat.add_1_r.
    cbn [Nat.pred]. rewrite nth_error_app2 by lia. now rewrite Nat.sub_diag. }
  unfold headed in Hhead. rewrite Hl in Hhead, Hcap.
  apply Forall_app in Hhead. destruct Hhead as [Hhead Hhws].
  apply Forall_app in Hcap. destruct Hcap as [Hcap _].
  inversion Hhws as [|? ? Hchunks _]; subst.
  unfold Simple.outputRows. unfold Simple.route.
  destruct (truthy geoid); simple_fields.
  - rewrite Hcur', Hl, writeStream_last.
    set (chunk := Simple.outputRow addressId (show geoid)). clearbody chunk.
    split; [|split; [|split; [reflexivity|split; reflexivity]]].
    + constructor; simple_fields.
      * rewrite Hpart, Hl, !length_app. reflexivity.
      * rewrite length_app. cbn [List.length]. rewrite Nat.add_1_r. now destruct l.
      * apply Forall_app. split; [assumption|].
        constructor; [discriminate | constructor].
      * apply (paths_by_map (Simple.openedStreams g1)); [|assumption].
        rewrite Hl, !map_app. reflexivity.
      * apply Forall_app. split; [assumption|]. constructor; [|constructor].
        pose proof (dataRows_write ws chunk). lia.
      * intros ws'. rewrite length_app. cbn [List.length]. rewrite Nat.add_1_r.
        cbn [Nat.pred]. rewrite nth_error_app2 by lia. rewrite Nat.sub_diag.
        cbn. intros [= <-]. pose proof (dataRows_write ws chunk). lia.
      * lia.
    + rewrite !flat_map_app. cbn [flat_map]. rewrite !app_nil_r.
      rewrite partitionRows_write by assumption. now rewrite app_assoc.
  - rewrite app_nil_r.
    split; [|split; [reflexivity|split; [reflexivity|split; reflexivity]]].
    constructor; simple_fields; try assumption.
    + rewrite Hl. apply Forall_app. split; [assumption | now constructor].
    + rewrite Hl. apply Forall_app. split; [assumption|].
      constructor; [lia | constructor].
    + intros ws' Hws'. pose proof (Hcount ws' Hws'). lia.
    + lia.
Qed.

Lemma simple_countError (g : Simple.Globals) :
  Simple.inv g -> Simple.inv (Simple.countError g).
Proof. intros []; constructor; assumption. Qed.

Lemma simple_log (entry : Simple.LogEntry) (g : Simple.Globals) :
  Simple.inv g -> Simple.inv (Simple.log entry g).
Proof. intros []; constructor; assumption. Qed.

Section SimpleFacts.

Context {E : Externals}.
Variable idx : SpatialIndex.

Lemma countIf_cons {A : Type} (p : A -> bool) (a : A) (l : list A) :
  countIf p (a :: l) = ((if p a then 1 else 0) + countIf p l)%N.
Proof. unfold countIf. cbn [filter]. destruct (p a); cbn [List.length]; lia. Qed.

Lemma countIf_app {A : Type} (p : A -> bool) (a b : list A) :
  countIf p (a ++ b) = (countIf p a + countIf p b)%N.
Proof. unfold countIf. rewrite filter_app, length_app. lia. Qed.

Lemma simple_onData (g : Simple.Globals) (record : Simple.Row) :
  Simple.inv g ->
  let g' := Simple.onData idx g record in
  Simple.inv g' /\
  Simple.outputRows g' = (Simple.outputRows g ++ Simple.matchedRows idx [record])%list /\
  rev (Simple.unmatchedStream g') =
    (rev (Simple.unmatchedStream g) ++ Simple.unmatchedRows idx [record])%list /\
  (totalProcessed (Simple.stats g') + (if Simple.throws idx record then 1 else 0) =
   totalProcessed (Simple.stats g) + 1)%N /\
  totalErrors (Simple.stats g') =
    (totalErrors (Simple.stats g) +
     (if Simple.unparseable record then 1 else 0) +
     (if Simple.throws idx record then 1 else 0))%N.
Proof.
  intros Hinv. cbn zeta.
  unfold Simple.onData, Simple.matchedRows, Simple.unmatchedRows, Simple.answer,
    Simple.throws, Simple.unparseable.
  cbn [flat_map]. rewrite !app_nil_r.
  destruct (isNaN _ || isNaN _).
  - destruct (simple_writeResult (Simple.id record) None g Hinv)
      as (Hinv' & Hrows & Hun & Hproc & Herr).
    cbn [truthy] in *. split; [now apply simple_countError|].
    unfold Simple.outputRows in *. simple_fields.
    rewrite Hrows, Hun, Hproc, Herr. cbn [app rev]. repeat split; lia.
  - destruct (snd (findTractForPoint _ _ idx)) as [geoid|msg].
    + destruct (simple_writeResult (Simple.id record) geoid g Hinv)
        as (Hinv' & Hrows & Hun & Hproc & Herr).
      split; [assumption|]. rewrite Hrows, Hun, Hproc, Herr.
      destruct (truthy geoid) eqn:Htruthy.
      * destruct geoid as [s|]; [|discriminate]. cbn [show app rev].
        rewrite app_nil_r. repeat split; lia.
      * cbn [app rev]. rewrite app_nil_r. repeat split; lia.
    + split; [now apply simple_countError|].
      unfold Simple.outputRows. simple_fields. rewrite !app_nil_r.
      repeat split; lia.
Qed.

Lemma simple_matchedRows_app (a b : list Simple.Row) :
  Simple.matchedRows idx (a ++ b) =
    (Simple.matchedRows idx a ++ Simple.matchedRows idx b)%list.
Proof. apply flat_map_app. Qed.

Lemma simple_unmatchedRows_app (a b : list Simple.Row) :
  Simple.unmatchedRows idx (a ++ b) =
    (Simple.unmatchedRows idx a ++ Simple.unmatchedRows idx b)%list.
Proof. apply flat_map_app. Qed.

Lemma simple_fold_onData (records : list Simple.Row) (g : Simple.Globals) :
  Simple.inv g ->
  let g' := fold_left (Simple.onData idx) records g in
  Simple.inv g' /\
  Simple.outputRows g' = (Simple.outputRows g ++ Simple.matchedRows idx records)%list /\
  rev (Simple.unmatchedStream g') =
    (rev (Simple.unmatchedStream g) ++ Simple.unmatchedRows idx records)%list /\
  (totalProcessed (Simple.stats g') + countIf (Simple.throws idx) records =
   totalProcessed (Simple.stats g) + N.of_nat (List.length records))%N /\
  totalErrors (Simple.stats g') =
    (totalErrors (Simple.stats g) + countIf Simple.unparseable records +
     countIf (Simple.throws idx) records)%N.
Proof.
  cbn zeta. revert g. induction records as [|r rs IH]; intros g Hinv; cbn [fold_left].
  - unfold countIf, Simple.matchedRows, Simple.unmatchedRows.
    cbn [filter List.length flat_map]. rewrite !app_nil_r.
    split; [assumption|]. split; [reflexivity|]. split; [reflexivity|]. split; lia.
  - destruct (simple_onData g r Hinv) as (Hinv1 & Hrows1 & Hun1 & Hproc1 & Herr1).
    destruct (IH _ Hinv1) as (Hinv2 & Hrows2 & Hun2 & Hproc2 & Herr2).
    split; [assumption|].
    change (r :: rs) with ([r] ++ rs)%list.
    rewrite simple_matchedRows_app, simple_unmatchedRows_app.
    rewrite Hrows2, Hrows1, Hun2, Hun1, Herr2, Herr1, !app_assoc.
    change ([r] ++ rs)%list with (r :: rs). rewrite !countIf_cons.
    cbn [List.length]. repeat split; lia.
Qed.

Lemma simple_processAddressFile (fname : string) (records : list Simple.Row)
    (g : Simple.Globals) :
  Simple.inv g ->
  let g' := fst (Simple.processAddressFile idx fname records g) in
  Simple.inv g' /\
  Simple.outputRows g' = (Simple.outputRows g ++ Simple.matchedRows idx records)%list /\
  rev (Simple.unmatchedStream g') =
    (rev (Simple.unmatchedStream g) ++ Simple.unmatchedRows idx records)%list /\
  (totalProcessed (Simple.stats g') + countIf (Simple.throws idx) records =
   totalProcessed (Simple.stats g) + N.of_nat (List.length records))%N /\
  totalErrors (Simple.stats g') =
    (totalErrors (Simple.stats g) + countIf Simple.unparseable records +
     countIf (Simple.throws idx) records)%N.
Proof.
  intros Hinv. cbn zeta. unfold Simple.processAddressFile. cbn [fst].
  pose proof (simple_fold_onData records
                (Simple.log (Simple.Line ("📁 Processing: " ++ fname)) g)
                (simple_log _ g Hinv)) as H.
  cbn zeta in H.
  set (g1 := fold_left (Simple.onData idx) records _) in *.
  destruct H as (Hinv1 & Hrows & Hun & Hproc & Herr).
  split; [now apply simple_log|].
  split; [exact Hrows|]. split; [exact Hun|]. split; [exact Hproc | exact Herr].
Qed.

Lemma simple_processFiles (addressFiles : list (string * list Simple.Row))
    (g : Simple.Globals) :
  Simple.inv g ->
  let g' := Simple.processFiles idx addressFiles g in
  let records := flat_map snd addressFiles in
  Simple.inv g' /\
  Simple.outputRows g' = (Simple.outputRows g ++ Simple.matchedRows idx records)%list /\
  rev (Simple.unmatchedStream g') =
    (rev (Simple.unmatchedStream g) ++ Simple.unmatchedRows idx records)%list /\
  (totalProcessed (Simple.stats g') + countIf (Simple.throws idx) records =
   totalProcessed (Simple.stats g) + N.of_nat (List.length records))%N /\
  totalErrors (Simple.stats g') =
    (totalErrors (Simple.stats g) + countIf Simple.unparseable records +
     countIf (Simple.throws idx) records)%N.
Proof.
  cbn zeta. unfold Simple.processFiles. revert g.
  induction addressFiles as [|[fname records] files IH]; intros g Hinv;
    cbn [fold_left flat_map fst snd].
  - unfold countIf, Simple.matchedRows, Simple.unmatchedRows.
    cbn [filter List.length flat_map]. rewrite !app_nil_r.
    split; [assumption|]. split; [reflexivity|]. split; [reflexivity|]. split; lia.
  - destruct (simple_processAddressFile fname records g Hinv)
      as (Hinv1 & Hrows1 & Hun1 & Hproc1 & Herr1).
    set (g1 := fst (Simple.processAddressFile idx fname records g)) in *.
    destruct (IH g1 Hinv1) as (Hinv2 & Hrows2 & Hun2 & Hproc2 & Herr2).
    split; [assumption|].
    rewrite simple_matchedRows_app, simple_unmatchedRows_app, !countIf_app, length_app.
    rewrite Hrows2, Hrows1, Hun2, Hun1, Herr2, Herr1, !app_assoc.
    split; [reflexivity|]. split; [reflexivity|]. split; lia.
Qed.

End SimpleFacts.

(** X28: a run of the single-threaded pipeline, read off its files.  The
    partitions, in the order of their numbers, hold one row [id,geoid] for
    each row that got an identifier, in the order of the files and their
    rows; the file of unmatched addresses holds its header and then the [id]
    of every other row whose lookup did not throw.  A row with an
    unparseable coordinate is processed, listed as unmatched and counted as
    an error; a row whose lookup throws is written nowhere and counted as an
    error only. *)
Theorem simple_run_writes_every_row_once {E : Externals} (idx : SpatialIndex)
    (addressFiles : list (string * list Simple.Row)) :
  let g := Simple.run idx addressFiles in
  let records := flat_map snd addressFiles in
  Simple.outputRows g = Simple.matchedRows idx records /\
  rev (Simple.unmatchedStream g) =
    Simple.UNMATCHED_HEADER :: Simple.unmatchedRows idx records /\
  (totalProcessed (Simple.stats g) + countIf (Simple.throws idx) records =
   N.of_nat (List.length records))%N /\
  totalErrors (Simple.stats g) =
    (countIf Simple.unparseable records + countIf (Simple.throws idx) records)%N.
Proof.
  cbn zeta. unfold Simple.run.
  destruct (simple_processFiles idx addressFiles Simple.initialGlobals
              simple_inv_initial) as (_ & Hrows & Hun & Hproc & Herr).
  cbn zeta in *. rewrite Hrows, Hun, Herr. cbn [Simple.initialGlobals
    Simple.outputRows Simple.openedStreams Simple.unmatchedStream Simple.stats
    totalProcessed totalErrors flat_map rev app] in *.
  repeat split; lia.
Qed.

(** X29: in the single-threaded pipeline no partition holds more than
    ROWS_PER_FILE data rows, the partition at position k is written to
    [tracts_part_] k+1, and the part counter runs one ahead of the number of
    files opened, so that the final count [currentOutputPart - 1] is the
    number of output files; processed is matched plus unmatched. *)
Theorem simple_partitions_are_capped_and_numbered {E : Externals} (idx : SpatialIndex)
    (addressFiles : list (string * list Simple.Row)) :
  let g := Simple.run idx addressFiles in
  (forall k ws, nth_error (Simple.openedStreams g) k = Some ws ->
                (dataRows ws <= ROWS_PER_FILE)%N /\
                ws_path ws = OUTPUT_DIR ++ "/" ++ Simple.partFilename (N.of_nat (S k))) /\
  (Simple.currentOutputPart g - 1)%N = N.of_nat (List.length (Simple.openedStreams g)) /\
  totalProcessed (Simple.stats g) =
    (totalMatched (Simple.stats g) + totalUnmatched (Simple.stats g))%N.
Proof.
  cbn zeta. unfold Simple.run.
  destruct (simple_processFiles idx addressFiles Simple.initialGlobals
              simple_inv_initial) as (Hinv & _).
  destruct Hinv as [Hpart Hcur Hhead Hpaths Hcap Hcount Hstats].
  split; [|split; [lia | assumption]].
  intros k ws Hk. split; [|now apply Hpaths].
  rewrite Forall_forall in Hcap. apply Hcap. eapply nth_error_In. eassumption.
Qed.

(** X30: on a loaded index the single-threaded pipeline processes every row:
    no lookup throws, so each row lands in a partition or in the file of
    unmatched addresses, and the errors are the rows with an unparseable
    coordinate. *)
Theorem simple_run_on_loaded_index_drops_no_row {E : Externals} (data : DataDir)
    (console : list ConsoleEvent) (idx : SpatialIndex)
    (addressFiles : list (string * list Simple.Row)) :
  loadCensusTractShapefiles data = (console, inr idx) ->
  let g := Simple.run idx addressFiles in
  let records := flat_map snd addressFiles in
  totalProcessed (Simple.stats g) = N.of_nat (List.length records) /\
  (List.length (Simple.outputRows g) + List.length (Simple.unmatchedStream g) =
   S (List.length records))%nat /\
  totalErrors (Simple.stats g) = countIf Simple.unparseable records.
Proof.
  intros Hload. cbn zeta.
  assert (forall records, filter (Simple.throws idx) records = []) as Hno.
  { induction records as [|r rs IH]; cbn [filter]; [reflexivity|].
    unfold Simple.throws at 1.
    destruct (isNaN (parseFloat (Simple.latitude r))) eqn:Hlat; cbn [orb];
      [exact IH|].
    destruct (isNaN (parseFloat (Simple.longitude r))) eqn:Hlon; cbn [orb];
      [exact IH|].
    destruct (findTractForPoint_total idx _ _
                (fun q => loaded_candidates_valid data console idx q Hload) Hlat Hlon)
      as (res & ->).
    exact IH. }
  unfold Simple.run.
  destruct (simple_processFiles idx addressFiles Simple.initialGlobals
              simple_inv_initial) as (Hinv & Hrows & Hun & Hproc & Herr).
  cbn zeta in *. unfold countIf in *. rewrite Hno in *.
  cbn [List.length Simple.initialGlobals Simple.stats totalProcessed totalErrors] in *.
  split; [lia|]. split; [|lia].
  rewrite Hrows. apply (f_equal (@List.length _)) in Hun.
  rewrite length_rev, length_app in Hun. rewrite Hun, length_app.
  cbn [Simple.initialGlobals Simple.outputRows Simple.openedStreams
       Simple.unmatchedStream flat_map rev app List.length].
  assert (forall records,
            (List.length (Simple.matchedRows idx records) +
             List.length (Simple.unmatchedRows idx records) =
             List.length records)%nat) as Hsplit.
  { induction records as [|r rs IH]; [reflexivity|].
    change (r :: rs) with ([r] ++ rs)%list.
    rewrite simple_matchedRows_app, simple_unmatchedRows_app, !length_app, <- IH.
    assert (filter (Simple.throws idx) [r] = []) as Hr by apply Hno.
    cbn [filter] in Hr.
    unfold Simple.matchedRows, Simple.unmatchedRows. cbn [flat_map].
    destruct (Simple.answer idx r); [cbn; lia|].
    destruct (Simple.throws idx r); [discriminate|]. cbn. lia. }
  specialize (Hsplit (flat_map snd addressFiles)). lia.
Qed.

(** X30, witness: three rows against the unit square. *)
Lemma simple_run_on_loaded_index_drops_no_row_witness :
  totalProcessed (Simple.stats (Simple.run Example.squareIndex
    [("addresses_part_001.csv",
      [{| Simple.id := "1"; Simple.latitude := "0.5"; Simple.longitude := "0.5" |};
       {| Simple.id := "2"; Simple.latitude := "abc"; Simple.longitude := "0.5" |};
       {| Simple.id := "3"; Simple.latitude := "2"; Simple.longitude := "2" |}])])) =
  3%N.
Proof.
  apply (@simple_run_on_loaded_index_drops_no_row referenceExternals
           Example.squareData _ Example.squareIndex
           [("addresses_part_001.csv",
             [{| Simple.id := "1"; Simple.latitude := "0.5"; Simple.longitude := "0.5" |};
              {| Simple.id := "2"; Simple.latitude := "abc"; Simple.longitude := "0.5" |};
              {| Simple.id := "3"; Simple.latitude := "2"; Simple.longitude := "2" |}])]
           squareData_loads).
Defined.
